(** * Masstree pages of FOEDUS: a shallow embedding of
      [foedus/storage/masstree/masstree_page_impl.hpp]

    Integers of the C++ code are values of [Z]; every conversion to a
    narrower unsigned type is written out with [wrap8] / [wrap16].  Arrays
    are lists read through [at_index], which answers [None] outside the
    array: an access the C++ standard leaves undefined.  Functions that read
    or write arrays therefore live in the [option] monad of stdpp.  One read
    is followed past its array: [offsets_[index]] in [get_record], which the
    searches reach with an index of up to 255 and which then reads the
    members that follow [offsets_] in the same page.  Only a read that leaves
    the page has no result.

    [ASSERT_ND] is a debug-only check.  The functions below are written as
    the release build runs them; what the assertions demand is stated as
    hypotheses of the theorems.

    The first part holds the definitions: the page classes and their member
    functions, then the operations of the storage that are defined outside
    the header and are modelled after its documentation.  The second part
    holds the lemmas, one section per group of functions.

    Beside the page classes the first part holds two smaller pieces of the
    sources: [HashRange] of [foedus/storage/hash/hash_id.hpp] and the read
    loop of the L3-miss experiment. *)

From stdpp Require Import prelude sorting.

Local Open Scope Z_scope.

(** ** Machine integers *)

Definition wrap8 (x : Z) : Z := x mod 256.
Definition wrap16 (x : Z) : Z := x mod 65536.

Definition is_uint8 (x : Z) : Prop := 0 ≤ x < 256.
Definition is_uint16 (x : Z) : Prop := 0 ≤ x < 65536.
Definition is_uint64 (x : Z) : Prop := 0 ≤ x < 2 ^ 64.

#[global] Instance is_uint8_dec x : Decision (is_uint8 x).
Proof. unfold is_uint8. apply _. Defined.
#[global] Instance is_uint16_dec x : Decision (is_uint16 x).
Proof. unfold is_uint16. apply _. Defined.
#[global] Instance is_uint64_dec x : Decision (is_uint64 x).
Proof. unfold is_uint64. apply _. Defined.

(** [sizeof(KeySlice)] *)
Definition sizeof_KeySlice : Z := 8.

(** ** Arrays *)

Definition at_index {A : Type} (a : list A) (i : Z) : option A :=
  if decide (0 ≤ i) then a !! Z.to_nat i else None.

(** ** Types declared in other headers *)

Definition KeySlice : Type := Z.
Definition kInfimumSlice : KeySlice := 0.
Definition kSupremumSlice : KeySlice := 2 ^ 64 - 1.

(** Only the [snapshot_] flag of [PageHeader] is used by the page code. *)
Record PageHeader : Type := mkPageHeader {
  snapshot_ : bool;
  storage_id_ : Z
}.

(** Modelled from the spec: the page version word ([MasstreePageVersion],
    declared in masstree_page_version.hpp), one field per bit field of
    section 4.1. *)
Record MasstreePageVersion : Type := mkVersion {
  locked : bool;
  inserting : bool;
  splitting : bool;
  deleted : bool;
  has_foster : bool;
  is_root : bool;
  layer : Z;
  key_count : Z;
  vsplit : Z
}.

Definition get_key_count (v : MasstreePageVersion) : Z := key_count v.
Definition is_locked (v : MasstreePageVersion) : bool := locked v.
Definition is_inserting (v : MasstreePageVersion) : bool := inserting v.

(** Modelled from the spec: [lock_version], "spin CAS until locked
    transitions 0 to 1".  Run by one thread alone the spin ends only on an
    unlocked word, so a locked word gives no result. *)
Definition lock_version (v : MasstreePageVersion) : option MasstreePageVersion :=
  if locked v then None
  else Some (mkVersion true (inserting v) (splitting v) (deleted v)
               (has_foster v) (is_root v) (layer v) (key_count v) (vsplit v)).

(** Modelled from the spec: [unlock_version], "clear inserting, splitting,
    locked; bump vsplit iff splitting was set". *)
Definition unlock_version (v : MasstreePageVersion) : option MasstreePageVersion :=
  Some (mkVersion false false false (deleted v) (has_foster v) (is_root v)
          (layer v) (key_count v)
          (if splitting v then vsplit v + 1 else vsplit v)).

Record DualPagePointer : Type := mkDual {
  snapshot_pointer_ : Z;
  volatile_pointer_ : Z
}.

(** [xct::XctId], an opaque 64-bit word for the page code. *)
Definition XctId : Type := Z.

(** ** [MasstreePage]: the part common to both page kinds *)

Record MasstreePage : Type := mkPage {
  header_ : PageHeader;
  low_fence_ : KeySlice;
  high_fence_ : KeySlice;
  in_layer_parent_ : Z;
  page_version_ : MasstreePageVersion
}.

Definition get_low_fence (p : MasstreePage) : KeySlice := low_fence_ p.
Definition get_high_fence (p : MasstreePage) : KeySlice := high_fence_ p.

Definition set_page_version (p : MasstreePage) (v : MasstreePageVersion) : MasstreePage :=
  mkPage (header_ p) (low_fence_ p) (high_fence_ p) (in_layer_parent_ p) v.

(** [MasstreePage::lock] *)
Definition lock (p : MasstreePage) : option MasstreePage :=
  if negb (snapshot_ (header_ p)) then
    v ← lock_version (page_version_ p); Some (set_page_version p v)
  else Some p.

(** [MasstreePage::unlock] *)
Definition unlock (p : MasstreePage) : option MasstreePage :=
  if negb (snapshot_ (header_ p)) then
    v ← unlock_version (page_version_ p); Some (set_page_version p v)
  else Some p.

(** ** [MasstreeIntermediatePage] *)

Definition kMaxIntermediateSeparators : Z := 9.
Definition kMaxIntermediateMiniSeparators : Z := 15.

(** The loop shared by [find_minipage] and [MiniPage::find_pointer]:
    [for (uint8_t i = 0; i < separator_count; ++i)], with [todo] the number
    of iterations still to run. *)
Fixpoint find_separator_from (separators : list KeySlice) (separator_count : Z)
    (slice : KeySlice) (todo : nat) (i : Z) : option Z :=
  match todo with
  | O => Some separator_count
  | S todo' =>
      s ← at_index separators i;
      if slice <? s then Some i
      else find_separator_from separators separator_count slice todo' (wrap8 (i + 1))
  end.

Module MiniPage.

Record t : Type := mk {
  mini_version_ : MasstreePageVersion;
  separators_ : list KeySlice;
  pointers_ : list DualPagePointer
}.

(** [MiniPage::find_pointer] *)
Definition find_pointer (m : t) (stable : MasstreePageVersion) (slice : KeySlice)
    : option Z :=
  let separator_count := wrap8 (get_key_count stable) in
  find_separator_from (separators_ m) separator_count slice
    (Z.to_nat separator_count) 0.

Definition well_formed (m : t) : Prop :=
  length (separators_ m) = Z.to_nat kMaxIntermediateMiniSeparators
  ∧ length (pointers_ m) = Z.to_nat (kMaxIntermediateMiniSeparators + 1).

End MiniPage.

Module MasstreeIntermediatePage.

Record t : Type := mk {
  base : MasstreePage;
  separators_ : list KeySlice;
  mini_pages_ : list MiniPage.t
}.

(** [MasstreeIntermediatePage::find_minipage] *)
Definition find_minipage (p : t) (stable : MasstreePageVersion) (slice : KeySlice)
    : option Z :=
  let separator_count := wrap8 (get_key_count stable) in
  find_separator_from (separators_ p) separator_count slice
    (Z.to_nat separator_count) 0.

Definition get_minipage (p : t) (index : Z) : option MiniPage.t :=
  at_index (mini_pages_ p) index.

Definition well_formed (p : t) : Prop :=
  length (separators_ p) = Z.to_nat kMaxIntermediateSeparators
  ∧ length (mini_pages_ p) = 10%nat.

End MasstreeIntermediatePage.

(** What the callers read off the returned index: it is the first separator
    above the slice, or the separator count when there is none. *)
Definition first_separator_above (separators : list KeySlice) (separator_count : Z)
    (slice : KeySlice) (r : Z) : Prop :=
  0 ≤ r ≤ separator_count
  ∧ (∀ j s, 0 ≤ j < r → at_index separators j = Some s → s ≤ slice)
  ∧ (r < separator_count → ∃ s, at_index separators r = Some s ∧ slice < s).

(** ** Memory regions *)

(** Modelled from the spec: [assorted::align16] (declared in a header outside
    these sources), "16-byte-aligned": the least multiple of 16 that is at
    least [x]. *)
Definition align16 (x : Z) : Z := (x + 15) / 16 * 16.

(** [len] bytes of [mem] from [start]; no result when the range leaves [mem]. *)
Definition read_bytes (mem : list Z) (start len : Z) : option (list Z) :=
  if decide (0 ≤ start ∧ 0 ≤ len ∧ start + len ≤ Z.of_nat (length mem))
  then Some (take (Z.to_nat len) (drop (Z.to_nat start) mem))
  else None.

(** [bytes] stored into [mem] from [start]; no result when they do not fit. *)
Definition write_bytes (mem : list Z) (start : Z) (bytes : list Z) : option (list Z) :=
  if decide (0 ≤ start ∧ start + Z.of_nat (length bytes) ≤ Z.of_nat (length mem))
  then Some (list_inserts (Z.to_nat start) bytes mem)
  else None.

(** An assignment [a[i] = x]; no result outside the array. *)
Definition write_index {A : Type} (a : list A) (i : Z) (x : A) : option (list A) :=
  if decide (0 ≤ i < Z.of_nat (length a))
  then Some (<[Z.to_nat i := x]> a)
  else None.

(** [std::memcmp(a, b, n) == 0] for [a] inside [mem] at [start]. *)
Definition memcmp_eq (mem : list Z) (start : Z) (other : list Z) (n : Z) : option bool :=
  a ← read_bytes mem start n;
  b ← read_bytes other 0 n;
  Some (bool_decide (a = b)).

(** Little-endian bytes of a 64-bit word. *)
Definition bytes_of_uint64 (x : Z) : list Z :=
  (λ k : nat, Z.shiftr x (8 * Z.of_nat k) mod 256) <$> seq 0 8.

(** Modelled from the spec: the 16 bytes of a [DualPagePointer] (declared in
    storage_id.hpp), snapshot pointer first. *)
Definition bytes_of_dual (d : DualPagePointer) : list Z :=
  bytes_of_uint64 (snapshot_pointer_ d) ++ bytes_of_uint64 (volatile_pointer_ d).

(** ** [MasstreeBorderPage] *)

Module MasstreeBorderPage.

Definition kMaxKeys : Z := 64.
Definition kKeyLengthNextLayer : Z := 255.
Definition kKeyLengthMax : Z := 254.
Definition kHeaderSize : Z := 1344.
Definition kDataSize : Z := 4096 - kHeaderSize.

Inductive MatchType : Type :=
| kNotFound
| kExactMatchLocalRecord
| kExactMatchLayerPointer
| kConflictingLocalRecord.

Record FindKeyForReserveResult : Type := mkResult {
  index_ : Z;
  match_type_ : MatchType
}.

Record t : Type := mk {
  base : MasstreePage;
  remaining_key_length_ : list Z;
  slices_ : list KeySlice;
  offsets_ : list Z;
  payload_length_ : list Z;
  owner_ids_ : list XctId;
  data_ : list Z
}.

Definition version (p : t) : MasstreePageVersion := page_version_ (base p).

Definition set_base (p : t) (b : MasstreePage) : t :=
  mk b (remaining_key_length_ p) (slices_ p) (offsets_ p) (payload_length_ p)
    (owner_ids_ p) (data_ p).

(** The arrays have the sizes the class declares. *)
Definition sized (p : t) : Prop :=
  length (remaining_key_length_ p) = Z.to_nat kMaxKeys
  ∧ length (slices_ p) = Z.to_nat kMaxKeys
  ∧ length (offsets_ p) = Z.to_nat kMaxKeys
  ∧ length (payload_length_ p) = Z.to_nat kMaxKeys
  ∧ length (owner_ids_ p) = Z.to_nat kMaxKeys
  ∧ length (data_ p) = Z.to_nat kDataSize.

(** Their entries are values of the element types. *)
Definition typed (p : t) : Prop :=
  Forall is_uint8 (remaining_key_length_ p)
  ∧ Forall is_uint64 (slices_ p)
  ∧ Forall is_uint8 (offsets_ p)
  ∧ Forall is_uint16 (payload_length_ p)
  ∧ Forall is_uint64 (owner_ids_ p)
  ∧ Forall is_uint8 (data_ p).

(** A value of the class [MasstreeBorderPage]. *)
Definition well_formed (p : t) : Prop := sized p ∧ typed p.

(** The records of the slots below [count] start inside the data region:
    [data_] holds [kDataSize >> 4] units of 16 bytes. *)
Definition records_inside_data (p : t) (count : Z) : Prop :=
  ∀ j o, 0 ≤ j < count → at_index (offsets_ p) j = Some o →
         o ≤ Z.shiftr kDataSize 4.

(** [offsets_[index]] as [get_record(uint8_t index)] reads it.  The array has
    [kMaxKeys] entries, but the two searches call [get_record(offsets_[i])]
    with an offset, which goes up to 255.  From 64 on the read does not leave
    the page: it lands in the members declared after [offsets_] (the layout
    is counted in the comments beside them), first in the 128 bytes of
    [payload_length_], the low byte of each [uint16_t] first, then in the
    first eight words of [owner_ids_], low byte first (the byte order of
    x86-64, for which the page layout is written). *)
Definition offsets_at (p : t) (index : Z) : option Z :=
  if index <? kMaxKeys then at_index (offsets_ p) index
  else if index <? 3 * kMaxKeys then
    v ← at_index (payload_length_ p) ((index - kMaxKeys) / 2);
    Some (Z.shiftr v (8 * ((index - kMaxKeys) mod 2)) mod 256)
  else
    v ← at_index (owner_ids_ p) ((index - 3 * kMaxKeys) / 8);
    Some (Z.shiftr v (8 * ((index - 3 * kMaxKeys) mod 8)) mod 256).

(** [get_record(index)], as the position of the record from the start of
    [data_]: [data_ + (static_cast<uint16_t>(offsets_[index]) << 4)]. *)
Definition get_record (p : t) (index : Z) : option Z :=
  o ← offsets_at p index;
  Some (Z.shiftl (wrap16 o) 4).

(** [get_next_layer(index)] points at the same place. *)
Definition get_next_layer (p : t) (index : Z) : option Z :=
  o ← offsets_at p index;
  Some (Z.shiftl (wrap16 o) 4).

Definition does_point_to_layer (p : t) (index : Z) : option bool :=
  len ← at_index (remaining_key_length_ p) index;
  Some (len =? kKeyLengthNextLayer).

Definition get_owner_id (p : t) (index : Z) : option XctId :=
  at_index (owner_ids_ p) index.

Definition get_suffix_length (p : t) (index : Z) : option Z :=
  len ← at_index (remaining_key_length_ p) index;
  Some (if len <=? sizeof_KeySlice then 0 else wrap16 (len - sizeof_KeySlice)).

Definition get_payload_length (p : t) (index : Z) : option Z :=
  at_index (payload_length_ p) index.

Definition calculate_suffix_length (remaining_length : Z) : Z :=
  if sizeof_KeySlice <=? remaining_length
  then wrap8 (remaining_length - sizeof_KeySlice)
  else 0.

(** The sum is computed in [int]; the result is returned as [uint16_t]. *)
Definition calculate_record_size (remaining_length payload_count : Z) : Z :=
  let suffix_length := wrap16 (calculate_suffix_length remaining_length) in
  wrap16 (align16 (suffix_length + payload_count)).

Definition can_accomodate (p : t) (new_index remaining_length payload_count : Z)
    : option bool :=
  if new_index =? 0 then Some true
  else
    let record_size := calculate_record_size remaining_length payload_count in
    o ← at_index (offsets_ p) (new_index - 1);
    let last_offset := wrap16 (Z.shiftl (wrap16 o) 4) in
    Some (record_size <=? last_offset).

(** One round of the loop of [find_key]; [todo] counts the iterations left
    and [wrap8 (i + 1)] is [++i] on a [uint8_t]. *)
Fixpoint find_key_from (p : t) (slice : KeySlice) (suffix : list Z) (remaining : Z)
    (todo : nat) (i : Z) : option Z :=
  match todo with
  | O => Some kMaxKeys
  | S todo' =>
      let next := find_key_from p slice suffix remaining todo' (wrap8 (i + 1)) in
      s ← at_index (slices_ p) i;
      if negb (slice =? s) then next
      else if remaining <=? sizeof_KeySlice then
        len ← at_index (remaining_key_length_ p) i;
        if len =? remaining then Some i else next
      else
        to_layer ← does_point_to_layer p i;
        if (to_layer : bool) then Some i
        else
          len ← at_index (remaining_key_length_ p) i;
          same ← (if len =? remaining then
                    o ← at_index (offsets_ p) i;
                    record_suffix ← get_record p o;
                    memcmp_eq (data_ p) record_suffix suffix
                      (remaining - sizeof_KeySlice)
                  else Some false);
          if (same : bool) then Some i
          else if sizeof_KeySlice <? len then Some kMaxKeys
          else next
  end.

Definition find_key (p : t) (stable : MasstreePageVersion) (slice : KeySlice)
    (suffix : list Z) (remaining : Z) : option Z :=
  let key_count := wrap8 (get_key_count stable) in
  find_key_from p slice suffix remaining (Z.to_nat key_count) 0.

Fixpoint find_key_normalized_from (p : t) (slice : KeySlice)
    (todo : nat) (i : Z) : option Z :=
  match todo with
  | O => Some kMaxKeys
  | S todo' =>
      let next := find_key_normalized_from p slice todo' (wrap8 (i + 1)) in
      s ← at_index (slices_ p) i;
      if slice =? s then
        len ← at_index (remaining_key_length_ p) i;
        if len =? sizeof_KeySlice then Some i else next
      else next
  end.

Definition find_key_normalized (p : t) (from_index to_index : Z) (slice : KeySlice)
    : option Z :=
  find_key_normalized_from p slice (Z.to_nat (to_index - from_index)) from_index.

Fixpoint find_key_for_reserve_from (p : t) (slice : KeySlice) (suffix : list Z)
    (remaining : Z) (todo : nat) (i : Z) : option FindKeyForReserveResult :=
  match todo with
  | O => Some (mkResult kMaxKeys kNotFound)
  | S todo' =>
      let next := find_key_for_reserve_from p slice suffix remaining todo'
                    (wrap8 (i + 1)) in
      s ← at_index (slices_ p) i;
      if negb (slice =? s) then next
      else if remaining <=? sizeof_KeySlice then
        len ← at_index (remaining_key_length_ p) i;
        if len =? remaining then Some (mkResult i kExactMatchLocalRecord) else next
      else
        to_layer ← does_point_to_layer p i;
        if (to_layer : bool) then Some (mkResult i kExactMatchLayerPointer)
        else
          len ← at_index (remaining_key_length_ p) i;
          if len <=? sizeof_KeySlice then next
          else
            o ← at_index (offsets_ p) i;
            record_suffix ← get_record p o;
            if len =? remaining then
              same ← memcmp_eq (data_ p) record_suffix suffix
                       (remaining - sizeof_KeySlice);
              if (same : bool) then Some (mkResult i kExactMatchLocalRecord)
              else Some (mkResult i kConflictingLocalRecord)
            else Some (mkResult i kConflictingLocalRecord)
  end.

Definition find_key_for_reserve (p : t) (from_index to_index : Z) (slice : KeySlice)
    (suffix : list Z) (remaining : Z) : option FindKeyForReserveResult :=
  find_key_for_reserve_from p slice suffix remaining
    (Z.to_nat (to_index - from_index)) from_index.

(** [reserve_record_space]: the five slot assignments, then the [memcpy] of
    the suffix to [get_record(index)]. *)
Definition reserve_record_space (p : t) (index : Z) (initial_owner_id : XctId)
    (slice : KeySlice) (suffix : list Z) (remaining_length payload_count : Z)
    : option t :=
  let suffix_length := wrap16 (calculate_suffix_length remaining_length) in
  let record_size :=
    wrap8 (Z.shiftr (calculate_record_size remaining_length payload_count) 4) in
  previous_offset ←
    (if index =? 0 then Some (wrap8 (Z.shiftr kDataSize 4))
     else at_index (offsets_ p) (index - 1));
  slices' ← write_index (slices_ p) index slice;
  lengths' ← write_index (remaining_key_length_ p) index remaining_length;
  payloads' ← write_index (payload_length_ p) index payload_count;
  offsets' ← write_index (offsets_ p) index (wrap8 (previous_offset - record_size));
  owners' ← write_index (owner_ids_ p) index initial_owner_id;
  let p' := mk (base p) lengths' slices' offsets' payloads' owners' (data_ p) in
  if 0 <? suffix_length then
    record ← get_record p' index;
    bytes ← read_bytes suffix 0 suffix_length;
    data' ← write_bytes (data_ p') record bytes;
    Some (mk (base p') lengths' slices' offsets' payloads' owners' data')
  else Some p'.

(** What [reserve_record_space] asserts on entry, [can_accomodate] apart. *)
Definition reserve_record_space_asserts (p : t) (index remaining_length : Z) : Prop :=
  remaining_length ≤ kKeyLengthMax
  ∧ is_locked (version p) = true
  ∧ is_inserting (version p) = true
  ∧ get_key_count (version p) = index + 1.

(** [set_next_layer] *)
Definition set_next_layer (p : t) (index : Z) (pointer : DualPagePointer) : option t :=
  lengths' ← write_index (remaining_key_length_ p) index kKeyLengthNextLayer;
  let p' := mk (base p) lengths' (slices_ p) (offsets_ p) (payload_length_ p)
              (owner_ids_ p) (data_ p) in
  record ← get_next_layer p' index;
  data' ← write_bytes (data_ p') record (bytes_of_dual pointer);
  Some (mk (base p') lengths' (slices_ p) (offsets_ p) (payload_length_ p)
          (owner_ids_ p) data').

End MasstreeBorderPage.

(** ** The record heap as the spec describes it *)

Import MasstreeBorderPage.

(** The place where the previous record starts, in bytes from [data_]: the
    end of the data region when there is no previous record. *)
Definition previous_record_start (p : t) (new_index : Z) : option Z :=
  if new_index =? 0 then Some kDataSize
  else o ← at_index (offsets_ p) (new_index - 1); Some (16 * o).

(** The record of a key of [remaining_length] bytes with [payload_count]
    bytes of payload, aligned to 16 bytes, fits below the previous record. *)
Definition record_fits (p : t) (new_index remaining_length payload_count : Z)
    : option bool :=
  start ← previous_record_start p new_index;
  Some (align16 (calculate_suffix_length remaining_length + payload_count) <=? start).

(** The key suffix kept for slot [index]: [n] bytes of the record of that
    slot, the one [reserve_record_space] wrote at [get_record(index)]. *)
Definition stored_suffix (p : t) (index n : Z) : option (list Z) :=
  record ← get_record p index;
  read_bytes (data_ p) record n.

(** ** Pages used as concrete inputs *)

Definition reader_version (count : Z) : MasstreePageVersion :=
  mkVersion false false false false false true 0 count 0.

(** The version word of a writer that holds the lock and has announced its
    insertion of slot [count - 1]. *)
Definition writer_version (count : Z) : MasstreePageVersion :=
  mkVersion true true false false false true 0 count 0.

Definition volatile_base (v : MasstreePageVersion) : MasstreePage :=
  mkPage (mkPageHeader false 1) kInfimumSlice kSupremumSlice 0 v.

Definition snapshot_base (v : MasstreePageVersion) : MasstreePage :=
  mkPage (mkPageHeader true 1) kInfimumSlice kSupremumSlice 0 v.

(** A page with no slot in use and zeroed memory. *)
Definition blank_page (v : MasstreePageVersion) : t :=
  mk (volatile_base v) (replicate 64 0) (replicate 64 0) (replicate 64 0)
    (replicate 64 0) (replicate 64 0) (replicate 2752 0).

(** The page an operation produced (a blank page when it produced none). *)
Definition the_page (o : option t) : t := default (blank_page (reader_version 0)) o.

(** The slice of the eight bytes "abcdefgh". *)
Definition slice_abcdefgh : KeySlice := 7017280452245743464.

(** A writer reserves slot [index] on [p]. *)
Definition reserve_as_writer (p : option t) (index : Z) (slice : KeySlice)
    (suffix : list Z) (remaining_length payload_count : Z) : option t :=
  q ← p;
  reserve_record_space (set_base q (volatile_base (writer_version (index + 1))))
    index 99 slice suffix remaining_length payload_count.

(** Slot 0 holds the 9-byte key "abcdefghA" with a payload of 2735 bytes, so
    its record starts at [data_ + 16]; slot 1 holds an 8-byte key with 16
    bytes of payload at [data_ + 0]. *)
Definition page_two_records : option t :=
  reserve_as_writer
    (reserve_as_writer (Some (blank_page (reader_version 0))) 0
       slice_abcdefgh [65] 9 2735)
    1 (slice_abcdefgh + 1) [] 8 16.

(** Slot 0 holds the 9-byte key "abcdefghA" with 10 bytes of payload. *)
Definition page_one_record : option t :=
  reserve_as_writer (Some (blank_page (reader_version 0))) 0
    slice_abcdefgh [65] 9 10.

(** [page_one_record] in the hands of a writer that is about to reserve
    slot 1. *)
Definition page_one_record_locked : t :=
  set_base (the_page page_one_record) (volatile_base (writer_version 2)).

(** A blank page in the hands of a writer that is about to reserve slot 0. *)
Definition blank_page_locked : t := blank_page (writer_version 1).

(** Slot 0 holds an 8-byte key without payload, so its record is empty and
    starts at the end of [data_]; a writer is about to reserve slot 1. *)
Definition page_empty_record_locked : t :=
  set_base
    (the_page (reserve_as_writer (Some (blank_page (reader_version 0))) 0
                 slice_abcdefgh [] 8 0))
    (volatile_base (writer_version 2)).

(** An intermediate page with three separators in use, and one of its
    mini-pages with two. *)
Definition sample_minipage : MiniPage.t :=
  MiniPage.mk (reader_version 2) ([100; 200] ++ replicate 13 0)
    (replicate 16 (mkDual 0 0)).

Definition sample_intermediate : MasstreeIntermediatePage.t :=
  MasstreeIntermediatePage.mk (volatile_base (reader_version 3))
    ([1000; 2000; 3000] ++ replicate 6 0) (replicate 10 sample_minipage).

(** ** Building a border page *)

(** Modelled from the spec: [initialize_volatile_page] (defined outside these
    sources), "initializing the header (fences, layer, parent, zero key
    count)" of a zeroed frame; the version word is the caller's. *)
Definition initialize_volatile_page (v : MasstreePageVersion) : t := blank_page v.

(** The writer announces slot [key_count] as being inserted: the key count
    [reserve_record_space] asserts is [index + 1]. *)
Definition announce_insert (v : MasstreePageVersion) : MasstreePageVersion :=
  mkVersion (locked v) true (splitting v) (deleted v) (has_foster v) (is_root v)
    (layer v) (key_count v + 1) (vsplit v).

(** Modelled from the spec: slot reservation, section 4.3 (the caller of
    [find_key_for_reserve], [can_accomodate] and [reserve_record_space] is
    defined outside these sources): lock the page, scan for the key again,
    give up when it is there or when there is no room, else set inserting,
    reserve the slot after the last one, and unlock. *)
Definition insert_new_record (p : t) (initial_owner_id : XctId) (slice : KeySlice)
    (suffix : list Z) (remaining_length payload_count : Z) : option t :=
  locked_base ← lock (base p);
  let p1 := set_base p locked_base in
  let count := get_key_count (version p1) in
  found ← find_key_for_reserve p1 0 count slice suffix remaining_length;
  match match_type_ found with
  | kNotFound =>
      fits ← can_accomodate p1 count remaining_length payload_count;
      if (fits : bool) && (count <? kMaxKeys) then
        let p2 := set_base p1
                    (set_page_version locked_base (announce_insert (version p1))) in
        p3 ← reserve_record_space p2 count initial_owner_id slice suffix
               remaining_length payload_count;
        unlocked_base ← unlock (base p3);
        Some (set_base p3 unlocked_base)
      else None
  | _ => None
  end.

(** Keys of 0 to 8 bytes are told apart by their length; all longer keys and
    the next-layer marker count as one kind. *)
Definition length_class (len : Z) : Z := if sizeof_KeySlice <? len then 9 else len.

(** The slots in use that hold [slice]. *)
Definition slots_with_slice (p : t) (count : Z) (slice : KeySlice) : list Z :=
  filter (λ i, at_index (slices_ p) i = Some slice) (seqZ 0 count).

(** The slot arrays of a border page: the key count is within the arrays and
    no length is negative. *)
Definition page_shape (p : t) : Prop :=
  0 ≤ get_key_count (version p) ≤ kMaxKeys
  ∧ length (remaining_key_length_ p) = Z.to_nat kMaxKeys
  ∧ length (slices_ p) = Z.to_nat kMaxKeys
  ∧ Forall (λ len, 0 ≤ len) (remaining_key_length_ p).

(** Modelled from the spec: what a split (4.4) leaves in each of its two
    pages, "move the upper half of slots (both metadata and heap entries) to
    the foster child; compact the original": every slot in use of [q] is a
    slot in use of [p] with its slice and its remaining key length, at
    whatever position, and no slot of [p] is taken twice. *)
Definition keeps_slots_of (q p : t) : Prop :=
  ∃ origin : Z → Z,
    (∀ i, 0 ≤ i < get_key_count (version q) →
          0 ≤ origin i < get_key_count (version p)
          ∧ at_index (slices_ q) i = at_index (slices_ p) (origin i)
          ∧ at_index (remaining_key_length_ q) i
            = at_index (remaining_key_length_ p) (origin i))
    ∧ (∀ i j, 0 ≤ i < get_key_count (version q) →
              0 ≤ j < get_key_count (version q) →
              origin i = origin j → i = j).

(** Modelled from the spec: the border pages that the operations make.  A
    fresh page; slot reservation (4.3); next-layer promotion (4.4), where
    [set_next_layer] is applied, as it asserts, to a slot whose key is longer
    than 8 bytes; the root of a new layer, which holds the record that
    [copy_initial_record] copied, "the only record for a new root page"; and
    the pages that a split, a compaction or a copy leaves, which keep slots
    of a page that was there.  The last two are declared or named in the
    sources only, so every page of that form is taken. *)
Inductive built : t → Prop :=
| built_fresh v :
    get_key_count v = 0 →
    built (initialize_volatile_page v)
| built_insert p p' initial_owner_id slice suffix remaining_length payload_count :
    built p →
    0 ≤ remaining_length ≤ kKeyLengthMax →
    insert_new_record p initial_owner_id slice suffix remaining_length payload_count
      = Some p' →
    built p'
| built_next_layer p p' index pointer len :
    built p →
    0 ≤ index < get_key_count (version p) →
    at_index (remaining_key_length_ p) index = Some len →
    sizeof_KeySlice < len →
    set_next_layer p index pointer = Some p' →
    built p'
| built_initial_record p :
    page_shape p →
    get_key_count (version p) = 1 →
    built p
| built_split p q :
    built p →
    page_shape q →
    keeps_slots_of q p →
    built q.

(** Two slots in use with the same slice differ in the kind of their length:
    the lengths up to 8 are distinct and at most one is above 8. *)
Definition slices_told_apart (p : t) : Prop :=
  ∀ i j s li lj,
    0 ≤ i < get_key_count (version p) →
    0 ≤ j < get_key_count (version p) →
    i ≠ j →
    at_index (slices_ p) i = Some s →
    at_index (slices_ p) j = Some s →
    at_index (remaining_key_length_ p) i = Some li →
    at_index (remaining_key_length_ p) j = Some lj →
    length_class li ≠ length_class lj.

(** [find_key] together with the slots it examined further than their slice:
    the slots whose slice is the searched one.  The slots are listed whatever
    the search answers, also when it has no answer because a read left the
    page. *)
Fixpoint find_key_traced_from (p : t) (slice : KeySlice) (suffix : list Z)
    (remaining : Z) (todo : nat) (i : Z) : list Z * option Z :=
  match todo with
  | O => ([], Some kMaxKeys)
  | S todo' =>
      let rest :=
        find_key_traced_from p slice suffix remaining todo' (wrap8 (i + 1)) in
      let next := (i :: rest.1, rest.2) in
      match at_index (slices_ p) i with
      | None => ([], None)
      | Some s =>
          if negb (slice =? s) then rest
          else if remaining <=? sizeof_KeySlice then
            match at_index (remaining_key_length_ p) i with
            | None => ([i], None)
            | Some len => if len =? remaining then ([i], Some i) else next
            end
          else
            match does_point_to_layer p i with
            | None => ([i], None)
            | Some true => ([i], Some i)
            | Some false =>
                match at_index (remaining_key_length_ p) i with
                | None => ([i], None)
                | Some len =>
                    match (if len =? remaining then
                             o ← at_index (offsets_ p) i;
                             record_suffix ← get_record p o;
                             memcmp_eq (data_ p) record_suffix suffix
                               (remaining - sizeof_KeySlice)
                           else Some false) with
                    | None => ([i], None)
                    | Some true => ([i], Some i)
                    | Some false =>
                        if sizeof_KeySlice <? len then ([i], Some kMaxKeys)
                        else next
                    end
                end
            end
      end
  end.

Definition find_key_traced (p : t) (stable : MasstreePageVersion) (slice : KeySlice)
    (suffix : list Z) (remaining : Z) : list Z * option Z :=
  let key_count := wrap8 (get_key_count stable) in
  find_key_traced_from p slice suffix remaining (Z.to_nat key_count) 0.

(** The empty key and the keys of one and of two zero bytes (slice 0,
    lengths 0, 1 and 2) inserted into a fresh page. *)
Definition page_after_first_short_key : t :=
  the_page (insert_new_record (initialize_volatile_page (reader_version 0))
              99 0 [] 0 4).

Definition page_after_second_short_key : t :=
  the_page (insert_new_record page_after_first_short_key 99 0 [] 1 4).

Definition page_three_short_keys : t :=
  the_page (insert_new_record page_after_second_short_key 99 0 [] 2 4).

(** The keys "abcdefgh" and "abcdefghA" inserted into a fresh page. *)
Definition page_after_8_byte_key : t :=
  the_page (insert_new_record (initialize_volatile_page (reader_version 0))
              99 slice_abcdefgh [] 8 4).

Definition page_8_and_9_byte_keys : t :=
  the_page (insert_new_record page_after_8_byte_key 99 slice_abcdefgh [65] 9 4).

(** The page that keeps slots 2 and 0 of [page_three_short_keys], in this
    order, as a split or a compaction may leave them. *)
Definition page_kept_two_slots : t :=
  mk (volatile_base (reader_version 2)) ([2; 0] ++ replicate 62 0)
    (replicate 64 0) (replicate 64 0) (replicate 64 0) (replicate 64 0)
    (replicate 2752 0).

(** ** The public [get_record] *)

Module MasstreeStorage.

Definition Key : Type := list Z.

Inductive ErrorCode : Type :=
| kErrorCodeOk
| kErrorCodeStrKeyNotFound
| kErrorCodeStrTooSmallPayloadBuffer.

(** A range-lock read-set entry: the two neighbours of a gap, absent at an
    end of the index. *)
Record RangeLock : Type := mkRangeLock {
  gap_low : option Key;
  gap_high : option Key
}.

(** The part of the thread context that [get_record] writes. *)
Record Thread : Type := mkThread {
  range_lock_read_set : list RangeLock
}.

Inductive Located : Type :=
| Found (record : list Z)
| Gap (low high : option Key).

(** Modelled from the spec: the search of the index for a key, which ends on
    the record of the key or on the gap between the neighbouring slots (the
    descent is defined outside these sources).  The index
    is the list of its records in ascending key order; keys compare
    lexicographically, byte by byte. *)
Fixpoint locate (records : list (Key * list Z)) (key : Key) (low : option Key)
    : Located :=
  match records with
  | [] => Gap low None
  | (k, record) :: rest =>
      match trichotomyT lexico key k with
      | inleft (left _) => Gap low (Some k)
      | inleft (right _) => Found record
      | inright _ => locate rest key (Some k)
      end
  end.

Record GetRecordResult : Type := mkGetRecordResult {
  error_code : ErrorCode;
  payload_after : list Z;
  payload_capacity_after : Z;
  context_after : Thread
}.

(** Modelled from the spec: [MasstreeStorage::get_record], of which these
    sources hold the declaration and its comment only.  Section 4.5: "copies
    payload; sets capacity to actual length.  If the buffer is too small,
    returns PayloadBufferTooSmall with required length in capacity.  On miss
    returns KeyNotFound and inserts a range-lock read-set entry covering the
    gap between neighboring slots." *)
Definition get_record (records : list (Key * list Z)) (context : Thread) (key : Key)
    (payload : list Z) (payload_capacity : Z) : GetRecordResult :=
  match locate records key None with
  | Found record =>
      let actual := Z.of_nat (length record) in
      if payload_capacity <? actual
      then mkGetRecordResult kErrorCodeStrTooSmallPayloadBuffer payload actual context
      else mkGetRecordResult kErrorCodeOk
             (record ++ drop (length record) payload) actual context
  | Gap low high =>
      mkGetRecordResult kErrorCodeStrKeyNotFound payload payload_capacity
        (mkThread (mkRangeLock low high :: range_lock_read_set context))
  end.

Definition index_sorted (records : list (Key * list Z)) : Prop :=
  StronglySorted (λ a b, lexico a.1 b.1) records.

Definition below (key : Key) (bound : option Key) : Prop :=
  match bound with Some l => lexico l key | None => True end.

Definition above (key : Key) (bound : option Key) : Prop :=
  match bound with Some h => lexico key h | None => True end.

(** A bound of a gap is a stored key, or absent at an end of the index. *)
Definition is_slot_or_extreme (records : list (Key * list Z)) (bound : option Key)
    : Prop :=
  bound = None ∨ ∃ k record, bound = Some k ∧ (k, record) ∈ records.

End MasstreeStorage.

Definition sample_records : list (MasstreeStorage.Key * list Z) :=
  [([97], [1; 2; 3]); ([97; 98], [4; 5]); ([98], [6])].

(** ** What the searches of a border page find *)

(** Slot [i] holds a key of [slice] whose remaining length is [len]. *)
Definition slot_holds (p : t) (slice : KeySlice) (len : Z) (i : Z) : Prop :=
  at_index (slices_ p) i = Some slice
  ∧ at_index (remaining_key_length_ p) i = Some len.

(** [r] is the first slot of [from_index, to_index) that holds the key, or
    [kMaxKeys] when no slot of the range holds it. *)
Definition first_slot_holding (p : t) (slice : KeySlice) (len : Z)
    (from_index to_index r : Z) : Prop :=
  (r = kMaxKeys ∧ ∀ i, from_index ≤ i < to_index → ¬ slot_holds p slice len i)
  ∨ (from_index ≤ r < to_index ∧ slot_holds p slice len r
     ∧ ∀ i, from_index ≤ i < r → ¬ slot_holds p slice len i).

(** The answer of [find_key_for_reserve] for a key of at most 8 bytes, given
    the index [r] that [find_key] answers. *)
Definition reserve_result_of (r : Z) : FindKeyForReserveResult :=
  mkResult r (if r =? kMaxKeys then kNotFound else kExactMatchLocalRecord).

(** Slot [i] holds [slice] with a remaining length above 8: a key with a
    suffix, or a pointer to the next layer. *)
Definition slot_holds_long (p : t) (slice : KeySlice) (i : Z) : Prop :=
  ∃ len, slot_holds p slice len i ∧ sizeof_KeySlice < len.

(** What an answer [r] of [find_key_for_reserve] means for a key of more than
    8 bytes: nothing found and no slot of the range holds the slice with a
    length above 8, or the first such slot together with its kind. *)
Definition slot_for_long_key (p : t) (slice : KeySlice) (remaining : Z)
    (from_index to_index : Z) (r : FindKeyForReserveResult) : Prop :=
  (r = mkResult kMaxKeys kNotFound
   ∧ ∀ i, from_index ≤ i < to_index → ¬ slot_holds_long p slice i)
  ∨ (from_index ≤ index_ r < to_index
     ∧ slot_holds_long p slice (index_ r)
     ∧ (∀ i, from_index ≤ i < index_ r → ¬ slot_holds_long p slice i)
     ∧ match match_type_ r with
       | kNotFound => False
       | kExactMatchLayerPointer => slot_holds p slice kKeyLengthNextLayer (index_ r)
       | kExactMatchLocalRecord =>
           slot_holds p slice remaining (index_ r)
           ∧ ¬ slot_holds p slice kKeyLengthNextLayer (index_ r)
       | kConflictingLocalRecord =>
           ¬ slot_holds p slice kKeyLengthNextLayer (index_ r)
       end).

(** The index that [find_key] reports for an answer of
    [find_key_for_reserve]: the slot of an exact match or of a layer pointer,
    [kMaxKeys] otherwise. *)
Definition found_index (r : FindKeyForReserveResult) : Z :=
  match match_type_ r with
  | kExactMatchLocalRecord | kExactMatchLayerPointer => index_ r
  | kNotFound | kConflictingLocalRecord => kMaxKeys
  end.

(** The records that a search for the key of [remaining] bytes, more than 8,
    with the slice [slice] compares lie inside [data_]: at every slot below
    [count] with this slice and this key length, the record at
    [get_record(offsets_[i])], the one the searches hand to [memcmp], has the
    [remaining - 8] bytes of a suffix before the end of [data_]. *)
Definition opened_records_inside (p : t) (slice : KeySlice) (remaining count : Z)
    : Prop :=
  ∀ i o record,
    0 ≤ i < count →
    at_index (slices_ p) i = Some slice →
    at_index (remaining_key_length_ p) i = Some remaining →
    at_index (offsets_ p) i = Some o →
    get_record p o = Some record →
    record + (remaining - sizeof_KeySlice) ≤ kDataSize.

(** The record heap grows backwards: among the slots below [count] each
    record starts at or below the start of the record of the slot before. *)
Definition heap_descends (p : t) (count : Z) : Prop :=
  ∀ j o o', 0 < j < count → at_index (offsets_ p) (j - 1) = Some o →
            at_index (offsets_ p) j = Some o' → o' ≤ o.

(** The 8-byte key "abcdefgh" and then the 9-byte key "abcdefghA" reserved
    on a zeroed page. *)
Definition page_8_then_9 : t :=
  the_page
    (reserve_as_writer
       (reserve_as_writer (Some (blank_page (reader_version 0))) 0
          slice_abcdefgh [] 8 4)
       1 slice_abcdefgh [65] 9 4).

(** The same page once slot 1 became a pointer to the next layer. *)
Definition page_with_layer_pointer : t :=
  the_page (set_next_layer page_8_then_9 1 (mkDual 0 4096)).

(** [page_one_record_locked] after the 8-byte key "abcdefgh" was reserved in
    slot 1. *)
Definition page_second_record : t :=
  the_page (reserve_record_space page_one_record_locked 1 77 slice_abcdefgh []
              8 100).

(** ** Separators in order *)

(** The separators in use are in non-decreasing order. *)
Definition separators_sorted (separators : list KeySlice) (separator_count : Z) : Prop :=
  ∀ j k a b, 0 ≤ j → j ≤ k → k < separator_count →
             at_index separators j = Some a → at_index separators k = Some b → a ≤ b.

(** The rule written beside [separators_]: the search is navigated to [i] iff
    [separators_[i-1] <= slice < separators_[i]], the first bound being void
    for [i = 0] and the second for [i = separator_count]. *)
Definition between_separators (separators : list KeySlice) (separator_count : Z)
    (slice : KeySlice) (i : Z) : Prop :=
  (i = 0 ∨ ∃ s, at_index separators (i - 1) = Some s ∧ s ≤ slice)
  ∧ (i = separator_count ∨ ∃ s, at_index separators i = Some s ∧ slice < s).

(** ** Prefetching a border page *)

(** A call [assorted::prefetch_cachelines(address, cacheline_count)], kept as
    the bytes it asks for: [prefetch_address] counts from the start of the
    page.  The function is declared in a header outside these sources; the
    line of 64 bytes is the one of the comment in
    [prefetch_additional_if_needed], "we initially prefetched 64*4 = 256
    bytes". *)
Record PrefetchCall : Type := mkPrefetchCall {
  prefetch_address : Z;
  cacheline_count : Z
}.

Definition kCachelineSize : Z := 64.

Definition prefetched (call : PrefetchCall) (byte : Z) : Prop :=
  prefetch_address call ≤ byte
  < prefetch_address call + kCachelineSize * cacheline_count call.

(** [MasstreeBorderPage::prefetch] *)
Definition border_prefetch : list PrefetchCall := [mkPrefetchCall 0 4].

(** [MasstreeBorderPage::prefetch_additional_if_needed]: the subtraction and
    the shift run on [unsigned], the count is kept as [uint16_t]. *)
Definition prefetch_additional_if_needed (key_count : Z) : list PrefetchCall :=
  if 16 <? key_count then
    let cachelines := wrap16 (Z.shiftr ((key_count - 16) mod 2 ^ 32) 3 + 1) in
    [mkPrefetchCall 256 cachelines]
  else [].

(** Where [slices_] starts in a [MasstreeBorderPage], as the comments beside
    the members count it: 64 bytes of [MasstreePage], 64 bytes of
    [remaining_key_length_], then [slices_]. *)
Definition kSlicesPosition : Z := 128.

(** The bytes of [slices_[index]]. *)
Definition in_slice_of_slot (index byte : Z) : Prop :=
  kSlicesPosition + sizeof_KeySlice * index ≤ byte
  < kSlicesPosition + sizeof_KeySlice * (index + 1).

(** ** [storage::hash::HashRange] (hash_id.hpp) *)

Module HashRange.

Record t : Type := mk {
  begin_ : Z;
  end_ : Z
}.

Definition contains (r : t) (hash : Z) : bool :=
  (begin_ r <=? hash) && (hash <? end_ r).

Definition overlaps (r other : t) : bool :=
  contains r (begin_ other) || contains r (end_ other) || contains other (begin_ r).

(** The two ranges have a hash value in common. *)
Definition share_a_value (r other : t) : Prop :=
  ∃ hash, contains r hash = true ∧ contains other hash = true.

End HashRange.

(** ** The L3-miss experiment (l3miss_multip_experiment.cpp) *)

Module L3MissExperiment.

Definition kMemory : Z := Z.shiftl 12 30.
Definition kRep : Z := Z.shiftl 1 26.

Definition wrap64 (x : Z) : Z := x mod 2 ^ 64.

(** The loop of [run], with [todo] rounds to go.  [UniformRandom] is declared
    outside these sources: the generator is the sequence [rands] of the
    answers of [next_uint32()], [k] of them being used up.  [blocks] is the
    memory from the pointer on, a [char] per entry; a division by zero and a
    read outside [blocks] give no result. *)
Fixpoint run_from (blocks : list Z) (memory_per_core : Z) (rands : nat → Z)
    (todo : nat) (k : nat) (ret : Z) : option Z :=
  match todo with
  | O => Some ret
  | S todo' =>
      let lines := Z.shiftr memory_per_core 6 in
      if lines =? 0 then None
      else
        let block := wrap64 (Z.shiftl (rands k mod lines) 6) in
        let block := block + ret mod Z.shiftl 1 6 in
        c ← at_index blocks block;
        run_from blocks memory_per_core rands todo' (S k) (wrap64 (ret + c))
  end.

(** [run]: [kRep] rounds over the share of one core. *)
Definition run (cores_per_node : Z) (blocks : list Z) (rands : nat → Z) : option Z :=
  if cores_per_node =? 0 then None
  else
    let memory_per_core := kMemory / wrap64 cores_per_node in
    run_from blocks memory_per_core rands (Z.to_nat kRep) 0 0.

(** [main_impl], as far as the memory goes: thread [id] runs on the memory of
    its node from [memory_per_core * id] on. *)
Definition main_impl (cores_per_node : Z) (id : Z) (memory : list Z)
    (rands : nat → Z) : option Z :=
  if cores_per_node =? 0 then None
  else
    let memory_per_core := kMemory / wrap64 cores_per_node in
    run cores_per_node (drop (Z.to_nat (wrap64 (memory_per_core * id))) memory) rands.

End L3MissExperiment.

(** * Lemmas *)

Lemma at_index_Some {A} (a : list A) i :
  0 ≤ i < Z.of_nat (length a) → ∃ x, at_index a i = Some x.
Proof.
  intros [H0 H1]. unfold at_index. rewrite decide_True by done.
  apply lookup_lt_is_Some_2. lia.
Qed.

Lemma at_index_length {A} (a : list A) i x :
  at_index a i = Some x → 0 ≤ i < Z.of_nat (length a).
Proof.
  unfold at_index. case_decide; [|done]. intros H1%lookup_lt_Some. lia.
Qed.

Lemma wrap8_small x : 0 ≤ x < 256 → wrap8 x = x.
Proof. intros. unfold wrap8. by apply Z.mod_small. Qed.

Lemma wrap16_small x : 0 ≤ x < 65536 → wrap16 x = x.
Proof. intros. unfold wrap16. by apply Z.mod_small. Qed.

(** At a slot index [offsets_at] is the entry of [offsets_]. *)
Lemma offsets_at_slot p index :
  index < kMaxKeys → offsets_at p index = at_index (offsets_ p) index.
Proof. intros H. unfold offsets_at. by rewrite (proj2 (Z.ltb_lt _ _) H). Qed.

Lemma get_record_slot p index :
  index < kMaxKeys →
  get_record p index = o ← at_index (offsets_ p) index; Some (Z.shiftl (wrap16 o) 4).
Proof. intros H. unfold get_record. by rewrite offsets_at_slot. Qed.

Lemma get_next_layer_slot p index :
  index < kMaxKeys →
  get_next_layer p index
  = o ← at_index (offsets_ p) index; Some (Z.shiftl (wrap16 o) 4).
Proof. intros H. unfold get_next_layer. by rewrite offsets_at_slot. Qed.

Section separators.
Variable separators : list KeySlice.
Variable separator_count : Z.
Variable slice : KeySlice.
Hypothesis count_fits : separator_count ≤ Z.of_nat (length separators).
Hypothesis count_byte : separator_count < 256.

(** The loop invariant: every separator before [i] is at most the slice. *)
Lemma find_separator_from_spec (todo : nat) (i : Z) :
    0 ≤ i →
    i + Z.of_nat todo = separator_count →
    (∀ j s, 0 ≤ j < i → at_index separators j = Some s → s ≤ slice) →
    ∃ r, find_separator_from separators separator_count slice todo i = Some r
         ∧ first_separator_above separators separator_count slice r.
Proof using count_fits count_byte.
    revert i. induction todo as [|todo IH]; intros i Hi Hsum Hbelow.
    - exists separator_count. split; [done|].
      repeat split; [lia|lia| |lia].
      intros j s Hj. apply Hbelow. lia.
    - cbn [find_separator_from].
      destruct (at_index_Some separators i) as [s Hs]; [lia|].
      rewrite Hs. cbn. destruct (Z.ltb_spec slice s) as [Hlt|Hge].
      + exists i. split; [done|]. repeat split; [lia|lia|done|].
        intros _. by exists s.
      + rewrite wrap8_small by lia. apply IH; [lia|lia|].
        intros j s' Hj Hs'. destruct (decide (j = i)) as [->|Hne].
        * congruence.
        * apply (Hbelow j); [lia|done].
Qed.
End separators.

(** C5: [find_minipage] (at most 9 separators) and [MiniPage::find_pointer]
    (at most 15) return the smallest index whose separator is strictly above
    the slice, and the separator count when no separator is above it; the
    chosen index [r] therefore has [separators_[r-1] <= slice < separators_[r]]
    wherever these separators exist. *)
Theorem find_minipage_find_pointer_first_above
    (p : MasstreeIntermediatePage.t) (m : MiniPage.t) (stable : MasstreePageVersion)
    (slice : KeySlice) :
  MasstreeIntermediatePage.well_formed p →
  MiniPage.well_formed m →
  0 ≤ get_key_count stable →
  (get_key_count stable ≤ kMaxIntermediateSeparators →
   ∃ r, MasstreeIntermediatePage.find_minipage p stable slice = Some r
        ∧ first_separator_above (MasstreeIntermediatePage.separators_ p)
            (get_key_count stable) slice r
        ∧ (0 < r → ∃ s, at_index (MasstreeIntermediatePage.separators_ p) (r - 1) = Some s
                        ∧ s ≤ slice))
  ∧ (get_key_count stable ≤ kMaxIntermediateMiniSeparators →
     ∃ r, MiniPage.find_pointer m stable slice = Some r
          ∧ first_separator_above (MiniPage.separators_ m)
              (get_key_count stable) slice r
          ∧ (0 < r → ∃ s, at_index (MiniPage.separators_ m) (r - 1) = Some s
                          ∧ s ≤ slice)).
Proof.
  intros [Hp _] [Hm _] H0. unfold kMaxIntermediateSeparators,
    kMaxIntermediateMiniSeparators in *.
  split; intros Hc.
  - unfold MasstreeIntermediatePage.find_minipage. rewrite wrap8_small by lia.
    destruct (find_separator_from_spec (MasstreeIntermediatePage.separators_ p)
                (get_key_count stable) slice) with
      (todo := Z.to_nat (get_key_count stable)) (i := 0)
      as (r & Hr & Hfirst); [lia|lia|lia|lia|intros; lia|].
    exists r. split; [done|]. split; [done|].
    intros Hpos. destruct Hfirst as (Hrange & Hbelow & _).
    destruct (at_index_Some (MasstreeIntermediatePage.separators_ p) (r - 1)) as [s Hs]; [lia|].
    exists s. split; [done|]. apply (Hbelow (r - 1)); [lia|done].
  - unfold MiniPage.find_pointer. rewrite wrap8_small by lia.
    destruct (find_separator_from_spec (MiniPage.separators_ m)
                (get_key_count stable) slice) with
      (todo := Z.to_nat (get_key_count stable)) (i := 0)
      as (r & Hr & Hfirst); [lia|lia|lia|lia|intros; lia|].
    exists r. split; [done|]. split; [done|].
    intros Hpos. destruct Hfirst as (Hrange & Hbelow & _).
    destruct (at_index_Some (MiniPage.separators_ m) (r - 1)) as [s Hs]; [lia|].
    exists s. split; [done|]. apply (Hbelow (r - 1)); [lia|done].
Qed.

(** C5 at a page with separators 1000, 2000, 3000 and a mini-page with
    separators 100, 200, both searched for slice 2500 under a count of 3 and
    of 2. *)
Lemma find_minipage_find_pointer_first_above_witness :
  MasstreeIntermediatePage.well_formed sample_intermediate
  ∧ MiniPage.well_formed sample_minipage
  ∧ 0 ≤ get_key_count (reader_version 2)
  ∧ (∃ r, MasstreeIntermediatePage.find_minipage sample_intermediate
            (reader_version 2) 1500 = Some r
          ∧ first_separator_above
              (MasstreeIntermediatePage.separators_ sample_intermediate)
              (get_key_count (reader_version 2)) 1500 r
          ∧ (0 < r → ∃ s, at_index
                (MasstreeIntermediatePage.separators_ sample_intermediate) (r - 1)
                = Some s ∧ s ≤ 1500))
  ∧ (∃ r, MiniPage.find_pointer sample_minipage (reader_version 2) 1500 = Some r
          ∧ first_separator_above (MiniPage.separators_ sample_minipage)
              (get_key_count (reader_version 2)) 1500 r
          ∧ (0 < r → ∃ s, at_index (MiniPage.separators_ sample_minipage) (r - 1)
                          = Some s ∧ s ≤ 1500)).
Proof.
  assert (Hp : MasstreeIntermediatePage.well_formed sample_intermediate)
    by (split; reflexivity).
  assert (Hm : MiniPage.well_formed sample_minipage) by (split; reflexivity).
  assert (H0 : 0 ≤ get_key_count (reader_version 2)) by (simpl; lia).
  split; [exact Hp|]. split; [exact Hm|]. split; [exact H0|].
  destruct (find_minipage_find_pointer_first_above sample_intermediate
              sample_minipage (reader_version 2) 1500 Hp Hm H0) as [Hfirst Hsecond].
  split.
  - apply Hfirst. vm_compute. discriminate.
  - apply Hsecond. vm_compute. discriminate.
Defined.

(** ** [lock] and [unlock] *)

(** C10: on a snapshot page [lock] and [unlock] return the page as it is,
    version word included; on a volatile page they are exactly the lock and
    unlock of the version word, every other field being kept. *)
Theorem lock_unlock_snapshot_noop (p q : MasstreePage) :
  snapshot_ (header_ p) = true →
  snapshot_ (header_ q) = false →
  lock p = Some p
  ∧ unlock p = Some p
  ∧ lock q = set_page_version q <$> lock_version (page_version_ q)
  ∧ unlock q = set_page_version q <$> unlock_version (page_version_ q).
Proof.
  intros Hp Hq. unfold lock, unlock. rewrite Hp, Hq. cbn.
  repeat split; by destruct (lock_version (page_version_ q)).
Qed.

Lemma lock_unlock_snapshot_noop_witness :
  snapshot_ (header_ (snapshot_base (writer_version 3))) = true
  ∧ snapshot_ (header_ (volatile_base (reader_version 3))) = false
  ∧ lock (snapshot_base (writer_version 3)) = Some (snapshot_base (writer_version 3))
  ∧ unlock (snapshot_base (writer_version 3)) = Some (snapshot_base (writer_version 3))
  ∧ lock (volatile_base (reader_version 3))
    = set_page_version (volatile_base (reader_version 3))
      <$> lock_version (page_version_ (volatile_base (reader_version 3)))
  ∧ unlock (volatile_base (reader_version 3))
    = set_page_version (volatile_base (reader_version 3))
      <$> unlock_version (page_version_ (volatile_base (reader_version 3))).
Proof.
  split; [reflexivity|]. split; [reflexivity|].
  apply (lock_unlock_snapshot_noop (snapshot_base (writer_version 3))
           (volatile_base (reader_version 3))); reflexivity.
Defined.

(** ** Searching a border page *)

(** Case analysis on the binds and tests of a loop body found in a
    hypothesis. *)
Ltac loop_cases :=
  repeat match goal with
  | H : context [mbind _ ?m] |- _ =>
      let E := fresh "E" in
      destruct m eqn:E; cbn [mbind option_bind] in H; [|discriminate]
  | H : context [if ?b then _ else _] |- _ =>
      let E := fresh "E" in destruct b eqn:E
  | H : Some _ = Some _ |- _ => injection H as H
  end.






Lemma find_key_for_reserve_from_short_total p slice suffix remaining todo i :
  well_formed p → remaining ≤ sizeof_KeySlice →
  0 ≤ i → i + Z.of_nat todo ≤ kMaxKeys →
  is_Some (find_key_for_reserve_from p slice suffix remaining todo i).
Proof.
  intros [(Hlen & Hsl & _) _] Hshort. revert i.
  induction todo as [|todo IH]; intros i Hi Hsum; [by eexists|].
  unfold kMaxKeys in *. cbn [find_key_for_reserve_from]. cbv zeta.
  destruct (at_index_Some (slices_ p) i) as [s ->]; [lia|].
  destruct (at_index_Some (remaining_key_length_ p) i) as [len Hl]; [lia|].
  rewrite wrap8_small by lia. cbn.
  specialize (IH (i + 1) ltac:(lia) ltac:(lia)).
  destruct (negb (slice =? s)); [done|].
  rewrite (proj2 (Z.leb_le _ _) Hshort), Hl. cbn.
  by destruct (len =? remaining).
Qed.

Lemma well_formed_offset p j o :
  well_formed p → at_index (offsets_ p) j = Some o → 0 ≤ o < 256.
Proof.
  intros [_ (_ & _ & Hall & _)] Hj.
  unfold at_index in Hj. case_decide; [|done].
  by apply (Forall_lookup_1 _ _ _ _ Hall) in Hj.
Qed.

(** [get_record] answers for every [uint8_t] index: the read of
    [offsets_[index]] stays inside the page. *)
Lemma get_record_total p o :
  well_formed p → 0 ≤ o < 256 →
  ∃ record, get_record p o = Some record ∧ 0 ≤ record.
Proof.
  intros Hwf Ho. pose proof Hwf as [(_ & _ & Hl3 & Hl4 & Hl5 & _) _].
  unfold kMaxKeys in *.
  assert (Hshift : ∀ v, 0 ≤ v → 0 ≤ Z.shiftl (wrap16 v) 4).
  { intros v Hv. apply Z.shiftl_nonneg. unfold wrap16.
    apply Z.mod_pos_bound. lia. }
  unfold get_record, offsets_at, kMaxKeys.
  destruct (Z.ltb_spec o 64) as [Hslot|Hpast].
  - destruct (at_index_Some (offsets_ p) o) as [v Hv]; [lia|].
    pose proof (well_formed_offset p o v Hwf Hv). rewrite Hv. cbn.
    eexists. split; [done|]. apply Hshift. lia.
  - destruct (Z.ltb_spec o (3 * 64)) as [Hpayload|Howner].
    + destruct (at_index_Some (payload_length_ p) ((o - 64) / 2)) as [v Hv].
      { split; [apply Z.div_pos; lia|]. rewrite Hl4.
        assert ((o - 64) / 2 < 64) by (apply Z.div_lt_upper_bound; lia). lia. }
      rewrite Hv. cbn. eexists. split; [done|]. apply Hshift.
      apply Z.mod_pos_bound. lia.
    + destruct (at_index_Some (owner_ids_ p) ((o - 3 * 64) / 8)) as [v Hv].
      { split; [apply Z.div_pos; lia|]. rewrite Hl5.
        assert ((o - 3 * 64) / 8 < 64) by (apply Z.div_lt_upper_bound; lia). lia. }
      rewrite Hv. cbn. eexists. split; [done|]. apply Hshift.
      apply Z.mod_pos_bound. lia.
Qed.

(** The comparison of a record inside [data_] with a suffix buffer that is
    long enough has a result. *)
Lemma memcmp_eq_total p record suffix n :
  well_formed p → 0 ≤ record → 0 ≤ n → record + n ≤ kDataSize →
  n ≤ Z.of_nat (length suffix) →
  is_Some (memcmp_eq (data_ p) record suffix n).
Proof.
  intros [(_ & _ & _ & _ & _ & Hl6) _] Hrecord Hn Hinside Hsuffix.
  change kDataSize with 2752 in *.
  unfold memcmp_eq, read_bytes. rewrite !decide_True by lia. by eexists.
Qed.



Lemma find_key_for_reserve_from_long_total p slice suffix remaining todo i :
  well_formed p → sizeof_KeySlice < remaining →
  remaining - sizeof_KeySlice ≤ Z.of_nat (length suffix) →
  0 ≤ i → i + Z.of_nat todo ≤ kMaxKeys →
  opened_records_inside p slice remaining (i + Z.of_nat todo) →
  is_Some (find_key_for_reserve_from p slice suffix remaining todo i).
Proof.
  intros Hwf Hlong Hsuffix. pose proof Hwf as [(Hlen & Hsl & Hoff & _) _].
  revert i. induction todo as [|todo IH]; intros i Hi Hsum Hopened; [by eexists|].
  unfold kMaxKeys in *. cbn [find_key_for_reserve_from]. cbv zeta.
  destruct (at_index_Some (slices_ p) i) as [s Hs]; [lia|].
  destruct (at_index_Some (remaining_key_length_ p) i) as [len Hl]; [lia|].
  destruct (at_index_Some (offsets_ p) i) as [o Ho]; [lia|].
  pose proof (well_formed_offset p i o Hwf Ho) as Hbyte.
  destruct (get_record_total p o Hwf Hbyte) as (record & Hrecord & Hpos).
  rewrite Hs, wrap8_small by lia. cbn [mbind option_bind].
  assert (Hnext :
    is_Some (find_key_for_reserve_from p slice suffix remaining todo (i + 1))).
  { apply IH; [lia|unfold kMaxKeys; lia|].
    by replace (i + 1 + Z.of_nat todo) with (i + Z.of_nat (S todo)) by lia. }
  destruct (Z.eqb_spec slice s) as [<-|Hother]; cbn [negb]; [|done].
  rewrite (proj2 (Z.leb_gt _ _) Hlong). unfold does_point_to_layer.
  rewrite Hl. cbn [mbind option_bind].
  destruct (len =? kKeyLengthNextLayer); [by eexists|].
  destruct (len <=? sizeof_KeySlice); [done|].
  rewrite Ho. cbn [mbind option_bind]. rewrite Hrecord. cbn [mbind option_bind].
  destruct (Z.eqb_spec len remaining) as [->|Hdiffer]; [|by eexists].
  pose proof (Hopened i o record ltac:(lia) Hs Hl Ho Hrecord) as Hinside.
  destruct (memcmp_eq_total p record suffix (remaining - sizeof_KeySlice) Hwf Hpos
              ltac:(lia) Hinside Hsuffix) as [same ->].
  cbn [mbind option_bind]. destruct same; by eexists.
Qed.

Lemma opened_records_inside_fewer p slice remaining count count' :
  count' ≤ count → opened_records_inside p slice remaining count →
  opened_records_inside p slice remaining count'.
Proof. intros Hle Hopened i o record Hi. apply Hopened. lia. Qed.


Lemma well_formed_concrete (p : t) :
  bool_decide (well_formed p) = true → well_formed p.
Proof. apply bool_decide_eq_true_1. Qed.


Lemma opened_records_inside_by_slots p slice remaining count :
  Forall (λ i, at_index (remaining_key_length_ p) i = Some remaining →
               ∀ o record, at_index (offsets_ p) i = Some o →
                           get_record p o = Some record →
                           record + (remaining - sizeof_KeySlice) ≤ kDataSize)
    (seqZ 0 count) →
  opened_records_inside p slice remaining count.
Proof.
  intros Hall i o record Hi _ Hl Ho Hrecord.
  assert (Hin : i ∈ seqZ 0 count) by (apply elem_of_seqZ; lia).
  exact (proj1 (Forall_forall _ _) Hall i Hin Hl o record Ho Hrecord).
Qed.

Ltac slot_by_slot :=
  apply opened_records_inside_by_slots;
  let slots := eval vm_compute in (seqZ 0 kMaxKeys) in
  change (seqZ 0 kMaxKeys) with slots;
  repeat (apply Forall_cons; split;
          [let Hl := fresh in
           intros Hl; vm_compute in Hl; try discriminate Hl;
           let o := fresh in let record := fresh in
           let Ho := fresh in let Hrecord := fresh in
           intros o record Ho Hrecord;
           vm_compute in Ho; injection Ho as <-;
           vm_compute in Hrecord; injection Hrecord as <-;
           vm_compute; discriminate|]);
  apply Forall_nil_2.

(** The page with the one key "abcdefghA", searched for that key: slot 0 has
    the slice and the length of the key, and [offsets_[0]] is 171.  The
    searches compare the record at [get_record(171)]; [offsets_[171]] is the
    low byte of [payload_length_[53]], which is 0, so the byte compared is
    the first of [data_], and the suffix "A" at [16 * 171] is not read.
    [find_key] answers [kMaxKeys] and [find_key_for_reserve] a conflict in
    slot 0. *)
Lemma searches_answer_on_page_one_record :
  at_index (offsets_ (the_page page_one_record)) 0 = Some 171
  ∧ offsets_at (the_page page_one_record) 171 = Some 0
  ∧ get_record (the_page page_one_record) 171 = Some 0
  ∧ opened_records_inside (the_page page_one_record) slice_abcdefgh 9 kMaxKeys
  ∧ find_key (the_page page_one_record) (reader_version 1) slice_abcdefgh [65] 9
    = Some kMaxKeys
  ∧ find_key_for_reserve (the_page page_one_record) 0 1 slice_abcdefgh [65] 9
    = Some (mkResult 0 kConflictingLocalRecord).
Proof.
  split; [vm_compute; reflexivity|]. split; [vm_compute; reflexivity|].
  split; [vm_compute; reflexivity|]. split; [slot_by_slot|].
  split; vm_compute; reflexivity.
Qed.

(** On [page_8_then_9], searched for its second key "abcdefghA", the 8-byte
    key in slot 0 is passed over and slot 1 is compared through
    [get_record(offsets_[1])], again the first byte of [data_]. *)
Lemma page_8_then_9_records_inside :
  opened_records_inside page_8_then_9 slice_abcdefgh 9 kMaxKeys.
Proof. slot_by_slot. Qed.

Lemma searches_answer_on_page_8_then_9 :
  find_key page_8_then_9 (reader_version 2) slice_abcdefgh [65] 9 = Some kMaxKeys
  ∧ find_key_for_reserve page_8_then_9 0 2 slice_abcdefgh [65] 9
    = Some (mkResult 1 kConflictingLocalRecord).
Proof. split; vm_compute; reflexivity. Qed.

(** ** The suffix comparison of [find_key] *)

(** What one round of [find_key] does at a slot with the searched slice and
    the searched length, for a key longer than 8 bytes: it compares the search
    suffix with the bytes at [get_record(offsets_[i])], that is with the
    record of slot number [offsets_[i]], and answers [i] when they agree and
    [kMaxKeys] when they differ. *)
Lemma find_key_from_compares_record_of_offset p slice suffix remaining todo i o
    record (same : bool) :
  at_index (slices_ p) i = Some slice →
  sizeof_KeySlice < remaining →
  remaining ≠ kKeyLengthNextLayer →
  at_index (remaining_key_length_ p) i = Some remaining →
  at_index (offsets_ p) i = Some o →
  get_record p o = Some record →
  memcmp_eq (data_ p) record suffix (remaining - sizeof_KeySlice) = Some same →
  find_key_from p slice suffix remaining (S todo) i
  = Some (if same then i else kMaxKeys).
Proof.
  intros Hs Hlong Hnot Hlen Ho Hrec Hcmp.
  cbn [find_key_from]. cbv zeta. rewrite Hs. cbn.
  rewrite Z.eqb_refl. cbn.
  rewrite (proj2 (Z.leb_gt _ _) Hlong).
  unfold does_point_to_layer. rewrite Hlen. cbn.
  rewrite (proj2 (Z.eqb_neq _ _) Hnot), Z.eqb_refl, Ho. cbn.
  rewrite Hrec. cbn. rewrite Hcmp. cbn.
  destruct same; [done|]. by rewrite (proj2 (Z.ltb_lt _ _) Hlong).
Qed.

(** C1, on the page [page_two_records]: slot 0 has the searched slice, the
    searched length 9 and is no next-layer pointer, and the suffix stored in
    its record is the searched byte 65, yet [find_key] answers [kMaxKeys];
    searched with the byte 0, which slot 0 does not store, it answers 0.  The
    bytes it compared are those of the record of slot [offsets_[0] = 1].
    [find_key_for_reserve] reads the same bytes and takes the stored key for
    a conflicting one. *)
Theorem find_key_compares_record_of_other_slot :
  is_Some page_two_records
  ∧ well_formed (the_page page_two_records)
  ∧ at_index (slices_ (the_page page_two_records)) 0 = Some slice_abcdefgh
  ∧ at_index (remaining_key_length_ (the_page page_two_records)) 0 = Some 9
  ∧ does_point_to_layer (the_page page_two_records) 0 = Some false
  ∧ at_index (offsets_ (the_page page_two_records)) 0 = Some 1
  ∧ stored_suffix (the_page page_two_records) 0 1 = Some [65]
  ∧ stored_suffix (the_page page_two_records) 1 1 = Some [0]
  ∧ find_key (the_page page_two_records) (reader_version 2) slice_abcdefgh [65] 9
    = Some kMaxKeys
  ∧ find_key (the_page page_two_records) (reader_version 2) slice_abcdefgh [0] 9
    = Some 0
  ∧ find_key_for_reserve (the_page page_two_records) 0 2 slice_abcdefgh [65] 9
    = Some (mkResult 0 kConflictingLocalRecord).
Proof.
  split; [by eexists|].
  split; [apply well_formed_concrete; vm_compute; reflexivity|].
  repeat split; vm_compute; reflexivity.
Qed.

(** ** Record sizes *)

Lemma align16_bounds x : x ≤ align16 x < x + 16.
Proof.
  unfold align16.
  pose proof (Z.div_mod (x + 15) 16 ltac:(lia)).
  pose proof (Z.mod_pos_bound (x + 15) 16 ltac:(lia)). lia.
Qed.

Lemma align16_multiple x : align16 x = 16 * (align16 x / 16).
Proof. unfold align16. rewrite Z.div_mul by lia. lia. Qed.

Lemma align16_le x y : x ≤ 16 * y → align16 x ≤ 16 * y.
Proof.
  intros H. unfold align16.
  assert ((x + 15) / 16 < y + 1); [|lia].
  apply Z.div_lt_upper_bound; lia.
Qed.

Lemma calculate_suffix_length_eq remaining_length :
  0 ≤ remaining_length < 256 →
  calculate_suffix_length remaining_length
  = if sizeof_KeySlice <=? remaining_length
    then remaining_length - sizeof_KeySlice else 0.
Proof.
  intros H. unfold calculate_suffix_length, sizeof_KeySlice.
  destruct (Z.leb_spec 8 remaining_length); [|done]. apply wrap8_small. lia.
Qed.

Lemma calculate_suffix_length_bounds remaining_length :
  0 ≤ remaining_length < 256 →
  0 ≤ calculate_suffix_length remaining_length < 248
  ∧ calculate_suffix_length remaining_length ≤ remaining_length.
Proof.
  intros H. rewrite calculate_suffix_length_eq by done. unfold sizeof_KeySlice.
  destruct (Z.leb_spec 8 remaining_length); lia.
Qed.

(** Below 65521 bytes the 16-bit result is the aligned size itself. *)
Lemma calculate_record_size_exact remaining_length payload_count :
  0 ≤ remaining_length < 256 → 0 ≤ payload_count →
  calculate_suffix_length remaining_length + payload_count ≤ 65520 →
  calculate_record_size remaining_length payload_count
  = align16 (calculate_suffix_length remaining_length + payload_count).
Proof.
  intros Hr Hp Hsum. unfold calculate_record_size.
  pose proof (calculate_suffix_length_bounds remaining_length Hr) as [Hs _].
  rewrite (wrap16_small (calculate_suffix_length _)) by lia.
  apply wrap16_small.
  pose proof (align16_bounds (calculate_suffix_length remaining_length + payload_count)).
  pose proof (align16_le (calculate_suffix_length remaining_length + payload_count)
                4095 ltac:(lia)).
  lia.
Qed.

Lemma shift_offset o : 0 ≤ o < 256 → wrap16 (Z.shiftl (wrap16 o) 4) = 16 * o.
Proof.
  intros H. rewrite (wrap16_small o) by lia.
  rewrite Z.shiftl_mul_pow2 by lia. change (2 ^ 4) with 16.
  rewrite wrap16_small; lia.
Qed.

(** What [can_accomodate] decides where the record size does not wrap: for
    [new_index] from 1 to 64, a key of at most 254 bytes and a suffix and
    payload of at most 65520 bytes together, it is true exactly when the
    record, aligned to 16 bytes, fits below the previous record, i.e. when
    its size is at most [16 * offsets_[new_index - 1]], and then the new
    record starts at or after the start of [data_].  For slot 0 it is true
    whatever the payload count; when the sizes obey its assertion
    [remaining_length + payload_count <= kDataSize] the record fits the data
    region. *)
Theorem can_accomodate_iff_record_fits (p : t)
    (new_index remaining_length payload_count : Z) :
  well_formed p →
  0 ≤ remaining_length ≤ kKeyLengthMax →
  0 ≤ payload_count →
  0 < new_index ≤ kMaxKeys →
  calculate_suffix_length remaining_length + payload_count ≤ 65520 →
  (∀ any_count, can_accomodate p 0 remaining_length any_count = Some true)
  ∧ (remaining_length + payload_count ≤ kDataSize →
     record_fits p 0 remaining_length payload_count = Some true)
  ∧ ∃ o, at_index (offsets_ p) (new_index - 1) = Some o
         ∧ can_accomodate p new_index remaining_length payload_count
           = Some (align16 (calculate_suffix_length remaining_length + payload_count)
                   <=? 16 * o)
         ∧ record_fits p new_index remaining_length payload_count
           = can_accomodate p new_index remaining_length payload_count
         ∧ (can_accomodate p new_index remaining_length payload_count = Some true →
            0 ≤ 16 * o
                - align16 (calculate_suffix_length remaining_length + payload_count)).
Proof.
  intros Hwf Hrem Hpay Hindex Hsum. unfold kKeyLengthMax, kMaxKeys in *.
  pose proof (calculate_suffix_length_bounds remaining_length ltac:(lia)) as [Hs Hsr].
  split; [done|]. split.
  - intros Hfits.
    unfold record_fits, previous_record_start. cbn. f_equal.
    apply Z.leb_le. change kDataSize with (16 * 172) in *.
    apply align16_le. lia.
  - destruct (at_index_Some (offsets_ p) (new_index - 1)) as [o Ho].
    { destruct Hwf as [(_ & _ & -> & _) _]. unfold kMaxKeys. lia. }
    pose proof (well_formed_offset p _ o Hwf Ho) as Hrange.
    exists o. split; [done|].
    assert (Hcan : can_accomodate p new_index remaining_length payload_count
              = Some (align16 (calculate_suffix_length remaining_length + payload_count)
                      <=? 16 * o)).
    { unfold can_accomodate. rewrite (proj2 (Z.eqb_neq new_index 0)) by lia.
      rewrite Ho. cbn. rewrite shift_offset by lia.
      by rewrite calculate_record_size_exact by lia. }
    split; [done|]. split.
    + rewrite Hcan. unfold record_fits, previous_record_start.
      rewrite (proj2 (Z.eqb_neq new_index 0)) by lia. by rewrite Ho.
    + rewrite Hcan. intros [= Hle%Z.leb_le]. lia.
Qed.

(** On [page_one_record], whose record starts at [16 * 171]: a 9-byte key
    with 100 bytes of payload, a record of 112 bytes, can be accommodated in
    slot 1. *)
Lemma can_accomodate_iff_record_fits_witness :
  well_formed (the_page page_one_record)
  ∧ 0 ≤ 9 ≤ kKeyLengthMax
  ∧ 0 ≤ 100
  ∧ 0 < 1 ≤ kMaxKeys
  ∧ calculate_suffix_length 9 + 100 ≤ 65520
  ∧ (∀ any_count, can_accomodate (the_page page_one_record) 0 9 any_count = Some true)
  ∧ record_fits (the_page page_one_record) 0 9 100 = Some true
  ∧ ∃ o, at_index (offsets_ (the_page page_one_record)) (1 - 1) = Some o
         ∧ can_accomodate (the_page page_one_record) 1 9 100
           = Some (align16 (calculate_suffix_length 9 + 100) <=? 16 * o)
         ∧ record_fits (the_page page_one_record) 1 9 100
           = can_accomodate (the_page page_one_record) 1 9 100
         ∧ (can_accomodate (the_page page_one_record) 1 9 100 = Some true →
            0 ≤ 16 * o - align16 (calculate_suffix_length 9 + 100)).
Proof.
  assert (Hwf : well_formed (the_page page_one_record))
    by (apply well_formed_concrete; vm_compute; reflexivity).
  assert (Hrem : 0 ≤ 9 ≤ kKeyLengthMax) by (vm_compute; split; discriminate).
  assert (Hpay : 0 ≤ 100) by lia.
  assert (Hindex : 0 < 1 ≤ kMaxKeys) by (vm_compute; split; [reflexivity|discriminate]).
  assert (Hsum : calculate_suffix_length 9 + 100 ≤ 65520) by (vm_compute; discriminate).
  split; [exact Hwf|]. split; [exact Hrem|]. split; [exact Hpay|].
  split; [exact Hindex|]. split; [exact Hsum|].
  destruct (can_accomodate_iff_record_fits (the_page page_one_record) 1 9 100
              Hwf Hrem Hpay Hindex Hsum) as (Hfirst & Hfits & Hlater).
  split; [exact Hfirst|]. split; [|exact Hlater].
  apply Hfits. vm_compute. discriminate.
Defined.

(** C3, on [page_one_record], whose one record starts at [16 * 171 = 2736].
    A 9-byte key with a payload of 65535 bytes for slot 1 meets what the
    code asserts on the way (a key of at most 254 bytes; the payload count
    is a [uint16_t]; the size assertion of [can_accomodate] is made for slot
    0 only).  Its record of [align16 (1 + 65535) = 65536] bytes does not fit
    below 2736, yet [can_accomodate] is true: [calculate_record_size]
    returns the aligned size as [uint16_t], that is 0. *)
Theorem can_accomodate_record_size_wraps :
  well_formed (the_page page_one_record)
  ∧ at_index (offsets_ (the_page page_one_record)) 0 = Some 171
  ∧ 9 ≤ kKeyLengthMax
  ∧ is_uint16 65535
  ∧ align16 (calculate_suffix_length 9 + 65535) = 65536
  ∧ calculate_record_size 9 65535 = 0
  ∧ can_accomodate (the_page page_one_record) 1 9 65535 = Some true
  ∧ record_fits (the_page page_one_record) 1 9 65535 = Some false.
Proof.
  split; [apply well_formed_concrete; vm_compute; reflexivity|].
  split; [vm_compute; reflexivity|]. split; [vm_compute; discriminate|].
  split; [split; [vm_compute; discriminate|reflexivity]|].
  repeat split; vm_compute; reflexivity.
Qed.

(** ** Reserving a slot *)

Lemma write_index_Some {A} (a : list A) i x :
  0 ≤ i < Z.of_nat (length a) → write_index a i x = Some (<[Z.to_nat i := x]> a).
Proof. intros H. unfold write_index. by rewrite decide_True. Qed.

Lemma at_index_insert_eq {A} (a : list A) i x :
  0 ≤ i < Z.of_nat (length a) → at_index (<[Z.to_nat i := x]> a) i = Some x.
Proof.
  intros H. unfold at_index. rewrite decide_True by lia.
  apply list_lookup_insert_eq. lia.
Qed.

Lemma at_index_insert_ne {A} (a : list A) i j x :
  0 ≤ i → i ≠ j → at_index (<[Z.to_nat i := x]> a) j = at_index a j.
Proof.
  intros Hi Hne. unfold at_index. case_decide; [|done].
  apply list_lookup_insert_ne. lia.
Qed.

Lemma read_bytes_prefix (l : list Z) n :
  0 ≤ n ≤ Z.of_nat (length l) → read_bytes l 0 n = Some (take (Z.to_nat n) l).
Proof. intros H. unfold read_bytes. rewrite decide_True by lia. done. Qed.

Lemma read_bytes_inserts (mem bytes : list Z) start :
  0 ≤ start → start + Z.of_nat (length bytes) ≤ Z.of_nat (length mem) →
  read_bytes (list_inserts (Z.to_nat start) bytes mem) start (Z.of_nat (length bytes))
  = Some bytes.
Proof.
  intros H0 Hfit. unfold read_bytes. rewrite length_inserts.
  rewrite decide_True by lia. f_equal. rewrite Nat2Z.id.
  apply list_eq. intros k. destruct (decide (k < length bytes)%nat) as [Hk|Hk].
  - rewrite lookup_take_lt by done. rewrite lookup_drop.
    rewrite list_lookup_inserts by lia. f_equal. lia.
  - rewrite lookup_take_ge by lia. symmetry. apply lookup_ge_None. lia.
Qed.

Section reserve.
Variable p : t.
Variables index remaining_length payload_count : Z.
Variable initial_owner_id : XctId.
Variable slice : KeySlice.
Variable suffix : list Z.
Hypothesis page_ok : well_formed p.
Hypothesis older_records_ok : records_inside_data p index.
Hypothesis index_ok : 0 ≤ index < kMaxKeys.
Hypothesis length_ok : 0 ≤ remaining_length ≤ kKeyLengthMax.
Hypothesis payload_ok : 0 ≤ payload_count.
Hypothesis room : can_accomodate p index remaining_length payload_count = Some true.
Hypothesis record_small :
  calculate_suffix_length remaining_length + payload_count ≤ kDataSize.
Hypothesis suffix_given :
  calculate_suffix_length remaining_length ≤ Z.of_nat (length suffix).

(** The whole effect of [reserve_record_space] on a call that keeps inside
    the page: one entry of each slot array is assigned, and the suffix is
    stored at the new record, which ends where the previous record starts. *)
Lemma reserve_record_space_effect :
  ∃ p' start o',
    reserve_record_space p index initial_owner_id slice suffix remaining_length
      payload_count = Some p'
    ∧ previous_record_start p index = Some start
    ∧ 16 * o' = start - calculate_record_size remaining_length payload_count
    ∧ 0 ≤ o' ≤ 172
    ∧ 16 * o' + calculate_suffix_length remaining_length ≤ start ≤ kDataSize
    ∧ base p' = base p
    ∧ slices_ p' = <[Z.to_nat index := slice]> (slices_ p)
    ∧ remaining_key_length_ p'
      = <[Z.to_nat index := remaining_length]> (remaining_key_length_ p)
    ∧ payload_length_ p' = <[Z.to_nat index := payload_count]> (payload_length_ p)
    ∧ owner_ids_ p' = <[Z.to_nat index := initial_owner_id]> (owner_ids_ p)
    ∧ offsets_ p' = <[Z.to_nat index := o']> (offsets_ p)
    ∧ data_ p'
      = list_inserts (Z.to_nat (16 * o'))
          (take (Z.to_nat (calculate_suffix_length remaining_length)) suffix)
          (data_ p).
Proof using All.
  unfold kMaxKeys, kKeyLengthMax in *. change kDataSize with 2752 in *.
  pose proof (calculate_suffix_length_bounds remaining_length ltac:(lia)) as [Hs Hsr].
  set (sl := calculate_suffix_length remaining_length) in *.
  assert (Hrs : calculate_record_size remaining_length payload_count
                = align16 (sl + payload_count))
    by (apply calculate_record_size_exact; lia).
  pose proof (align16_bounds (sl + payload_count)) as Hal.
  pose proof (align16_le (sl + payload_count) 172 ltac:(lia)) as Hal2.
  pose proof (align16_multiple (sl + payload_count)) as Hmul.
  set (rs := align16 (sl + payload_count)) in *.
  destruct page_ok as [(Hl1 & Hl2 & Hl3 & Hl4 & Hl5 & Hl6) _].
  unfold kMaxKeys in *. change kDataSize with 2752 in *.
  (* the previous offset *)
  assert (Hprev : ∃ prev,
    (if index =? 0 then Some (wrap8 (Z.shiftr 2752 4))
     else at_index (offsets_ p) (index - 1)) = Some prev
    ∧ previous_record_start p index = Some (16 * prev)
    ∧ 0 ≤ prev ≤ 172 ∧ rs ≤ 16 * prev).
  { unfold previous_record_start. destruct (Z.eqb_spec index 0) as [->|Hne].
    - exists 172. repeat split; try done; lia.
    - destruct (at_index_Some (offsets_ p) (index - 1)) as [o Ho]; [lia|].
      pose proof (well_formed_offset p _ o page_ok Ho).
      pose proof (older_records_ok (index - 1) o ltac:(lia) Ho) as Hinside.
      change (Z.shiftr kDataSize 4) with 172 in Hinside.
      exists o. rewrite Ho. repeat split; try done; try lia.
      unfold can_accomodate in room.
      rewrite (proj2 (Z.eqb_neq index 0)) in room by done.
      rewrite Ho in room. cbn in room. rewrite shift_offset in room by lia.
      rewrite Hrs in room. injection room as Hle%Z.leb_le. done. }
  destruct Hprev as (prev & Hprev & Hstart & Hprange & Hfit).
  exists
    (mk (base p)
       (<[Z.to_nat index := remaining_length]> (remaining_key_length_ p))
       (<[Z.to_nat index := slice]> (slices_ p))
       (<[Z.to_nat index := prev - rs / 16]> (offsets_ p))
       (<[Z.to_nat index := payload_count]> (payload_length_ p))
       (<[Z.to_nat index := initial_owner_id]> (owner_ids_ p))
       (list_inserts (Z.to_nat (16 * (prev - rs / 16)))
          (take (Z.to_nat sl) suffix) (data_ p))),
    (16 * prev), (prev - rs / 16).
  split; [|repeat split; cbn; try done; lia].
  unfold reserve_record_space. change kDataSize with 2752. rewrite Hprev. cbn.
  rewrite !write_index_Some by lia. cbn.
  fold sl. rewrite Hrs. fold rs.
  rewrite Z.shiftr_div_pow2 by lia. change (2 ^ 4) with 16.
  rewrite (wrap8_small (rs / 16)) by lia.
  rewrite (wrap8_small (prev - rs / 16)) by lia.
  rewrite (wrap16_small sl) by lia.
  destruct (Z.ltb_spec 0 sl) as [Hpos|Hzero].
  - rewrite get_record_slot by (unfold kMaxKeys; lia).
    cbn. rewrite at_index_insert_eq by lia. cbn.
    rewrite wrap16_small by lia.
    rewrite Z.shiftl_mul_pow2 by lia. change (2 ^ 4) with 16.
    rewrite read_bytes_prefix by lia. cbn.
    unfold write_bytes. rewrite length_take. rewrite decide_True by lia.
    cbn. do 3 f_equal. lia.
  - assert (sl = 0) as -> by lia. done.
Qed.
End reserve.

Lemma at_index_inserts_outside (mem bytes : list Z) start a :
  0 ≤ start →
  ¬ (start ≤ a < start + Z.of_nat (length bytes)) →
  at_index (list_inserts (Z.to_nat start) bytes mem) a = at_index mem a.
Proof.
  intros H0 Hout. unfold at_index. case_decide; [|done].
  destruct (decide (a < start)).
  - apply list_lookup_inserts_lt. lia.
  - apply list_lookup_inserts_ge. lia.
Qed.

(** What [reserve_record_space] does where the record size does not wrap:
    on a page whose older records start inside the data region, for a call
    that meets the assertions of [reserve_record_space] (key of at most 254
    bytes, page locked, inserting bit set, key count [index + 1],
    [can_accomodate] true) and whose suffix and payload together are no
    larger than the data region,
    the slot at [index] afterwards stores the given slice, remaining key
    length, payload length and owner id; its record starts where the previous
    record starts (the end of the data region for slot 0) minus the aligned
    record size; when the key is longer than 8 bytes the record begins with
    the bytes of the suffix; and no other byte of [data_] is written, the
    payload bytes included. *)
Theorem reserve_record_space_stores_slot (p : t) (index : Z)
    (initial_owner_id : XctId) (slice : KeySlice) (suffix : list Z)
    (remaining_length payload_count : Z) :
  well_formed p →
  records_inside_data p index →
  0 ≤ index →
  get_key_count (version p) ≤ kMaxKeys →
  reserve_record_space_asserts p index remaining_length →
  0 ≤ remaining_length →
  0 ≤ payload_count →
  can_accomodate p index remaining_length payload_count = Some true →
  calculate_suffix_length remaining_length + payload_count ≤ kDataSize →
  calculate_suffix_length remaining_length ≤ Z.of_nat (length suffix) →
  ∃ p' start,
    reserve_record_space p index initial_owner_id slice suffix remaining_length
      payload_count = Some p'
    ∧ previous_record_start p index = Some start
    ∧ at_index (slices_ p') index = Some slice
    ∧ at_index (remaining_key_length_ p') index = Some remaining_length
    ∧ at_index (payload_length_ p') index = Some payload_count
    ∧ at_index (owner_ids_ p') index = Some initial_owner_id
    ∧ get_record p' index
      = Some (start - calculate_record_size remaining_length payload_count)
    ∧ (sizeof_KeySlice < remaining_length →
       stored_suffix p' index (remaining_length - sizeof_KeySlice)
       = Some (take (Z.to_nat (remaining_length - sizeof_KeySlice)) suffix))
    ∧ (∀ a, ¬ (start - calculate_record_size remaining_length payload_count ≤ a
               < start - calculate_record_size remaining_length payload_count
                 + calculate_suffix_length remaining_length) →
            at_index (data_ p') a = at_index (data_ p) a).
Proof.
  intros Hwf Hold Hindex Hcount (Hmax & _ & _ & Hkc) Hrem Hpay Hroom Hsmall
    Hsuffix.
  assert (Hidx : 0 ≤ index < kMaxKeys) by lia.
  destruct (reserve_record_space_effect p index remaining_length payload_count
              initial_owner_id slice suffix Hwf Hold Hidx ltac:(lia) Hpay Hroom
              Hsmall Hsuffix)
    as (p' & start & o' & Hres & Hstart & Ho' & Hrange & Hend & _ & Hsl & Hlen
        & Hpl & Hown & Hoff & Hdata).
  destruct Hwf as [(Hl1 & Hl2 & Hl3 & Hl4 & Hl5 & Hl6) _].
  unfold kMaxKeys, kKeyLengthMax in *. change kDataSize with 2752 in *.
  pose proof (calculate_suffix_length_bounds remaining_length ltac:(lia)) as [Hs Hsr].
  assert (Hrec : get_record p' index
            = Some (start - calculate_record_size remaining_length payload_count)).
  { rewrite get_record_slot by (unfold kMaxKeys; lia).
    rewrite Hoff, at_index_insert_eq by lia. cbn.
    rewrite wrap16_small by lia.
    rewrite Z.shiftl_mul_pow2 by lia. change (2 ^ 4) with 16. f_equal. lia. }
  assert (Htake : length (take (Z.to_nat (calculate_suffix_length remaining_length))
                    suffix)
            = Z.to_nat (calculate_suffix_length remaining_length))
    by (rewrite length_take; lia).
  exists p', start. split; [done|]. split; [done|].
  rewrite Hsl, Hlen, Hpl, Hown. rewrite !at_index_insert_eq by lia.
  repeat split; try done.
  - intros Hlong. unfold stored_suffix. rewrite Hrec. cbn.
    rewrite Hdata, <- Ho'.
    rewrite calculate_suffix_length_eq in * by lia. unfold sizeof_KeySlice in *.
    rewrite (proj2 (Z.leb_le 8 remaining_length)) in * by lia.
    replace (remaining_length - 8)
      with (Z.of_nat (length (take (Z.to_nat (remaining_length - 8)) suffix)))
      at 2 by lia.
    apply read_bytes_inserts; lia.
  - intros a Hout. rewrite Hdata. apply at_index_inserts_outside; lia.
Qed.

Lemma reserve_record_space_stores_slot_witness :
  well_formed page_one_record_locked
  ∧ records_inside_data page_one_record_locked 1
  ∧ 0 ≤ 1
  ∧ get_key_count (version page_one_record_locked) ≤ kMaxKeys
  ∧ reserve_record_space_asserts page_one_record_locked 1 10
  ∧ 0 ≤ 10
  ∧ 0 ≤ 100
  ∧ can_accomodate page_one_record_locked 1 10 100 = Some true
  ∧ calculate_suffix_length 10 + 100 ≤ kDataSize
  ∧ calculate_suffix_length 10 ≤ Z.of_nat (length [66; 67])
  ∧ ∃ p' start,
      reserve_record_space page_one_record_locked 1 77 slice_abcdefgh [66; 67]
        10 100 = Some p'
      ∧ previous_record_start page_one_record_locked 1 = Some start
      ∧ at_index (slices_ p') 1 = Some slice_abcdefgh
      ∧ at_index (remaining_key_length_ p') 1 = Some 10
      ∧ at_index (payload_length_ p') 1 = Some 100
      ∧ at_index (owner_ids_ p') 1 = Some 77
      ∧ get_record p' 1 = Some (start - calculate_record_size 10 100)
      ∧ (sizeof_KeySlice < 10 →
         stored_suffix p' 1 (10 - sizeof_KeySlice)
         = Some (take (Z.to_nat (10 - sizeof_KeySlice)) [66; 67]))
      ∧ (∀ a, ¬ (start - calculate_record_size 10 100 ≤ a
                 < start - calculate_record_size 10 100
                   + calculate_suffix_length 10) →
              at_index (data_ p') a = at_index (data_ page_one_record_locked) a).
Proof.
  assert (Hwf : well_formed page_one_record_locked)
    by (apply well_formed_concrete; vm_compute; reflexivity).
  assert (Hold : records_inside_data page_one_record_locked 1).
  { intros j o Hj. assert (j = 0) as -> by lia. vm_compute. intros [= <-].
    discriminate. }
  assert (Hindex : 0 ≤ 1) by lia.
  assert (Hcount : get_key_count (version page_one_record_locked) ≤ kMaxKeys)
    by (vm_compute; discriminate).
  assert (Hasserts : reserve_record_space_asserts page_one_record_locked 1 10).
  { split; [vm_compute; discriminate|]. repeat split; reflexivity. }
  assert (Hrem : 0 ≤ 10) by lia.
  assert (Hpay : 0 ≤ 100) by lia.
  assert (Hroom : can_accomodate page_one_record_locked 1 10 100 = Some true)
    by (vm_compute; reflexivity).
  assert (Hsmall : calculate_suffix_length 10 + 100 ≤ kDataSize)
    by (vm_compute; discriminate).
  assert (Hsuffix : calculate_suffix_length 10 ≤ Z.of_nat (length [66; 67]))
    by (vm_compute; discriminate).
  repeat (split; [assumption|]).
  exact (reserve_record_space_stores_slot page_one_record_locked 1 77
           slice_abcdefgh [66; 67] 10 100 Hwf Hold Hindex Hcount Hasserts Hrem
           Hpay Hroom Hsmall Hsuffix).
Defined.

(** C4, on [page_one_record_locked], whose one record starts at
    [16 * 171 = 2736] and holds the suffix byte 65.  The call that reserves
    slot 1 for a 9-byte key with a payload of 65535 bytes meets every
    assertion: the page is locked, the inserting bit is set, the key count is
    2, the key has at most 254 bytes and [can_accomodate] is true, the size
    65536 being 0 in 16 bits.  The slot stores the given slice, lengths and
    owner id, but its offset is the offset 171 of slot 0 and not that offset
    minus the aligned record size: the record starts at 2736, where the
    record of slot 0 starts, and the suffix byte is copied there. *)
Theorem reserve_record_space_ignores_wrapped_size :
  well_formed page_one_record_locked
  ∧ records_inside_data page_one_record_locked 1
  ∧ reserve_record_space_asserts page_one_record_locked 1 9
  ∧ is_uint16 65535
  ∧ can_accomodate page_one_record_locked 1 9 65535 = Some true
  ∧ previous_record_start page_one_record_locked 1 = Some 2736
  ∧ align16 (calculate_suffix_length 9 + 65535) = 65536
  ∧ ∃ p', reserve_record_space page_one_record_locked 1 77 (slice_abcdefgh + 1)
            [66] 9 65535 = Some p'
          ∧ at_index (slices_ p') 1 = Some (slice_abcdefgh + 1)
          ∧ at_index (remaining_key_length_ p') 1 = Some 9
          ∧ at_index (payload_length_ p') 1 = Some 65535
          ∧ at_index (owner_ids_ p') 1 = Some 77
          ∧ at_index (offsets_ p') 1 = Some 171
          ∧ at_index (offsets_ p') 0 = Some 171
          ∧ get_record p' 1 = Some 2736
          ∧ stored_suffix p' 1 1 = Some [66]
          ∧ stored_suffix p' 0 1 = Some [66].
Proof.
  split; [apply well_formed_concrete; vm_compute; reflexivity|].
  split.
  { intros j o Hj. assert (j = 0) as -> by lia. vm_compute. intros [= <-].
    discriminate. }
  split; [split; [vm_compute; discriminate|repeat split; reflexivity]|].
  split; [split; [vm_compute; discriminate|reflexivity]|].
  split; [vm_compute; reflexivity|]. split; [vm_compute; reflexivity|].
  split; [vm_compute; reflexivity|].
  eexists. split; [vm_compute; reflexivity|].
  repeat split; vm_compute; reflexivity.
Qed.

(** The frame of a call that keeps inside the page: the slot arrays change
    at [index] only, and every byte of [data_] from the start of the previous
    record upwards, where the older records lie, is kept. *)
Lemma reserve_record_space_frame (p : t) (index : Z) (initial_owner_id : XctId)
    (slice : KeySlice) (suffix : list Z) (remaining_length payload_count : Z) :
  well_formed p →
  records_inside_data p index →
  0 ≤ index < kMaxKeys →
  0 ≤ remaining_length ≤ kKeyLengthMax →
  0 ≤ payload_count →
  can_accomodate p index remaining_length payload_count = Some true →
  calculate_suffix_length remaining_length + payload_count ≤ kDataSize →
  calculate_suffix_length remaining_length ≤ Z.of_nat (length suffix) →
  ∃ p' start,
    reserve_record_space p index initial_owner_id slice suffix remaining_length
      payload_count = Some p'
    ∧ previous_record_start p index = Some start
    ∧ (∀ j, j ≠ index →
         at_index (slices_ p') j = at_index (slices_ p) j
         ∧ at_index (remaining_key_length_ p') j = at_index (remaining_key_length_ p) j
         ∧ at_index (payload_length_ p') j = at_index (payload_length_ p) j
         ∧ at_index (offsets_ p') j = at_index (offsets_ p) j
         ∧ at_index (owner_ids_ p') j = at_index (owner_ids_ p) j)
    ∧ (∀ a, start ≤ a → at_index (data_ p') a = at_index (data_ p) a).
Proof.
  intros Hwf Hold Hidx Hrem Hpay Hroom Hsmall Hsuffix.
  destruct (reserve_record_space_effect p index remaining_length payload_count
              initial_owner_id slice suffix Hwf Hold Hidx Hrem Hpay Hroom Hsmall
              Hsuffix)
    as (p' & start & o' & Hres & Hstart & Ho' & Hrange & Hend & _ & Hsl & Hlen
        & Hpl & Hown & Hoff & Hdata).
  unfold kMaxKeys, kKeyLengthMax in *.
  pose proof (calculate_suffix_length_bounds remaining_length ltac:(lia)) as [Hs Hsr].
  exists p', start. split; [done|]. split; [done|]. split.
  - intros j Hj. rewrite Hsl, Hlen, Hpl, Hown, Hoff.
    by rewrite !at_index_insert_ne by lia.
  - intros a Ha. rewrite Hdata. apply at_index_inserts_outside; [lia|].
    rewrite length_take. lia.
Qed.

(** C8, on the page [page_one_record]: the call that reserves slot 1 for a
    9-byte key with a payload of 65535 bytes meets every assertion of
    [reserve_record_space], [can_accomodate] included, because the record
    size 65536 is 0 in 16 bits.  Slot 1 then gets the offset of slot 0, and
    the suffix byte 66 replaces the suffix byte 65 that slot 0 stored. *)
Theorem reserve_record_space_overwrites_older_record :
  well_formed page_one_record_locked
  ∧ records_inside_data page_one_record_locked 1
  ∧ reserve_record_space_asserts page_one_record_locked 1 9
  ∧ can_accomodate page_one_record_locked 1 9 65535 = Some true
  ∧ calculate_record_size 9 65535 = 0
  ∧ get_record page_one_record_locked 0 = Some 2736
  ∧ stored_suffix page_one_record_locked 0 1 = Some [65]
  ∧ ∃ p', reserve_record_space page_one_record_locked 1 99 (slice_abcdefgh + 1)
            [66] 9 65535 = Some p'
          ∧ get_record p' 0 = Some 2736
          ∧ get_record p' 1 = Some 2736
          ∧ stored_suffix p' 0 1 = Some [66].
Proof.
  split; [apply well_formed_concrete; vm_compute; reflexivity|].
  split.
  { intros j o Hj. assert (j = 0) as -> by lia. vm_compute. intros [= <-].
    discriminate. }
  split; [split; [vm_compute; discriminate|repeat split; reflexivity]|].
  split; [vm_compute; reflexivity|]. split; [vm_compute; reflexivity|].
  split; [vm_compute; reflexivity|]. split; [vm_compute; reflexivity|].
  eexists. split; [vm_compute; reflexivity|].
  repeat split; vm_compute; reflexivity.
Qed.

(** ** Slots that share a slice *)

Lemma write_index_inv {A} (a a' : list A) i x :
  write_index a i x = Some a' →
  0 ≤ i < Z.of_nat (length a) ∧ a' = <[Z.to_nat i := x]> a.
Proof. unfold write_index. case_decide; [|done]. by intros [= <-]. Qed.

Lemma reserve_record_space_arrays p index owner slice suffix remaining payload p' :
  reserve_record_space p index owner slice suffix remaining payload = Some p' →
  0 ≤ index < Z.of_nat (length (slices_ p))
  ∧ base p' = base p
  ∧ slices_ p' = <[Z.to_nat index := slice]> (slices_ p)
  ∧ remaining_key_length_ p'
    = <[Z.to_nat index := remaining]> (remaining_key_length_ p).
Proof.
  unfold reserve_record_space. intros H.
  destruct (if index =? 0 then _ else _) as [prev|]; [|done]. cbn in H.
  destruct (write_index (slices_ p) _ _) as [s'|] eqn:Hs; [|done]. cbn in H.
  destruct (write_index (remaining_key_length_ p) _ _) as [l'|] eqn:Hl; [|done].
  cbn in H.
  destruct (write_index (payload_length_ p) _ _) as [pl'|]; [|done]. cbn in H.
  destruct (write_index (offsets_ p) _ _) as [o'|]; [|done]. cbn in H.
  destruct (write_index (owner_ids_ p) _ _) as [w'|]; [|done]. cbn in H.
  apply write_index_inv in Hs as [? ->]. apply write_index_inv in Hl as [? ->].
  destruct (0 <? _).
  - destruct (get_record _ _); [|done]. cbn in H.
    destruct (read_bytes _ _ _); [|done]. cbn in H.
    destruct (write_bytes _ _ _); [|done]. cbn in H.
    by simplify_eq.
  - by simplify_eq.
Qed.

Lemma set_next_layer_arrays p index pointer p' :
  set_next_layer p index pointer = Some p' →
  0 ≤ index < Z.of_nat (length (remaining_key_length_ p))
  ∧ base p' = base p
  ∧ slices_ p' = slices_ p
  ∧ remaining_key_length_ p'
    = <[Z.to_nat index := kKeyLengthNextLayer]> (remaining_key_length_ p).
Proof.
  unfold set_next_layer. intros H.
  destruct (write_index _ _ _) as [l'|] eqn:Hl; [|done]. cbn in H.
  apply write_index_inv in Hl as [? ->].
  destruct (get_next_layer _ _); [|done]. cbn in H.
  destruct (write_bytes _ _ _); [|done]. cbn in H.
  by simplify_eq.
Qed.

Lemma length_class_short len remaining :
  remaining ≤ sizeof_KeySlice → len ≠ remaining →
  length_class len ≠ length_class remaining.
Proof.
  unfold length_class, sizeof_KeySlice. intros.
  destruct (Z.ltb_spec 8 len), (Z.ltb_spec 8 remaining); lia.
Qed.

Lemma length_class_long len remaining :
  sizeof_KeySlice < remaining → len ≤ sizeof_KeySlice →
  length_class len ≠ length_class remaining.
Proof.
  unfold length_class, sizeof_KeySlice. intros.
  destruct (Z.ltb_spec 8 len), (Z.ltb_spec 8 remaining); lia.
Qed.

Lemma find_key_for_reserve_from_not_found p slice suffix remaining todo i r :
  0 ≤ i → i + Z.of_nat todo ≤ 256 →
  find_key_for_reserve_from p slice suffix remaining todo i = Some r →
  match_type_ r = kNotFound →
  ∀ j len, i ≤ j < i + Z.of_nat todo →
    at_index (slices_ p) j = Some slice →
    at_index (remaining_key_length_ p) j = Some len →
    length_class len ≠ length_class remaining.
Proof.
  revert i r. induction todo as [|todo IH]; intros i r Hi Hsum Hr Hnf j len Hj Hs Hl.
  - lia.
  - cbn [find_key_for_reserve_from] in Hr.
    assert (Hnext : ∀ r',
      find_key_for_reserve_from p slice suffix remaining todo (wrap8 (i + 1))
        = Some r' → match_type_ r' = kNotFound → j ≠ i →
      length_class len ≠ length_class remaining).
    { intros r' Hr' Hnf' Hne. destruct todo as [|todo']; [lia|].
      rewrite wrap8_small in Hr' by lia.
      apply (IH (i + 1) r' ltac:(lia) ltac:(lia) Hr' Hnf' j len); [lia|done|done]. }
    cbv zeta in Hr. unfold does_point_to_layer in Hr.
    destruct (decide (j = i)) as [->|Hne].
    + rewrite Hs in Hr. cbn in Hr. rewrite Z.eqb_refl in Hr. cbn in Hr.
      rewrite Hl in Hr. cbn in Hr.
      destruct (Z.leb_spec remaining sizeof_KeySlice) as [Hshort|Hlong].
      * destruct (Z.eqb_spec len remaining); [by simplify_eq|].
        by apply length_class_short.
      * destruct (len =? kKeyLengthNextLayer); [by simplify_eq|].
        destruct (Z.leb_spec len sizeof_KeySlice); [by apply length_class_long|].
        loop_cases; by simplify_eq.
    + loop_cases; subst; try discriminate; eauto.
Qed.

Lemma lock_key_count b b' :
  lock b = Some b' → key_count (page_version_ b') = key_count (page_version_ b).
Proof.
  unfold lock, lock_version. destruct (negb _); [|by intros [= <-]].
  destruct (locked _); [done|]. cbn. by intros [= <-].
Qed.

Lemma unlock_key_count b b' :
  unlock b = Some b' → key_count (page_version_ b') = key_count (page_version_ b).
Proof.
  unfold unlock, unlock_version. destruct (negb _); [|by intros [= <-]].
  cbn. by intros [= <-].
Qed.

Lemma insert_new_record_inv p owner slice suffix remaining payload p' :
  0 ≤ get_key_count (version p) →
  insert_new_record p owner slice suffix remaining payload = Some p' →
  get_key_count (version p) < kMaxKeys
  ∧ get_key_count (version p') = get_key_count (version p) + 1
  ∧ slices_ p' = <[Z.to_nat (get_key_count (version p)) := slice]> (slices_ p)
  ∧ remaining_key_length_ p'
    = <[Z.to_nat (get_key_count (version p)) := remaining]>
        (remaining_key_length_ p)
  ∧ (∀ j len, 0 ≤ j < get_key_count (version p) →
       at_index (slices_ p) j = Some slice →
       at_index (remaining_key_length_ p) j = Some len →
       length_class len ≠ length_class remaining).
Proof.
  unfold insert_new_record. intros Hcount H.
  destruct (lock (base p)) as [lb|] eqn:Hlock; [|done]. cbn in H.
  apply lock_key_count in Hlock.
  destruct (find_key_for_reserve _ _ _ _ _ _) as [found|] eqn:Hfound; [|done].
  cbn in H. destruct (match_type_ found) eqn:Hmt; try done.
  destruct (can_accomodate _ _ _ _) as [fits|]; [|done]. cbn in H.
  destruct (fits && _) eqn:Hfits; [|done].
  apply andb_true_iff in Hfits as [_ Hlt%Z.ltb_lt].
  destruct (reserve_record_space _ _ _ _ _ _ _) as [p3|] eqn:Hres; [|done].
  cbn in H. apply reserve_record_space_arrays in Hres as (_ & Hb & Hs & Hl).
  destruct (unlock (base p3)) as [ub|] eqn:Hunlock; [|done]. cbn in H.
  apply unlock_key_count in Hunlock. injection H as <-.
  unfold version, get_key_count in *. cbn in *. rewrite Hb in Hunlock. cbn in *.
  rewrite Hlock in *. unfold kMaxKeys in *.
  repeat split; try done; try lia.
  intros j len Hj Hsj Hlj. unfold find_key_for_reserve in Hfound.
  exact (find_key_for_reserve_from_not_found (set_base p lb) slice suffix remaining
           (Z.to_nat (key_count (page_version_ (base p)) - 0)) 0 found
           ltac:(lia) ltac:(lia) Hfound Hmt j len ltac:(lia) Hsj Hlj).
Qed.

Lemma length_class_next_layer len :
  sizeof_KeySlice < len → length_class kKeyLengthNextLayer = length_class len.
Proof.
  unfold length_class, sizeof_KeySlice, kKeyLengthNextLayer. intros.
  destruct (Z.ltb_spec 8 len); [done|lia].
Qed.

Lemma built_invariant p : built p → page_shape p ∧ slices_told_apart p.
Proof.
  induction 1 as [v Hv|p p' owner slice suffix remaining payload _ [IHs IHt] Hrem Hins
                  |p p' index pointer len _ [IHs IHt] Hidx Hlen Hlong Hset
                  |p Hshape Hone
                  |p q _ [IHs IHt] Hshape (origin & Horigin & Hinj)].
  - assert (Hkc : get_key_count (version (initialize_volatile_page v)) = 0)
      by exact Hv.
    split.
    + unfold page_shape. rewrite Hkc. unfold kMaxKeys.
      split; [lia|]. split; [done|]. split; [done|].
      change (remaining_key_length_ (initialize_volatile_page v))
        with (replicate 64 0). by apply Forall_replicate.
    + intros i j s li lj Hi. rewrite Hkc in Hi. lia.
  - destruct IHs as (Hkc & Hl1 & Hl2 & Hnn).
    apply insert_new_record_inv in Hins
      as (Hlt & Hkc' & Hs' & Hl' & Hnew); [|lia].
    unfold kMaxKeys in *.
    split.
    + unfold page_shape, kMaxKeys. rewrite Hkc', Hl', Hs', !length_insert.
      split; [lia|]. split; [done|]. split; [done|].
      apply Forall_insert; [done|lia].
    + intros i j s li lj Hi Hj Hne. rewrite Hkc' in Hi, Hj. rewrite Hs', Hl'.
      set (count := get_key_count (version p)) in *.
      destruct (decide (i = count)) as [->|Hic], (decide (j = count)) as [->|Hjc];
        [done| | |].
      * rewrite !at_index_insert_eq by lia.
        rewrite !at_index_insert_ne by lia.
        intros [= <-] Hsj [= <-] Hlj. symmetry. apply (Hnew j lj); [lia|done|done].
      * rewrite !at_index_insert_eq by lia.
        rewrite !at_index_insert_ne by lia.
        intros Hsi [= <-] Hli [= <-]. apply (Hnew i li); [lia|done|done].
      * rewrite !at_index_insert_ne by lia. apply IHt; lia.
  - destruct IHs as (Hkc & Hl1 & Hl2 & Hnn).
    apply set_next_layer_arrays in Hset as (Hi & Hb & Hs' & Hl').
    assert (Hv : version p' = version p) by (unfold version; by rewrite Hb).
    unfold kMaxKeys in *.
    split.
    + unfold page_shape, kMaxKeys. rewrite Hv, Hl', Hs', !length_insert.
      split; [lia|]. split; [done|]. split; [done|].
      apply Forall_insert; [done|]. unfold kKeyLengthNextLayer. lia.
    + intros i j s li lj. rewrite Hv, Hs', Hl'. intros Hi' Hj' Hne Hsi Hsj.
      destruct (decide (i = index)) as [->|Hii], (decide (j = index)) as [->|Hji];
        [done| | |].
      * rewrite at_index_insert_eq by lia. rewrite at_index_insert_ne by lia.
        intros [= <-] Hlj. rewrite (length_class_next_layer len Hlong).
        by apply (IHt index j s len lj).
      * rewrite at_index_insert_eq by lia. rewrite at_index_insert_ne by lia.
        intros Hli [= <-]. rewrite (length_class_next_layer len Hlong).
        by apply (IHt i index s li len).
      * rewrite !at_index_insert_ne by lia. intros Hli Hlj.
        by apply (IHt i j s li lj).
  - split; [done|]. intros i j s li lj Hi Hj Hne. rewrite Hone in Hi, Hj. lia.
  - split; [done|]. intros i j s li lj Hi Hj Hne Hsi Hsj Hli Hlj.
    destruct (Horigin i Hi) as (Hoi & Hsi' & Hli').
    destruct (Horigin j Hj) as (Hoj & Hsj' & Hlj').
    rewrite Hsi' in Hsi. rewrite Hsj' in Hsj.
    rewrite Hli' in Hli. rewrite Hlj' in Hlj.
    apply (IHt (origin i) (origin j) s li lj); try done.
    intros Heq. apply Hne. by apply Hinj.
Qed.

Lemma find_key_traced_from_result p slice suffix remaining todo i :
  (find_key_traced_from p slice suffix remaining todo i).2
  = find_key_from p slice suffix remaining todo i.
Proof.
  revert i. induction todo as [|todo IH]; intros i; [done|].
  cbn [find_key_traced_from find_key_from]. cbv zeta.
  rewrite <- (IH (wrap8 (i + 1))).
  destruct (at_index (slices_ p) i) as [s|]; [|done]. cbn [mbind option_bind].
  destruct (negb (slice =? s)); [done|].
  destruct (remaining <=? sizeof_KeySlice).
  - destruct (at_index (remaining_key_length_ p) i) as [len|]; [|done].
    cbn [mbind option_bind]. by destruct (len =? remaining).
  - destruct (does_point_to_layer p i) as [[]|]; [done| |done].
    cbn [mbind option_bind].
    destruct (at_index (remaining_key_length_ p) i) as [len|]; [|done].
    cbn [mbind option_bind].
    destruct (if len =? remaining then _ else _) as [[]|]; [done| |done].
    cbn [mbind option_bind]. by destruct (sizeof_KeySlice <? len).
Qed.

Lemma find_key_traced_from_examined p slice suffix remaining todo i :
  0 ≤ i → i + Z.of_nat todo ≤ 256 →
  (find_key_traced_from p slice suffix remaining todo i).1 `sublist_of`
    filter (λ j, at_index (slices_ p) j = Some slice) (seqZ i (Z.of_nat todo)).
Proof.
  revert i. induction todo as [|todo IH]; intros i Hi Hsum.
  - apply sublist_nil_l.
  - rewrite seqZ_cons by lia.
    replace (Z.pred (Z.of_nat (S todo))) with (Z.of_nat todo) by lia.
    assert (Hnext :
      (find_key_traced_from p slice suffix remaining todo (wrap8 (i + 1))).1
      `sublist_of`
        filter (λ j, at_index (slices_ p) j = Some slice)
          (seqZ (Z.succ i) (Z.of_nat todo))).
    { destruct todo as [|todo']; [apply sublist_nil_l|].
      rewrite wrap8_small by lia. apply IH; lia. }
    cbn [find_key_traced_from]. cbv zeta.
    destruct (at_index (slices_ p) i) as [s|] eqn:Hs; [|apply sublist_nil_l].
    destruct (Z.eqb_spec slice s) as [<-|Hne]; cbn [negb].
    + rewrite filter_cons_True by done.
      assert (Hone : ∀ rest, [i] `sublist_of` i :: rest)
        by (intros rest; apply sublist_skip, sublist_nil_l).
      repeat (match goal with
              | |- (match ?m with _ => _ end).1 `sublist_of` _ => destruct m
              | |- (if ?b then _ else _).1 `sublist_of` _ => destruct b
              end);
        cbn [fst]; first [apply Hone | by apply sublist_skip].
    + rewrite filter_cons_False by congruence. done.
Qed.

Lemma slots_with_slice_at_most_ten p count s :
  page_shape p → slices_told_apart p →
  0 ≤ count ≤ get_key_count (version p) →
  (length (slots_with_slice p count s) ≤ 10)%nat.
Proof.
  intros (Hkc & Hl1 & Hl2 & Hnn) Hapart Hcount. unfold kMaxKeys in *.
  set (class_of := λ i, length_class (default 0 (at_index (remaining_key_length_ p) i))).
  assert (Hin : ∀ i, i ∈ slots_with_slice p count s →
            0 ≤ i < count ∧ at_index (slices_ p) i = Some s
            ∧ ∃ len, at_index (remaining_key_length_ p) i = Some len ∧ 0 ≤ len).
  { intros i [Hs Hi%elem_of_seqZ]%list_elem_of_filter.
    split; [lia|]. split; [done|].
    destruct (at_index_Some (remaining_key_length_ p) i) as [len Hlen]; [lia|].
    exists len. split; [done|].
    unfold at_index in Hlen. case_decide; [|done].
    by apply (Forall_lookup_1 _ _ _ _ Hnn) in Hlen. }
  rewrite <- (length_fmap class_of).
  change 10%nat with (Z.to_nat 10). rewrite <- (length_seqZ 0 10).
  apply submseteq_length, NoDup_submseteq.
  - apply NoDup_fmap_2_strong.
    + intros i j Hi Hj Heq. destruct (decide (i = j)) as [|Hne]; [done|].
      destruct (Hin i Hi) as (Hri & Hsi & li & Hli & _).
      destruct (Hin j Hj) as (Hrj & Hsj & lj & Hlj & _).
      unfold class_of in Heq. rewrite Hli, Hlj in Heq. cbn in Heq.
      by destruct (Hapart i j s li lj ltac:(lia) ltac:(lia) Hne Hsi Hsj Hli Hlj).
    + apply NoDup_filter, NoDup_seqZ.
  - intros c (i & -> & Hi)%list_elem_of_fmap.
    destruct (Hin i Hi) as (_ & _ & len & Hlen & Hpos).
    unfold class_of. rewrite Hlen. cbn. apply elem_of_seqZ.
    unfold length_class, sizeof_KeySlice. destruct (Z.ltb_spec 8 len); lia.
Qed.

(** C2, as amended: in every border page that the operations make (a fresh
    page, slot reservation, next-layer promotion, the root of a new layer
    with its one record, and the pages that a split leaves) the slots in use
    that hold one slice have pairwise different lengths among the lengths 0
    to 8, and at most one of them has a length above 8 (the marker 255
    included); such a slot may share its slice with the shorter ones.  So at
    most ten slots, not two, hold the same slice, and whatever [find_key]
    answers it examines at most ten slots beyond their slice, all of them
    slots of the searched slice. *)
Theorem built_page_slots_per_slice (p : t) (stable : MasstreePageVersion)
    (slice : KeySlice) (suffix : list Z) (remaining : Z) :
  built p →
  0 ≤ get_key_count stable ≤ get_key_count (version p) →
  (∀ i j s li lj,
     0 ≤ i < get_key_count (version p) →
     0 ≤ j < get_key_count (version p) →
     at_index (slices_ p) i = Some s →
     at_index (slices_ p) j = Some s →
     at_index (remaining_key_length_ p) i = Some li →
     at_index (remaining_key_length_ p) j = Some lj →
     (sizeof_KeySlice < li ∧ sizeof_KeySlice < lj) ∨ li = lj →
     i = j)
  ∧ (length (slots_with_slice p (get_key_count (version p)) slice) ≤ 10)%nat
  ∧ (find_key_traced p stable slice suffix remaining).2
    = find_key p stable slice suffix remaining
  ∧ (find_key_traced p stable slice suffix remaining).1
    `sublist_of` slots_with_slice p (get_key_count stable) slice
  ∧ (length (find_key_traced p stable slice suffix remaining).1 ≤ 10)%nat.
Proof.
  intros Hbuilt Hstable.
  destruct (built_invariant p Hbuilt) as [Hshape Hapart].
  pose proof Hshape as (Hkc & _). unfold kMaxKeys in Hkc.
  assert (Hexamined :
    (find_key_traced p stable slice suffix remaining).1
    `sublist_of` slots_with_slice p (get_key_count stable) slice).
  { unfold find_key_traced. rewrite wrap8_small by lia.
    pose proof (find_key_traced_from_examined p slice suffix remaining
                  (Z.to_nat (get_key_count stable)) 0 ltac:(lia) ltac:(lia)) as H.
    by rewrite Z2Nat.id in H by lia. }
  split; [|split; [|split; [|split]]].
  - intros i j s li lj Hi Hj Hsi Hsj Hli Hlj Hsame.
    destruct (decide (i = j)) as [|Hne]; [done|].
    destruct (Hapart i j s li lj Hi Hj Hne Hsi Hsj Hli Hlj).
    unfold length_class.
    destruct Hsame as [[Hi8 Hj8]| ->]; [|done].
    by rewrite (proj2 (Z.ltb_lt _ _) Hi8), (proj2 (Z.ltb_lt _ _) Hj8).
  - apply slots_with_slice_at_most_ten; [done|done|lia].
  - unfold find_key_traced, find_key. apply find_key_traced_from_result.
  - done.
  - apply sublist_length in Hexamined.
    pose proof (slots_with_slice_at_most_ten p (get_key_count stable) slice
                  Hshape Hapart ltac:(lia)).
    lia.
Qed.

Lemma insert_new_record_the_page p initial_owner_id slice suffix remaining_length
    payload_count :
  is_Some (insert_new_record p initial_owner_id slice suffix remaining_length
             payload_count) →
  insert_new_record p initial_owner_id slice suffix remaining_length payload_count
  = Some (the_page (insert_new_record p initial_owner_id slice suffix
                      remaining_length payload_count)).
Proof. by intros [p' ->]. Qed.

Lemma page_three_short_keys_built : built page_three_short_keys.
Proof.
  assert (H0 : built (initialize_volatile_page (reader_version 0)))
    by (by apply built_fresh).
  assert (H1 : built page_after_first_short_key).
  { eapply (built_insert _ _ 99 0 [] 0 4 H0); [by vm_compute|].
    apply insert_new_record_the_page. vm_compute. by eexists. }
  assert (H2 : built page_after_second_short_key).
  { eapply (built_insert _ _ 99 0 [] 1 4 H1); [by vm_compute|].
    apply insert_new_record_the_page. vm_compute. by eexists. }
  eapply (built_insert _ _ 99 0 [] 2 4 H2); [by vm_compute|].
  apply insert_new_record_the_page. vm_compute. by eexists.
Qed.

Lemma page_8_and_9_byte_keys_built : built page_8_and_9_byte_keys.
Proof.
  assert (H0 : built (initialize_volatile_page (reader_version 0)))
    by (by apply built_fresh).
  assert (H1 : built page_after_8_byte_key).
  { eapply (built_insert _ _ 99 slice_abcdefgh [] 8 4 H0); [by vm_compute|].
    apply insert_new_record_the_page. vm_compute. by eexists. }
  eapply (built_insert _ _ 99 slice_abcdefgh [65] 9 4 H1); [by vm_compute|].
  apply insert_new_record_the_page. vm_compute. by eexists.
Qed.

(** A page that keeps two of the three slots is a page of a split. *)
Lemma page_kept_two_slots_built : built page_kept_two_slots.
Proof.
  apply (built_split page_three_short_keys); [exact page_three_short_keys_built| |].
  - split; [vm_compute; split; discriminate|]. split; [reflexivity|].
    split; [reflexivity|]. repeat constructor; vm_compute; discriminate.
  - exists (λ i, if i =? 0 then 2 else 0). split.
    + intros i Hi. change (get_key_count (version page_kept_two_slots)) with 2 in Hi.
      assert (Hcases : i = 0 ∨ i = 1) by lia.
      destruct Hcases as [-> | ->]; vm_compute; repeat split; discriminate.
    + intros i j Hi Hj.
      change (get_key_count (version page_kept_two_slots)) with 2 in Hi, Hj.
      assert (Hci : i = 0 ∨ i = 1) by lia. assert (Hcj : j = 0 ∨ j = 1) by lia.
      destruct Hci as [-> | ->], Hcj as [-> | ->]; vm_compute; congruence.
Qed.

Lemma built_page_slots_per_slice_witness :
  built page_three_short_keys
  ∧ 0 ≤ get_key_count (reader_version 3)
      ≤ get_key_count (version page_three_short_keys)
  ∧ (∀ i j s li lj,
       0 ≤ i < get_key_count (version page_three_short_keys) →
       0 ≤ j < get_key_count (version page_three_short_keys) →
       at_index (slices_ page_three_short_keys) i = Some s →
       at_index (slices_ page_three_short_keys) j = Some s →
       at_index (remaining_key_length_ page_three_short_keys) i = Some li →
       at_index (remaining_key_length_ page_three_short_keys) j = Some lj →
       (sizeof_KeySlice < li ∧ sizeof_KeySlice < lj) ∨ li = lj →
       i = j)
  ∧ (length (slots_with_slice page_three_short_keys
               (get_key_count (version page_three_short_keys)) 0%Z) ≤ 10)%nat
  ∧ (find_key_traced page_three_short_keys (reader_version 3) 0 [] 2).2
    = find_key page_three_short_keys (reader_version 3) 0 [] 2
  ∧ (find_key_traced page_three_short_keys (reader_version 3) 0 [] 2).1
    `sublist_of` slots_with_slice page_three_short_keys
                   (get_key_count (reader_version 3)) 0
  ∧ (length (find_key_traced page_three_short_keys (reader_version 3) 0%Z [] 2%Z).1
     ≤ 10)%nat.
Proof.
  assert (Hstable : 0 ≤ get_key_count (reader_version 3)
                      ≤ get_key_count (version page_three_short_keys))
    by (vm_compute; split; discriminate).
  split; [exact page_three_short_keys_built|]. split; [exact Hstable|].
  exact (built_page_slots_per_slice page_three_short_keys (reader_version 3) 0 [] 2
           page_three_short_keys_built Hstable).
Defined.

(** C2 as stated fails on built pages.  After the empty key and the keys of
    one and of two zero bytes three slots hold the slice 0, and [find_key]
    for the last key examines all three.  After the keys "abcdefgh" and
    "abcdefghA" the slot of the 9-byte key is not the only slot of its
    slice. *)
Lemma three_slots_share_a_slice :
  built page_three_short_keys
  ∧ get_key_count (version page_three_short_keys) = 3
  ∧ slots_with_slice page_three_short_keys 3 0 = [0; 1; 2]
  ∧ find_key_traced page_three_short_keys (reader_version 3) 0 [] 2
    = ([0; 1; 2], Some 2)
  ∧ built page_8_and_9_byte_keys
  ∧ get_key_count (version page_8_and_9_byte_keys) = 2
  ∧ slots_with_slice page_8_and_9_byte_keys 2 slice_abcdefgh = [0; 1]
  ∧ at_index (remaining_key_length_ page_8_and_9_byte_keys) 0 = Some 8
  ∧ at_index (remaining_key_length_ page_8_and_9_byte_keys) 1 = Some 9.
Proof.
  split; [exact page_three_short_keys_built|].
  split; [reflexivity|]. split; [vm_compute; reflexivity|].
  split; [vm_compute; reflexivity|].
  split; [exact page_8_and_9_byte_keys_built|].
  repeat split; vm_compute; reflexivity.
Qed.

(** ** [get_record] *)

Import MasstreeStorage.

Section locate.
Variable key : Key.

Lemma lexico_irrefl (k : Key) : ¬ lexico k k.
Proof. apply (irreflexivity (lexico (A := Key))). Qed.

Lemma lexico_trans (a b c : Key) : lexico a b → lexico b c → lexico a c.
Proof. apply (transitivity (R := lexico (A := Key))). Qed.

Lemma locate_found records low record :
  index_sorted records → (key, record) ∈ records →
  locate records key low = Found record.
Proof.
  intros Hsorted. revert low.
  induction Hsorted as [|[k v] rest Hrest IH Hhead]; intros low Hin.
  - by apply elem_of_nil in Hin.
  - cbn [locate].
    assert (Hrest_above : ∀ r, (key, r) ∈ rest → lexico k key).
    { intros r Hr. by apply (proj1 (Forall_forall _ _) Hhead (key, r)). }
    apply elem_of_cons in Hin as [Heq|Hin].
    + injection Heq as <- <-.
      destruct (trichotomyT lexico key key) as [[Hlt| _]|Hgt]; [|done|].
      * by destruct (lexico_irrefl key).
      * by destruct (lexico_irrefl key).
    + pose proof (Hrest_above _ Hin) as Hk.
      destruct (trichotomyT lexico key k) as [[Hlt| ->]|Hgt].
      * destruct (lexico_irrefl key). by eapply lexico_trans.
      * by destruct (lexico_irrefl k).
      * by apply IH.
Qed.

Lemma locate_gap records low :
  index_sorted records →
  (∀ record, (key, record) ∉ records) →
  below key low →
  (∀ k record, (k, record) ∈ records → below k low) →
  ∃ low' high',
    locate records key low = Gap low' high'
    ∧ below key low' ∧ above key high'
    ∧ (low' = low ∨ ∃ l record, low' = Some l ∧ (l, record) ∈ records)
    ∧ is_slot_or_extreme records high'
    ∧ (∀ k record, (k, record) ∈ records → ¬ (below k low' ∧ above k high')).
Proof.
  intros Hsorted. revert low.
  induction Hsorted as [|[k0 v0] rest Hrest IH Hhead]; intros low Habsent Hlow Hall.
  - exists low, None. repeat split; try done; [by left|by left|].
    intros k record Hin. by apply elem_of_nil in Hin.
  - cbn [locate].
    assert (Hrest_above : ∀ k r, (k, r) ∈ rest → lexico k0 k).
    { intros k r Hr. by apply (proj1 (Forall_forall _ _) Hhead (k, r)). }
    destruct (trichotomyT lexico key k0) as [[Hlt| ->]|Hgt].
    + exists low, (Some k0). repeat split; try done; [by left| |].
      * right. exists k0, v0. split; [done|]. apply elem_of_cons. by left.
      * intros k record Hin [_ Habove]. cbn in Habove.
        apply elem_of_cons in Hin as [[= -> ->]|Hin].
        -- by destruct (lexico_irrefl k0).
        -- destruct (lexico_irrefl k0). eapply lexico_trans; [|done].
           by eapply Hrest_above.
    + destruct (Habsent v0). apply elem_of_cons. by left.
    + destruct (IH (Some k0)) as (low' & high' & Hloc & Hbelow & Habove & Hl & Hh & Hout).
      * intros record Hin. apply (Habsent record). apply elem_of_cons. by right.
      * done.
      * intros k record Hin. by eapply Hrest_above.
      * exists low', high'. split; [done|]. split; [done|]. split; [done|].
        assert (Hstored : ∃ l record, low' = Some l ∧ (l, record) ∈ (k0, v0) :: rest).
        { destruct Hl as [->|(l & r & -> & Hin)].
          - exists k0, v0. split; [done|]. apply elem_of_cons. by left.
          - exists l, r. split; [done|]. apply elem_of_cons. by right. }
        split; [by right|]. split.
        -- destruct Hh as [->|(h & r & -> & Hin)]; [by left|].
           right. exists h, r. split; [done|]. apply elem_of_cons. by right.
        -- intros k record Hin. apply elem_of_cons in Hin as [[= -> ->]|Hin];
             [|by eapply Hout].
           intros [Hb _]. destruct Hl as [->|(l & r & -> & Hin)]; cbn in Hb.
           ++ by destruct (lexico_irrefl k0).
           ++ destruct (lexico_irrefl k0). eapply lexico_trans; [|done].
              by eapply Hrest_above.
Qed.
End locate.

Lemma lexico_concrete (a b : Key) : bool_decide (lexico a b) = true → lexico a b.
Proof. apply bool_decide_eq_true_1. Qed.

Lemma sample_records_sorted : index_sorted sample_records.
Proof.
  unfold index_sorted, sample_records.
  repeat (constructor; [|repeat (constructor; [apply lexico_concrete; vm_compute; reflexivity|])]); constructor.
Qed.


(** C6, on the index as the list of its records in key order: for a key in
    the index, a capacity below the length of its payload gives
    [kErrorCodeStrTooSmallPayloadBuffer] with the capacity set to that length,
    and a sufficient capacity gives success with the payload copied and the
    capacity set to its length; for a key not in the index the answer is
    [kErrorCodeStrKeyNotFound] and one range-lock entry is added, whose bounds
    are the neighbouring slots of the key (or an end of the index) with no
    record between them. *)
Theorem get_record_outcomes (records : list (Key * list Z)) (context : Thread)
    (key : Key) (payload : list Z) (payload_capacity : Z) :
  index_sorted records →
  (∀ record, (key, record) ∈ records →
     (payload_capacity < Z.of_nat (length record) →
      error_code (get_record records context key payload payload_capacity)
      = kErrorCodeStrTooSmallPayloadBuffer
      ∧ payload_capacity_after
          (get_record records context key payload payload_capacity)
        = Z.of_nat (length record))
     ∧ (Z.of_nat (length record) ≤ payload_capacity →
        error_code (get_record records context key payload payload_capacity)
        = kErrorCodeOk
        ∧ take (length record)
            (payload_after (get_record records context key payload payload_capacity))
          = record
        ∧ payload_capacity_after
            (get_record records context key payload payload_capacity)
          = Z.of_nat (length record)))
  ∧ ((∀ record, (key, record) ∉ records) →
     error_code (get_record records context key payload payload_capacity)
     = kErrorCodeStrKeyNotFound
     ∧ ∃ low high,
         range_lock_read_set
           (context_after (get_record records context key payload payload_capacity))
         = mkRangeLock low high :: range_lock_read_set context
         ∧ below key low ∧ above key high
         ∧ is_slot_or_extreme records low
         ∧ is_slot_or_extreme records high
         ∧ (∀ k record, (k, record) ∈ records → ¬ (below k low ∧ above k high))).
Proof.
  intros Hsorted. split.
  - intros record Hin. unfold get_record.
    rewrite (locate_found key records None record Hsorted Hin).
    split; intros Hcap.
    + by rewrite (proj2 (Z.ltb_lt _ _) Hcap).
    + rewrite (proj2 (Z.ltb_ge _ _) Hcap). cbn. split; [done|]. split; [|done].
      by rewrite take_app_length.
  - intros Habsent. unfold get_record.
    destruct (locate_gap key records None Hsorted Habsent I)
      as (low & high & Hloc & Hbelow & Habove & Hlow & Hhigh & Hout); [done|].
    rewrite Hloc. cbn. split; [done|].
    exists low, high. repeat split; done.
Qed.

(** C6 on an index with the keys "a", "ab" and "b": "ab", whose payload has
    2 bytes, asked for with a capacity of 1, and the absent key "aa". *)
Lemma get_record_outcomes_witness :
  index_sorted sample_records
  ∧ error_code (get_record sample_records (mkThread []) [97; 98] [0] 1)
    = kErrorCodeStrTooSmallPayloadBuffer
  ∧ payload_capacity_after (get_record sample_records (mkThread []) [97; 98] [0] 1)
    = 2
  ∧ error_code (get_record sample_records (mkThread []) [97; 97] [0] 1)
    = kErrorCodeStrKeyNotFound
  ∧ ∃ low high,
      range_lock_read_set
        (context_after (get_record sample_records (mkThread []) [97; 97] [0] 1))
      = mkRangeLock low high :: range_lock_read_set (mkThread [])
      ∧ below [97; 97] low ∧ above [97; 97] high
      ∧ is_slot_or_extreme sample_records low
      ∧ is_slot_or_extreme sample_records high
      ∧ (∀ k record, (k, record) ∈ sample_records →
           ¬ (below k low ∧ above k high)).
Proof.
  split; [exact sample_records_sorted|].
  destruct (get_record_outcomes sample_records (mkThread []) [97; 98] [0] 1
              sample_records_sorted) as [Hpresent _].
  destruct (Hpresent [4; 5]) as [Hsmall _].
  { apply elem_of_cons. right. apply elem_of_cons. left. reflexivity. }
  destruct Hsmall as [Hcode Hcapacity]; [simpl; lia|].
  split; [exact Hcode|]. split; [exact Hcapacity|].
  destruct (get_record_outcomes sample_records (mkThread []) [97; 97] [0] 1
              sample_records_sorted) as [_ Habsent].
  apply Habsent. intros record Hin.
  repeat (apply elem_of_cons in Hin as [Hin|Hin]; [discriminate|]).
  by apply elem_of_nil in Hin.
Defined.

(** * Further properties of the page code *)

Import MasstreeBorderPage.

(** ** Searches for keys of at most 8 bytes *)

Lemma find_key_from_8_normalized p slice suffix todo i :
  find_key_from p slice suffix sizeof_KeySlice todo i
  = find_key_normalized_from p slice todo i.
Proof.
  revert i. induction todo as [|todo IH]; intros i; [done|].
  cbn [find_key_from find_key_normalized_from]. cbv zeta. rewrite IH.
  destruct (at_index (slices_ p) i) as [s|]; [|done]. cbn.
  by destruct (slice =? s).
Qed.

Lemma find_key_from_short_first p slice suffix remaining todo i :
  well_formed p → remaining ≤ sizeof_KeySlice →
  0 ≤ i → i + Z.of_nat todo ≤ kMaxKeys →
  ∃ r, find_key_from p slice suffix remaining todo i = Some r
       ∧ first_slot_holding p slice remaining i (i + Z.of_nat todo) r.
Proof.
  intros [(Hlen & Hsl & _) _] Hshort. revert i.
  induction todo as [|todo IH]; intros i Hi Hsum.
  - exists kMaxKeys. split; [done|]. left. split; [done|]. intros j Hj. lia.
  - unfold kMaxKeys in *. cbn [find_key_from]. cbv zeta.
    destruct (at_index_Some (slices_ p) i) as [s Hs]; [lia|].
    destruct (at_index_Some (remaining_key_length_ p) i) as [len Hl]; [lia|].
    rewrite Hs. cbn. rewrite wrap8_small by lia.
    destruct (IH (i + 1) ltac:(lia) ltac:(lia)) as (r & Hr & Hfirst).
    assert (Hskip : ¬ slot_holds p slice remaining i →
              first_slot_holding p slice remaining i (i + Z.of_nat (S todo)) r).
    { intros Hnot. destruct Hfirst as [[-> Hnone]|(Hrange & Hhold & Hnone)].
      - left. split; [done|]. intros j Hj.
        destruct (decide (j = i)) as [->|]; [done|]. apply Hnone. lia.
      - right. split; [lia|]. split; [done|]. intros j Hj.
        destruct (decide (j = i)) as [->|]; [done|]. apply Hnone. lia. }
    destruct (Z.eqb_spec slice s) as [<-|Hne]; cbn.
    + rewrite (proj2 (Z.leb_le _ _) Hshort), Hl. cbn.
      destruct (Z.eqb_spec len remaining) as [->|Hne].
      * exists i. split; [done|]. right. split; [lia|]. split; [done|].
        intros j Hj. lia.
      * exists r. split; [done|]. apply Hskip. intros [_ Hl']. congruence.
    + exists r. split; [done|]. apply Hskip. intros [Hs' _]. congruence.
Qed.

Lemma find_key_for_reserve_from_short_agrees p slice suffix remaining todo i :
  remaining ≤ sizeof_KeySlice → 0 ≤ i → i + Z.of_nat todo ≤ kMaxKeys →
  find_key_for_reserve_from p slice suffix remaining todo i
  = reserve_result_of <$> find_key_from p slice suffix remaining todo i.
Proof.
  intros Hshort. revert i. induction todo as [|todo IH]; intros i Hi Hsum; [done|].
  unfold kMaxKeys in *.
  cbn [find_key_for_reserve_from find_key_from]. cbv zeta.
  destruct todo as [|todo'].
  - cbn. destruct (at_index (slices_ p) i) as [s|]; [|done]. cbn.
    destruct (negb (slice =? s)); [done|].
    rewrite (proj2 (Z.leb_le _ _) Hshort).
    destruct (at_index (remaining_key_length_ p) i) as [len|]; [|done]. cbn.
    destruct (len =? remaining); [|done]. cbn. unfold reserve_result_of.
    by rewrite (proj2 (Z.eqb_neq i kMaxKeys)) by (unfold kMaxKeys; lia).
  - rewrite wrap8_small by lia. rewrite (IH (i + 1)) by lia.
    destruct (at_index (slices_ p) i) as [s|]; [|done]. cbn.
    destruct (negb (slice =? s)); [done|].
    rewrite (proj2 (Z.leb_le _ _) Hshort).
    destruct (at_index (remaining_key_length_ p) i) as [len|]; [|done]. cbn.
    destruct (len =? remaining); [|done]. cbn. unfold reserve_result_of.
    by rewrite (proj2 (Z.eqb_neq i kMaxKeys)) by (unfold kMaxKeys; lia).
Qed.

(** X1: [find_key_normalized] answers the first slot of
    [from_index, to_index) whose slice is the searched one and whose
    remaining key length is 8, and [kMaxKeys] exactly when the range has no
    such slot; slots of the same slice with another length are passed over. *)
Theorem find_key_normalized_finds_first_slot (p : t) (from_index to_index : Z)
    (slice : KeySlice) :
  well_formed p →
  0 ≤ from_index ≤ to_index →
  to_index ≤ kMaxKeys →
  ∃ r, find_key_normalized p from_index to_index slice = Some r
       ∧ first_slot_holding p slice sizeof_KeySlice from_index to_index r.
Proof.
  intros Hwf Hfrom Hto. unfold find_key_normalized.
  rewrite <- (find_key_from_8_normalized p slice []).
  destruct (find_key_from_short_first p slice [] sizeof_KeySlice
              (Z.to_nat (to_index - from_index)) from_index Hwf ltac:(done)
              ltac:(lia) ltac:(lia)) as (r & Hr & Hfirst).
  exists r. split; [done|].
  by replace (from_index + Z.of_nat (Z.to_nat (to_index - from_index)))
    with to_index in Hfirst by lia.
Qed.

Lemma find_key_normalized_finds_first_slot_witness :
  well_formed (the_page page_two_records)
  ∧ 0 ≤ 0 ≤ 2
  ∧ 2 ≤ kMaxKeys
  ∧ ∃ r, find_key_normalized (the_page page_two_records) 0 2 (slice_abcdefgh + 1)
         = Some r
         ∧ first_slot_holding (the_page page_two_records) (slice_abcdefgh + 1)
             sizeof_KeySlice 0 2 r.
Proof.
  assert (Hwf : well_formed (the_page page_two_records))
    by (apply well_formed_concrete; vm_compute; reflexivity).
  assert (Hfrom : 0 ≤ 0 ≤ 2) by lia.
  assert (Hto : 2 ≤ kMaxKeys) by (vm_compute; discriminate).
  repeat (split; [assumption|]).
  exact (find_key_normalized_finds_first_slot (the_page page_two_records) 0 2
           (slice_abcdefgh + 1) Hwf Hfrom Hto).
Defined.

(** X2: for a key of at most 8 bytes [find_key] answers the first slot below
    the key count that holds the slice with exactly this remaining length,
    and [kMaxKeys] exactly when there is none; the suffix is not looked at.
    [find_key_for_reserve] over the same slots gives the same index, as
    [kExactMatchLocalRecord] when a slot is found and [kNotFound] otherwise. *)
Theorem find_key_short_finds_first_slot (p : t) (stable : MasstreePageVersion)
    (slice : KeySlice) (suffix : list Z) (remaining : Z) :
  well_formed p →
  remaining ≤ sizeof_KeySlice →
  0 ≤ get_key_count stable ≤ kMaxKeys →
  ∃ r, find_key p stable slice suffix remaining = Some r
       ∧ first_slot_holding p slice remaining 0 (get_key_count stable) r
       ∧ find_key_for_reserve p 0 (get_key_count stable) slice suffix remaining
         = Some (reserve_result_of r).
Proof.
  intros Hwf Hshort Hcount. unfold kMaxKeys in *.
  unfold find_key, find_key_for_reserve. rewrite wrap8_small, Z.sub_0_r by lia.
  destruct (find_key_from_short_first p slice suffix remaining
              (Z.to_nat (get_key_count stable)) 0 Hwf Hshort ltac:(lia)
              ltac:(unfold kMaxKeys; lia)) as (r & Hr & Hfirst).
  exists r. split; [done|]. split.
  - by replace (0 + Z.of_nat (Z.to_nat (get_key_count stable)))
      with (get_key_count stable) in Hfirst by lia.
  - rewrite find_key_for_reserve_from_short_agrees by (unfold kMaxKeys; lia).
    by rewrite Hr.
Qed.

Lemma find_key_short_finds_first_slot_witness :
  well_formed page_8_then_9
  ∧ 8 ≤ sizeof_KeySlice
  ∧ 0 ≤ get_key_count (reader_version 2) ≤ kMaxKeys
  ∧ ∃ r, find_key page_8_then_9 (reader_version 2) slice_abcdefgh [] 8 = Some r
         ∧ first_slot_holding page_8_then_9 slice_abcdefgh 8 0
             (get_key_count (reader_version 2)) r
         ∧ find_key_for_reserve page_8_then_9 0 (get_key_count (reader_version 2))
             slice_abcdefgh [] 8
           = Some (reserve_result_of r).
Proof.
  assert (Hwf : well_formed page_8_then_9)
    by (apply well_formed_concrete; vm_compute; reflexivity).
  assert (Hshort : 8 ≤ sizeof_KeySlice) by (vm_compute; discriminate).
  assert (Hcount : 0 ≤ get_key_count (reader_version 2) ≤ kMaxKeys)
    by (split; vm_compute; discriminate).
  repeat (split; [assumption|]).
  exact (find_key_short_finds_first_slot page_8_then_9 (reader_version 2)
           slice_abcdefgh [] 8 Hwf Hshort Hcount).
Defined.

(** X3: [find_key_normalized] is [find_key] specialised to 8-byte keys: over
    the slots below the key count the two give the same answer, whatever the
    suffix handed to [find_key] and also where a read leaves the arrays. *)
Theorem find_key_of_8_bytes_is_normalized (p : t) (stable : MasstreePageVersion)
    (slice : KeySlice) (suffix : list Z) :
  0 ≤ get_key_count stable < 256 →
  find_key p stable slice suffix sizeof_KeySlice
  = find_key_normalized p 0 (get_key_count stable) slice.
Proof.
  intros Hcount. unfold find_key, find_key_normalized.
  rewrite wrap8_small, Z.sub_0_r by lia. apply find_key_from_8_normalized.
Qed.

Lemma find_key_of_8_bytes_is_normalized_witness :
  0 ≤ get_key_count (reader_version 2) < 256
  ∧ find_key page_8_then_9 (reader_version 2) slice_abcdefgh [65; 66] sizeof_KeySlice
    = find_key_normalized page_8_then_9 0 (get_key_count (reader_version 2))
        slice_abcdefgh.
Proof.
  assert (Hcount : 0 ≤ get_key_count (reader_version 2) < 256)
    by (split; [vm_compute; discriminate|reflexivity]).
  split; [assumption|].
  exact (find_key_of_8_bytes_is_normalized page_8_then_9 (reader_version 2)
           slice_abcdefgh [65; 66] Hcount).
Defined.

(** ** Searching a range in two steps *)

Lemma find_key_for_reserve_from_split p slice suffix remaining n m i :
  0 ≤ i → i + Z.of_nat n + Z.of_nat m ≤ 256 →
  find_key_for_reserve_from p slice suffix remaining (n + m) i
  = r ← find_key_for_reserve_from p slice suffix remaining n i;
    match match_type_ r with
    | kNotFound => find_key_for_reserve_from p slice suffix remaining m (i + Z.of_nat n)
    | _ => Some r
    end.
Proof.
  revert i. induction n as [|n IH]; intros i Hi Hsum.
  - cbn. by rewrite Z.add_0_r.
  - assert (Hnext :
      find_key_for_reserve_from p slice suffix remaining (n + m) (wrap8 (i + 1))
      = r ← find_key_for_reserve_from p slice suffix remaining n (wrap8 (i + 1));
        match match_type_ r with
        | kNotFound =>
            find_key_for_reserve_from p slice suffix remaining m (i + Z.of_nat (S n))
        | _ => Some r
        end).
    { destruct (decide (i + 1 < 256)) as [Hlt|Hge].
      - rewrite wrap8_small by lia. rewrite IH by lia.
        by replace (i + 1 + Z.of_nat n) with (i + Z.of_nat (S n)) by lia.
      - assert (n = 0%nat) as -> by lia. assert (m = 0%nat) as -> by lia. done. }
    change (S n + m)%nat with (S (n + m)).
    cbn [find_key_for_reserve_from]. cbv zeta. rewrite Hnext.
    repeat (match goal with
            | |- context [at_index ?a ?j] =>
                is_var j; destruct (at_index a j) eqn:?; cbn [mbind option_bind]
            | |- context [if ?b then _ else _] => destruct b eqn:?
            | |- context [does_point_to_layer ?q ?j] =>
                destruct (does_point_to_layer q j) as [[]|] eqn:?; cbn [mbind option_bind]
            | |- context [get_record ?q ?j] =>
                destruct (get_record q j) eqn:?; cbn [mbind option_bind]
            | |- context [memcmp_eq ?a ?b ?c ?d] =>
                destruct (memcmp_eq a b c d) as [[]|] eqn:?; cbn [mbind option_bind]
            end; try done).
Qed.

Lemma find_key_from_short_split p slice suffix remaining n m i :
  remaining ≤ sizeof_KeySlice → 0 ≤ i → i + Z.of_nat n ≤ kMaxKeys →
  find_key_from p slice suffix remaining (n + m) i
  = r ← find_key_from p slice suffix remaining n i;
    if r =? kMaxKeys
    then find_key_from p slice suffix remaining m (i + Z.of_nat n)
    else Some r.
Proof.
  intros Hshort. revert i. induction n as [|n IH]; intros i Hi Hsum.
  - cbn. by rewrite Z.add_0_r.
  - unfold kMaxKeys in *. change (S n + m)%nat with (S (n + m)).
    cbn [find_key_from]. cbv zeta.
    rewrite wrap8_small by lia. rewrite IH by lia.
    replace (i + 1 + Z.of_nat n) with (i + Z.of_nat (S n)) by lia.
    rewrite (proj2 (Z.leb_le _ _) Hshort).
    destruct (at_index (slices_ p) i) as [s|]; [|done]. cbn [mbind option_bind].
    destruct (negb (slice =? s)); [done|].
    destruct (at_index (remaining_key_length_ p) i) as [len|]; [|done].
    cbn [mbind option_bind]. destruct (len =? remaining); [|done].
    cbn [mbind option_bind]. by rewrite (proj2 (Z.eqb_neq i 64)) by lia.
Qed.

Lemma find_key_normalized_from_split p slice n m i :
  0 ≤ i → i + Z.of_nat n ≤ kMaxKeys →
  find_key_normalized_from p slice (n + m) i
  = r ← find_key_normalized_from p slice n i;
    if r =? kMaxKeys then find_key_normalized_from p slice m (i + Z.of_nat n)
    else Some r.
Proof.
  intros Hi Hsum. rewrite <- !(find_key_from_8_normalized p slice []).
  by apply find_key_from_short_split.
Qed.

(** X4: a search of [from_index, to_index) is the search of
    [from_index, middle) followed, when that finds nothing, by the search of
    [middle, to_index): a caller that has searched the slots of a stable
    version only needs to search the slots added since.  This holds for
    [find_key_for_reserve] with keys of any length, and for
    [find_key_normalized] when [middle] is at most [kMaxKeys]. *)
Theorem find_key_for_reserve_resumes (p : t) (from_index middle to_index : Z)
    (slice : KeySlice) (suffix : list Z) (remaining : Z) :
  0 ≤ from_index ≤ middle →
  middle ≤ to_index < 256 →
  find_key_for_reserve p from_index to_index slice suffix remaining
  = (r ← find_key_for_reserve p from_index middle slice suffix remaining;
     match match_type_ r with
     | kNotFound => find_key_for_reserve p middle to_index slice suffix remaining
     | _ => Some r
     end)
  ∧ (middle ≤ kMaxKeys →
     find_key_normalized p from_index to_index slice
     = r ← find_key_normalized p from_index middle slice;
       if r =? kMaxKeys then find_key_normalized p middle to_index slice
       else Some r).
Proof.
  intros Hfrom Hto.
  assert (Hsplit : Z.to_nat (to_index - from_index)
            = (Z.to_nat (middle - from_index) + Z.to_nat (to_index - middle))%nat)
    by lia.
  assert (Hmid : from_index + Z.of_nat (Z.to_nat (middle - from_index)) = middle)
    by lia.
  split.
  - unfold find_key_for_reserve. rewrite Hsplit.
    rewrite find_key_for_reserve_from_split by lia. by rewrite Hmid.
  - intros Hmax. unfold find_key_normalized. rewrite Hsplit.
    rewrite find_key_normalized_from_split by lia. by rewrite Hmid.
Qed.

Lemma find_key_for_reserve_resumes_witness :
  0 ≤ 0 ≤ 1
  ∧ 1 ≤ 2 < 256
  ∧ find_key_for_reserve (the_page page_two_records) 0 2 (slice_abcdefgh + 1) [] 8
    = (r ← find_key_for_reserve (the_page page_two_records) 0 1
             (slice_abcdefgh + 1) [] 8;
       match match_type_ r with
       | kNotFound =>
           find_key_for_reserve (the_page page_two_records) 1 2
             (slice_abcdefgh + 1) [] 8
       | _ => Some r
       end)
  ∧ (1 ≤ kMaxKeys →
     find_key_normalized (the_page page_two_records) 0 2 (slice_abcdefgh + 1)
     = r ← find_key_normalized (the_page page_two_records) 0 1 (slice_abcdefgh + 1);
       if r =? kMaxKeys
       then find_key_normalized (the_page page_two_records) 1 2 (slice_abcdefgh + 1)
       else Some r).
Proof.
  assert (Hfrom : 0 ≤ 0 ≤ 1) by lia.
  assert (Hto : 1 ≤ 2 < 256) by lia.
  repeat (split; [assumption|]).
  exact (find_key_for_reserve_resumes (the_page page_two_records) 0 1 2
           (slice_abcdefgh + 1) [] 8 Hfrom Hto).
Defined.

(** ** Pointers to the next layer *)

Lemma find_key_from_layer_pointer p slice suffix remaining todo i index :
  sizeof_KeySlice < remaining →
  0 ≤ i ≤ index → index < i + Z.of_nat todo → index < kMaxKeys →
  length (remaining_key_length_ p) = Z.to_nat kMaxKeys →
  length (slices_ p) = Z.to_nat kMaxKeys →
  (∀ j len, i ≤ j < index → at_index (slices_ p) j = Some slice →
            at_index (remaining_key_length_ p) j = Some len → len ≤ sizeof_KeySlice) →
  slot_holds p slice kKeyLengthNextLayer index →
  find_key_from p slice suffix remaining todo i = Some index
  ∧ find_key_for_reserve_from p slice suffix remaining todo i
    = Some (mkResult index kExactMatchLayerPointer).
Proof.
  intros Hlong Hi Htodo Hmax Hlen Hsl Hshort [Hslice Hptr].
  unfold kMaxKeys in *.
  pose proof (proj2 (Z.leb_gt _ _) Hlong) as Hlongb.
  assert (Hshortb : ∀ j len, i ≤ j < index → at_index (slices_ p) j = Some slice →
            at_index (remaining_key_length_ p) j = Some len →
            (len <=? sizeof_KeySlice) = true ∧ (sizeof_KeySlice <? len) = false
            ∧ len ≠ kKeyLengthNextLayer ∧ len ≠ remaining).
  { intros j len Hj Hs Hl. pose proof (Hshort j len Hj Hs Hl) as Hle.
    split; [by apply Z.leb_le|]. split; [by apply Z.ltb_ge|].
    unfold kKeyLengthNextLayer, sizeof_KeySlice in *. lia. }
  clear Hshort Hlong. revert i Hi Htodo Hshortb.
  induction todo as [|todo IH]; intros i Hi Htodo Hshort; [lia|].
  cbn [find_key_from find_key_for_reserve_from]. cbv zeta.
  rewrite Hlongb. unfold does_point_to_layer.
  destruct (decide (i = index)) as [->|Hne].
  - rewrite Hslice. cbn [mbind option_bind]. rewrite Z.eqb_refl. cbn [negb].
    rewrite Hptr. cbn [mbind option_bind]. by rewrite Z.eqb_refl.
  - destruct (at_index_Some (slices_ p) i) as [s Hs]; [lia|].
    destruct (at_index_Some (remaining_key_length_ p) i) as [len Hl]; [lia|].
    rewrite wrap8_small by lia.
    destruct (IH (i + 1) ltac:(lia) ltac:(lia)) as [IH1 IH2].
    { intros j len' Hj. apply Hshort. lia. }
    rewrite IH1, IH2, Hs. cbn [mbind option_bind].
    destruct (Z.eqb_spec slice s) as [<-|Hns]; cbn [negb]; [|done].
    rewrite Hl. cbn [mbind option_bind].
    destruct (Hshort i len ltac:(lia) Hs Hl) as (Hle & Hgt & Hnl & Hnr).
    rewrite (proj2 (Z.eqb_neq _ _) Hnl), (proj2 (Z.eqb_neq _ _) Hnr).
    cbn [mbind option_bind]. by rewrite Hle, Hgt.
Qed.

(** X5: a key of more than 8 bytes whose slice is held by a slot that points
    to the next layer is sent to that slot whatever its suffix and length,
    provided the slots before it that hold the slice are keys of at most 8
    bytes: [find_key] answers the slot and [find_key_for_reserve] answers it
    as [kExactMatchLayerPointer].  No byte of [data_] is compared. *)
Theorem find_key_follows_layer_pointer (p : t) (stable : MasstreePageVersion)
    (index : Z) (slice : KeySlice) (suffix : list Z) (remaining : Z) :
  sized p →
  0 ≤ index < get_key_count stable →
  get_key_count stable ≤ kMaxKeys →
  sizeof_KeySlice < remaining →
  slot_holds p slice kKeyLengthNextLayer index →
  (∀ j len, 0 ≤ j < index → at_index (slices_ p) j = Some slice →
            at_index (remaining_key_length_ p) j = Some len → len ≤ sizeof_KeySlice) →
  find_key p stable slice suffix remaining = Some index
  ∧ find_key_for_reserve p 0 (get_key_count stable) slice suffix remaining
    = Some (mkResult index kExactMatchLayerPointer).
Proof.
  intros Hsized Hidx Hcount Hlong Hptr Hshort. unfold kMaxKeys in *.
  unfold find_key, find_key_for_reserve. rewrite wrap8_small, Z.sub_0_r by lia.
  destruct Hsized as (Hl1 & Hl2 & _).
  apply find_key_from_layer_pointer; try done; unfold kMaxKeys; lia.
Qed.

Lemma find_key_follows_layer_pointer_witness :
  sized page_with_layer_pointer
  ∧ 0 ≤ 1 < get_key_count (reader_version 2)
  ∧ get_key_count (reader_version 2) ≤ kMaxKeys
  ∧ sizeof_KeySlice < 11
  ∧ slot_holds page_with_layer_pointer slice_abcdefgh kKeyLengthNextLayer 1
  ∧ (∀ j len, 0 ≤ j < 1 →
       at_index (slices_ page_with_layer_pointer) j = Some slice_abcdefgh →
       at_index (remaining_key_length_ page_with_layer_pointer) j = Some len →
       len ≤ sizeof_KeySlice)
  ∧ find_key page_with_layer_pointer (reader_version 2) slice_abcdefgh [66; 67; 68] 11
    = Some 1
  ∧ find_key_for_reserve page_with_layer_pointer 0 (get_key_count (reader_version 2))
      slice_abcdefgh [66; 67; 68] 11
    = Some (mkResult 1 kExactMatchLayerPointer).
Proof.
  assert (Hsized : sized page_with_layer_pointer)
    by (apply well_formed_concrete; vm_compute; reflexivity).
  assert (Hidx : 0 ≤ 1 < get_key_count (reader_version 2))
    by (split; [vm_compute; discriminate|reflexivity]).
  assert (Hcount : get_key_count (reader_version 2) ≤ kMaxKeys)
    by (vm_compute; discriminate).
  assert (Hlong : sizeof_KeySlice < 11) by reflexivity.
  assert (Hptr : slot_holds page_with_layer_pointer slice_abcdefgh
                   kKeyLengthNextLayer 1)
    by (split; vm_compute; reflexivity).
  assert (Hshort : ∀ j len, 0 ≤ j < 1 →
            at_index (slices_ page_with_layer_pointer) j = Some slice_abcdefgh →
            at_index (remaining_key_length_ page_with_layer_pointer) j = Some len →
            len ≤ sizeof_KeySlice).
  { intros j len Hj. assert (j = 0) as -> by lia. vm_compute.
    intros _ [= <-]. discriminate. }
  repeat (split; [assumption|]).
  exact (find_key_follows_layer_pointer page_with_layer_pointer (reader_version 2)
           1 slice_abcdefgh [66; 67; 68] 11 Hsized Hidx Hcount Hlong Hptr Hshort).
Defined.

(** X6: [set_next_layer] followed by a search.  Once slot [index] has been
    turned into a pointer to the next layer, every key of more than 8 bytes
    with the slice of that slot is found at [index] as a layer pointer,
    provided the slots before it that hold the slice are keys of at most 8
    bytes. *)
Theorem set_next_layer_then_find_key (p p' : t) (stable : MasstreePageVersion)
    (index : Z) (pointer : DualPagePointer) (slice : KeySlice) (suffix : list Z)
    (remaining : Z) :
  sized p →
  set_next_layer p index pointer = Some p' →
  index < get_key_count stable ≤ kMaxKeys →
  sizeof_KeySlice < remaining →
  at_index (slices_ p) index = Some slice →
  (∀ j len, 0 ≤ j < index → at_index (slices_ p) j = Some slice →
            at_index (remaining_key_length_ p) j = Some len → len ≤ sizeof_KeySlice) →
  find_key p' stable slice suffix remaining = Some index
  ∧ find_key_for_reserve p' 0 (get_key_count stable) slice suffix remaining
    = Some (mkResult index kExactMatchLayerPointer).
Proof.
  intros Hsized Hset Hcount Hlong Hslice Hshort.
  destruct (set_next_layer_arrays _ _ _ _ Hset) as (Hidx & _ & Hsl & Hlen).
  pose proof Hsized as (Hl1 & Hl2 & Hl3 & Hl4 & Hl5 & Hl6). unfold kMaxKeys in *.
  unfold find_key, find_key_for_reserve. rewrite wrap8_small, Z.sub_0_r by lia.
  assert (Hptr : slot_holds p' slice kKeyLengthNextLayer index).
  { split; [by rewrite Hsl|]. rewrite Hlen. apply at_index_insert_eq. lia. }
  apply find_key_from_layer_pointer; try done; try (unfold kMaxKeys; lia).
  - by rewrite Hlen, length_insert.
  - by rewrite Hsl.
  - intros j len Hj Hs Hl. rewrite Hsl in Hs.
    rewrite Hlen, at_index_insert_ne in Hl by lia. by apply (Hshort j).
Qed.

Lemma set_next_layer_then_find_key_witness :
  sized page_8_then_9
  ∧ set_next_layer page_8_then_9 1 (mkDual 0 4096) = Some page_with_layer_pointer
  ∧ 1 < get_key_count (reader_version 2) ≤ kMaxKeys
  ∧ sizeof_KeySlice < 11
  ∧ at_index (slices_ page_8_then_9) 1 = Some slice_abcdefgh
  ∧ (∀ j len, 0 ≤ j < 1 →
       at_index (slices_ page_8_then_9) j = Some slice_abcdefgh →
       at_index (remaining_key_length_ page_8_then_9) j = Some len →
       len ≤ sizeof_KeySlice)
  ∧ find_key page_with_layer_pointer (reader_version 2) slice_abcdefgh [66; 67; 68] 11
    = Some 1
  ∧ find_key_for_reserve page_with_layer_pointer 0 (get_key_count (reader_version 2))
      slice_abcdefgh [66; 67; 68] 11
    = Some (mkResult 1 kExactMatchLayerPointer).
Proof.
  assert (Hsized : sized page_8_then_9)
    by (apply well_formed_concrete; vm_compute; reflexivity).
  assert (Hset : set_next_layer page_8_then_9 1 (mkDual 0 4096)
                 = Some page_with_layer_pointer)
    by (vm_compute; reflexivity).
  assert (Hcount : 1 < get_key_count (reader_version 2) ≤ kMaxKeys)
    by (split; [reflexivity|vm_compute; discriminate]).
  assert (Hlong : sizeof_KeySlice < 11) by reflexivity.
  assert (Hslice : at_index (slices_ page_8_then_9) 1 = Some slice_abcdefgh)
    by (vm_compute; reflexivity).
  assert (Hshort : ∀ j len, 0 ≤ j < 1 →
            at_index (slices_ page_8_then_9) j = Some slice_abcdefgh →
            at_index (remaining_key_length_ page_8_then_9) j = Some len →
            len ≤ sizeof_KeySlice).
  { intros j len Hj. assert (j = 0) as -> by lia. vm_compute.
    intros _ [= <-]. discriminate. }
  repeat (split; [assumption|]).
  exact (set_next_layer_then_find_key page_8_then_9 page_with_layer_pointer
           (reader_version 2) 1 (mkDual 0 4096) slice_abcdefgh [66; 67; 68] 11
           Hsized Hset Hcount Hlong Hslice Hshort).
Defined.

(** ** The slot for a key of more than 8 bytes *)

Lemma slot_for_long_key_skip p slice remaining i to_index r :
  ¬ slot_holds_long p slice i →
  slot_for_long_key p slice remaining (i + 1) to_index r →
  slot_for_long_key p slice remaining i to_index r.
Proof.
  intros Hnot [[-> Hnone]|(Hrange & Hlong & Hfirst & Hkind)].
  - left. split; [done|]. intros j Hj.
    destruct (decide (j = i)) as [->|]; [done|]. apply Hnone. lia.
  - right. split; [lia|]. split; [done|]. split; [|done]. intros j Hj.
    destruct (decide (j = i)) as [->|]; [done|]. apply Hfirst. lia.
Qed.

Lemma find_key_for_reserve_from_long p slice suffix remaining todo i r :
  sizeof_KeySlice < remaining → 0 ≤ i → i + Z.of_nat todo ≤ kMaxKeys →
  find_key_for_reserve_from p slice suffix remaining todo i = Some r →
  slot_for_long_key p slice remaining i (i + Z.of_nat todo) r.
Proof.
  intros Hlong. pose proof (proj2 (Z.leb_gt _ _) Hlong) as Hlongb.
  revert i. induction todo as [|todo IH]; intros i Hi Hsum Hr.
  - cbn in Hr. injection Hr as <-. left. split; [done|]. intros j Hj. lia.
  - unfold kMaxKeys in *. cbn [find_key_for_reserve_from] in Hr. cbv zeta in Hr.
    rewrite wrap8_small, Hlongb in Hr by lia.
    assert (Hnext : find_key_for_reserve_from p slice suffix remaining todo (i + 1)
                    = Some r →
                    ¬ slot_holds_long p slice i →
                    slot_for_long_key p slice remaining i (i + Z.of_nat (S todo)) r).
    { intros Hr' Hnot. apply slot_for_long_key_skip; [done|].
      replace (i + Z.of_nat (S todo)) with (i + 1 + Z.of_nat todo) by lia.
      apply IH; [lia|unfold kMaxKeys; lia|done]. }
    destruct (at_index (slices_ p) i) as [s|] eqn:Hs; [|done].
    cbn [mbind option_bind] in Hr.
    destruct (Z.eqb_spec slice s) as [<-|Hne]; cbn [negb] in Hr.
    2:{ apply Hnext; [done|]. intros (len & [Hs' _] & _). congruence. }
    unfold does_point_to_layer in Hr.
    destruct (at_index (remaining_key_length_ p) i) as [len|] eqn:Hl; [|done].
    cbn [mbind option_bind] in Hr.
    assert (Hhere : ∀ kind,
              sizeof_KeySlice < len →
              match kind with
              | kNotFound => False
              | kExactMatchLayerPointer => len = kKeyLengthNextLayer
              | kExactMatchLocalRecord => len = remaining ∧ len ≠ kKeyLengthNextLayer
              | kConflictingLocalRecord => len ≠ kKeyLengthNextLayer
              end →
              slot_for_long_key p slice remaining i (i + Z.of_nat (S todo))
                (mkResult i kind)).
    { intros kind Hlen Hkind. right. cbn [index_ match_type_].
      split; [lia|]. split; [by exists len|]. split; [intros j Hj; lia|].
      destruct kind.
      - done.
      - destruct Hkind as [-> Hnl]. split; [done|]. intros [_ Hl']. congruence.
      - by subst len.
      - intros [_ Hl']. congruence. }
    destruct (Z.eqb_spec len kKeyLengthNextLayer) as [Hptr|Hnoptr].
    { injection Hr as <-. apply Hhere; [|done].
      rewrite Hptr. reflexivity. }
    destruct (Z.leb_spec len sizeof_KeySlice) as [Hshort|Hlen].
    { apply Hnext; [done|]. intros (len' & [_ Hl'] & Hlen'). 
      assert (len' = len) by congruence. lia. }
    destruct (at_index (offsets_ p) i) as [o|]; [|done].
    cbn [mbind option_bind] in Hr.
    destruct (get_record p o) as [record_suffix|]; [|done].
    cbn [mbind option_bind] in Hr.
    destruct (Z.eqb_spec len remaining) as [Hsame|Hdiff].
    + destruct (memcmp_eq (data_ p) record_suffix suffix (remaining - sizeof_KeySlice))
        as [[]|]; [| |done]; cbn [mbind option_bind] in Hr; injection Hr as <-;
        by apply Hhere.
    + injection Hr as <-. by apply Hhere.
Qed.

(** X7: the slot that [find_key_for_reserve] gives a key of more than 8
    bytes.  On a page whose arrays have their sizes, with a suffix buffer of
    at least [remaining - 8] bytes and the compared records inside [data_],
    it answers, and the answer is this: [kNotFound] with [kMaxKeys] means
    that no slot of the range holds the slice with a remaining length above
    8; otherwise the index is the first slot of the range that does, "the
    slot we are looking for": [kExactMatchLayerPointer] exactly when that
    slot points to the next layer, [kExactMatchLocalRecord] only for a slot
    of the same remaining length, [kConflictingLocalRecord] for another
    local record.  Shorter keys of the same slice are passed over. *)
Theorem find_key_for_reserve_long_key_slot (p : t) (from_index to_index : Z)
    (slice : KeySlice) (suffix : list Z) (remaining : Z) :
  well_formed p →
  sizeof_KeySlice < remaining →
  remaining - sizeof_KeySlice ≤ Z.of_nat (length suffix) →
  0 ≤ from_index ≤ to_index →
  to_index ≤ kMaxKeys →
  opened_records_inside p slice remaining to_index →
  ∃ r, find_key_for_reserve p from_index to_index slice suffix remaining = Some r
       ∧ slot_for_long_key p slice remaining from_index to_index r.
Proof.
  intros Hwf Hlong Hsuffix Hfrom Hto Hopened. unfold find_key_for_reserve.
  assert (Hend : from_index + Z.of_nat (Z.to_nat (to_index - from_index))
                 = to_index) by lia.
  destruct (find_key_for_reserve_from_long_total p slice suffix remaining
              (Z.to_nat (to_index - from_index)) from_index) as [r Hr];
    [done|done|done|lia|lia|by rewrite Hend|].
  exists r. split; [done|].
  apply find_key_for_reserve_from_long in Hr; [|done|lia|lia].
  by rewrite Hend in Hr.
Qed.

Lemma find_key_for_reserve_long_key_slot_witness :
  well_formed page_8_then_9
  ∧ sizeof_KeySlice < 9
  ∧ 9 - sizeof_KeySlice ≤ Z.of_nat (length [65])
  ∧ 0 ≤ 0 ≤ 2
  ∧ 2 ≤ kMaxKeys
  ∧ opened_records_inside page_8_then_9 slice_abcdefgh 9 2
  ∧ ∃ r, find_key_for_reserve page_8_then_9 0 2 slice_abcdefgh [65] 9 = Some r
         ∧ slot_for_long_key page_8_then_9 slice_abcdefgh 9 0 2 r.
Proof.
  assert (Hwf : well_formed page_8_then_9)
    by (apply well_formed_concrete; vm_compute; reflexivity).
  assert (Hlong : sizeof_KeySlice < 9) by reflexivity.
  assert (Hsuffix : 9 - sizeof_KeySlice ≤ Z.of_nat (length [65]))
    by (vm_compute; discriminate).
  assert (Hfrom : 0 ≤ 0 ≤ 2) by lia.
  assert (Hto : 2 ≤ kMaxKeys) by (vm_compute; discriminate).
  assert (Hopened : opened_records_inside page_8_then_9 slice_abcdefgh 9 2).
  { apply (opened_records_inside_fewer _ _ _ kMaxKeys); [exact Hto|].
    exact page_8_then_9_records_inside. }
  repeat (split; [assumption|]).
  exact (find_key_for_reserve_long_key_slot page_8_then_9 0 2 slice_abcdefgh [65] 9
           Hwf Hlong Hsuffix Hfrom Hto Hopened).
Defined.

Lemma find_key_from_of_reserve p slice suffix remaining todo i r :
  find_key_for_reserve_from p slice suffix remaining todo i = Some r →
  find_key_from p slice suffix remaining todo i = Some (found_index r).
Proof.
  revert i r. induction todo as [|todo IH]; intros i r Hr.
  - cbn in Hr. by injection Hr as <-.
  - cbn [find_key_for_reserve_from] in Hr. cbv zeta in Hr.
    cbn [find_key_from]. cbv zeta.
    destruct (at_index (slices_ p) i) as [s|]; [|done].
    cbn [mbind option_bind] in *.
    destruct (negb (slice =? s)); [by apply IH|].
    destruct (Z.leb_spec remaining sizeof_KeySlice) as [Hshort|Hlong].
    { destruct (at_index (remaining_key_length_ p) i) as [len|]; [|done].
      cbn [mbind option_bind] in *.
      destruct (len =? remaining); [by injection Hr as <-|by apply IH]. }
    unfold does_point_to_layer in *.
    destruct (at_index (remaining_key_length_ p) i) as [len|]; [|done].
    cbn [mbind option_bind] in *.
    destruct (len =? kKeyLengthNextLayer); [by injection Hr as <-|].
    destruct (Z.leb_spec len sizeof_KeySlice) as [Hlen|Hlen].
    { rewrite (proj2 (Z.eqb_neq len remaining)) by lia. cbn [mbind option_bind].
      rewrite (proj2 (Z.ltb_ge sizeof_KeySlice len)) by lia. by apply IH. }
    rewrite (proj2 (Z.ltb_lt sizeof_KeySlice len)) by lia.
    destruct (at_index (offsets_ p) i) as [o|]; [|done].
    cbn [mbind option_bind] in *.
    destruct (get_record p o) as [record_suffix|]; [|done].
    cbn [mbind option_bind] in *.
    destruct (len =? remaining); [|by injection Hr as <-].
    destruct (memcmp_eq (data_ p) record_suffix suffix (remaining - sizeof_KeySlice))
      as [[]|]; [| |done]; cbn [mbind option_bind] in *; by injection Hr as <-.
Qed.

(** X8: [find_key] is [find_key_for_reserve] with conflicts reported as
    misses.  On a page whose arrays have their sizes, for a key of at most 8
    bytes, or a longer one with a suffix buffer of at least [remaining - 8]
    bytes and the compared records inside [data_], both searches of the
    slots below the key count answer, and [find_key] gives the index of
    [find_key_for_reserve] for [kExactMatchLocalRecord] and
    [kExactMatchLayerPointer], and [kMaxKeys] for [kConflictingLocalRecord]
    and [kNotFound]. *)
Theorem find_key_agrees_with_find_key_for_reserve (p : t)
    (stable : MasstreePageVersion) (slice : KeySlice) (suffix : list Z)
    (remaining : Z) :
  well_formed p →
  0 ≤ get_key_count stable ≤ kMaxKeys →
  (sizeof_KeySlice < remaining →
   remaining - sizeof_KeySlice ≤ Z.of_nat (length suffix)
   ∧ opened_records_inside p slice remaining (get_key_count stable)) →
  ∃ r, find_key_for_reserve p 0 (get_key_count stable) slice suffix remaining
       = Some r
       ∧ find_key p stable slice suffix remaining = Some (found_index r).
Proof.
  intros Hwf Hcount Hkey. unfold find_key_for_reserve, find_key.
  rewrite Z.sub_0_r. unfold kMaxKeys in Hcount. rewrite wrap8_small by lia.
  assert (Hanswer : is_Some (find_key_for_reserve_from p slice suffix remaining
                               (Z.to_nat (get_key_count stable)) 0)).
  { destruct (Z.leb_spec remaining sizeof_KeySlice) as [Hshort|Hlong].
    - apply find_key_for_reserve_from_short_total;
        [done|done|lia|unfold kMaxKeys; lia].
    - destruct (Hkey Hlong) as [Hsuffix Hopened].
      apply find_key_for_reserve_from_long_total;
        [done|done|done|lia|unfold kMaxKeys; lia|].
      by replace (0 + Z.of_nat (Z.to_nat (get_key_count stable)))
        with (get_key_count stable) by lia. }
  destruct Hanswer as [r Hr]. exists r. split; [done|].
  by apply find_key_from_of_reserve.
Qed.

Lemma find_key_agrees_with_find_key_for_reserve_witness :
  well_formed page_8_then_9
  ∧ 0 ≤ get_key_count (reader_version 2) ≤ kMaxKeys
  ∧ (sizeof_KeySlice < 9 →
     9 - sizeof_KeySlice ≤ Z.of_nat (length [65])
     ∧ opened_records_inside page_8_then_9 slice_abcdefgh 9
         (get_key_count (reader_version 2)))
  ∧ ∃ r, find_key_for_reserve page_8_then_9 0 (get_key_count (reader_version 2))
           slice_abcdefgh [65] 9 = Some r
         ∧ find_key page_8_then_9 (reader_version 2) slice_abcdefgh [65] 9
           = Some (found_index r).
Proof.
  assert (Hwf : well_formed page_8_then_9)
    by (apply well_formed_concrete; vm_compute; reflexivity).
  assert (Hcount : 0 ≤ get_key_count (reader_version 2) ≤ kMaxKeys)
    by (vm_compute; split; discriminate).
  assert (Hkey : sizeof_KeySlice < 9 →
                 9 - sizeof_KeySlice ≤ Z.of_nat (length [65])
                 ∧ opened_records_inside page_8_then_9 slice_abcdefgh 9
                     (get_key_count (reader_version 2))).
  { intros _. split; [vm_compute; discriminate|].
    apply (opened_records_inside_fewer _ _ _ kMaxKeys);
      [vm_compute; discriminate|].
    exact page_8_then_9_records_inside. }
  repeat (split; [assumption|]).
  exact (find_key_agrees_with_find_key_for_reserve page_8_then_9
           (reader_version 2) slice_abcdefgh [65] 9 Hwf Hcount Hkey).
Defined.

(** ** A reserved slot and the searches *)

Lemma find_key_from_short_ext p q slice suffix suffix' remaining todo i :
  remaining ≤ sizeof_KeySlice → 0 ≤ i → i + Z.of_nat todo ≤ 256 →
  (∀ j, i ≤ j < i + Z.of_nat todo →
        at_index (slices_ q) j = at_index (slices_ p) j
        ∧ at_index (remaining_key_length_ q) j = at_index (remaining_key_length_ p) j) →
  find_key_from q slice suffix' remaining todo i
  = find_key_from p slice suffix remaining todo i.
Proof.
  intros Hshort. revert i. induction todo as [|todo IH]; intros i Hi Hsum Hsame; [done|].
  cbn [find_key_from]. cbv zeta.
  destruct (Hsame i ltac:(lia)) as [-> ->].
  rewrite (proj2 (Z.leb_le _ _) Hshort).
  destruct todo as [|todo']; [done|].
  rewrite wrap8_small by lia. rewrite IH; [done|lia|lia|].
  intros j Hj. apply Hsame. lia.
Qed.

(** A search for a short key after [reserve_record_space] filled slot
    [index]: the search of the older slots, then the look at the new slot. *)
Lemma find_key_from_after_reserve p p' index owner slice suffix remaining payload
    slice' suffix' suffix'' remaining' :
  sized p →
  remaining' ≤ sizeof_KeySlice →
  reserve_record_space p index owner slice suffix remaining payload = Some p' →
  find_key_from p' slice' suffix' remaining' (Z.to_nat (index + 1)) 0
  = r ← find_key_from p slice' suffix'' remaining' (Z.to_nat index) 0;
    if r =? kMaxKeys
    then (if negb (slice' =? slice) then Some kMaxKeys
          else if remaining =? remaining' then Some index else Some kMaxKeys)
    else Some r.
Proof.
  intros (Hl1 & Hl2 & _) Hshort Hres.
  destruct (reserve_record_space_arrays _ _ _ _ _ _ _ _ Hres)
    as (Hidx & _ & Hsl & Hlen).
  unfold kMaxKeys in *.
  replace (Z.to_nat (index + 1)) with (Z.to_nat index + 1)%nat by lia.
  rewrite find_key_from_short_split by (unfold kMaxKeys; lia).
  rewrite (find_key_from_short_ext p p' slice' suffix'' suffix' remaining'
             (Z.to_nat index) 0); try lia.
  - destruct (find_key_from p slice' suffix'' remaining' (Z.to_nat index) 0)
      as [r|]; [|done].
    cbn [mbind option_bind]. change kMaxKeys with 64. destruct (r =? 64); [|done].
    rewrite Z.add_0_l, Z2Nat.id by lia.
    cbn [find_key_from]. cbv zeta.
    rewrite Hsl, Hlen, !at_index_insert_eq by lia. cbn [mbind option_bind].
    rewrite (proj2 (Z.leb_le _ _) Hshort). done.
  - intros j Hj. rewrite Hsl, Hlen. rewrite !at_index_insert_ne by lia. done.
Qed.

(** X9: reservation followed by a search.  When a key of at most 8 bytes was
    not found among the slots of the page and [reserve_record_space] then
    filled the next slot with it, [find_key] over the slots including the new
    one answers the new slot, and [find_key_for_reserve] answers it as
    [kExactMatchLocalRecord]. *)
Theorem reserve_record_space_then_find_key (p p' : t) (index : Z) (owner : XctId)
    (slice : KeySlice) (suffix suffix' : list Z) (remaining payload : Z)
    (before after : MasstreePageVersion) :
  sized p →
  0 ≤ remaining ≤ sizeof_KeySlice →
  get_key_count before = index →
  get_key_count after = index + 1 →
  find_key p before slice suffix remaining = Some kMaxKeys →
  reserve_record_space p index owner slice suffix remaining payload = Some p' →
  find_key p' after slice suffix' remaining = Some index
  ∧ find_key_for_reserve p' 0 (index + 1) slice suffix' remaining
    = Some (mkResult index kExactMatchLocalRecord).
Proof.
  intros Hsized Hshort Hbefore Hafter Hnone Hres.
  destruct (reserve_record_space_arrays _ _ _ _ _ _ _ _ Hres) as (Hidx & _).
  pose proof Hsized as (_ & Hl2 & _). unfold kMaxKeys in *.
  assert (Hfind : find_key_from p' slice suffix' remaining (Z.to_nat (index + 1)) 0
            = Some index).
  { rewrite (find_key_from_after_reserve p p' index owner slice suffix remaining
               payload slice suffix' suffix remaining Hsized ltac:(lia) Hres).
    unfold find_key in Hnone. rewrite Hbefore, wrap8_small in Hnone by lia.
    rewrite Hnone. cbn [mbind option_bind]. by rewrite !Z.eqb_refl. }
  split.
  - unfold find_key. rewrite Hafter, wrap8_small by lia. done.
  - unfold find_key_for_reserve. rewrite Z.sub_0_r.
    rewrite find_key_for_reserve_from_short_agrees by (unfold kMaxKeys; lia).
    rewrite Hfind. cbn. unfold reserve_result_of.
    by rewrite (proj2 (Z.eqb_neq index kMaxKeys)) by (unfold kMaxKeys; lia).
Qed.

Lemma reserve_record_space_then_find_key_witness :
  sized page_one_record_locked
  ∧ 0 ≤ 8 ≤ sizeof_KeySlice
  ∧ get_key_count (reader_version 1) = 1
  ∧ get_key_count (reader_version 2) = 1 + 1
  ∧ find_key page_one_record_locked (reader_version 1) slice_abcdefgh [] 8
    = Some kMaxKeys
  ∧ reserve_record_space page_one_record_locked 1 77 slice_abcdefgh [] 8 100
    = Some page_second_record
  ∧ find_key page_second_record (reader_version 2) slice_abcdefgh [] 8 = Some 1
  ∧ find_key_for_reserve page_second_record 0 (1 + 1) slice_abcdefgh [] 8
    = Some (mkResult 1 kExactMatchLocalRecord).
Proof.
  assert (Hsized : sized page_one_record_locked)
    by (apply well_formed_concrete; vm_compute; reflexivity).
  assert (Hshort : 0 ≤ 8 ≤ sizeof_KeySlice) by (split; vm_compute; discriminate).
  assert (Hbefore : get_key_count (reader_version 1) = 1) by reflexivity.
  assert (Hafter : get_key_count (reader_version 2) = 1 + 1) by reflexivity.
  assert (Hnone : find_key page_one_record_locked (reader_version 1)
                    slice_abcdefgh [] 8 = Some kMaxKeys)
    by (vm_compute; reflexivity).
  assert (Hres : reserve_record_space page_one_record_locked 1 77 slice_abcdefgh
                   [] 8 100 = Some page_second_record)
    by (vm_compute; reflexivity).
  repeat (split; [assumption|]).
  exact (reserve_record_space_then_find_key page_one_record_locked
           page_second_record 1 77 slice_abcdefgh [] [] 8 100 (reader_version 1)
           (reader_version 2) Hsized Hshort Hbefore Hafter Hnone Hres).
Defined.

(** X10: [reserve_record_space] changes the search for no other key of at
    most 8 bytes: a key that differs from the reserved one in its slice or in
    its length is found at the same slot as before, or nowhere as before. *)
Theorem reserve_record_space_keeps_other_lookups (p p' : t) (index : Z)
    (owner : XctId) (slice slice' : KeySlice) (suffix suffix' : list Z)
    (remaining remaining' payload : Z) (before after : MasstreePageVersion) :
  sized p →
  remaining' ≤ sizeof_KeySlice →
  slice' ≠ slice ∨ remaining' ≠ remaining →
  get_key_count before = index →
  get_key_count after = index + 1 →
  reserve_record_space p index owner slice suffix remaining payload = Some p' →
  find_key p' after slice' suffix' remaining'
  = find_key p before slice' suffix' remaining'.
Proof.
  intros Hsized Hshort Hother Hbefore Hafter Hres.
  destruct (reserve_record_space_arrays _ _ _ _ _ _ _ _ Hres) as (Hidx & _).
  pose proof Hsized as (_ & Hl2 & _). unfold kMaxKeys in *.
  unfold find_key. rewrite Hbefore, Hafter, !wrap8_small by lia.
  rewrite (find_key_from_after_reserve p p' index owner slice suffix remaining
             payload slice' suffix' suffix' remaining' Hsized Hshort Hres).
  destruct (find_key_from p slice' suffix' remaining' (Z.to_nat index) 0)
    as [r|] eqn:Hr; [|done].
  cbn [mbind option_bind]. destruct (Z.eqb_spec r kMaxKeys) as [->|]; [|done].
  destruct (Z.eqb_spec slice' slice) as [->|]; cbn [negb]; [|done].
  destruct (Z.eqb_spec remaining remaining') as [->|]; [|done].
  by destruct Hother.
Qed.

Lemma reserve_record_space_keeps_other_lookups_witness :
  sized page_one_record_locked
  ∧ 7 ≤ sizeof_KeySlice
  ∧ (slice_abcdefgh ≠ slice_abcdefgh ∨ 7 ≠ 8)
  ∧ get_key_count (reader_version 1) = 1
  ∧ get_key_count (reader_version 2) = 1 + 1
  ∧ reserve_record_space page_one_record_locked 1 77 slice_abcdefgh [] 8 100
    = Some page_second_record
  ∧ find_key page_second_record (reader_version 2) slice_abcdefgh [] 7
    = find_key page_one_record_locked (reader_version 1) slice_abcdefgh [] 7.
Proof.
  assert (Hsized : sized page_one_record_locked)
    by (apply well_formed_concrete; vm_compute; reflexivity).
  assert (Hshort : 7 ≤ sizeof_KeySlice) by (vm_compute; discriminate).
  assert (Hother : slice_abcdefgh ≠ slice_abcdefgh ∨ 7 ≠ 8) by (right; lia).
  assert (Hbefore : get_key_count (reader_version 1) = 1) by reflexivity.
  assert (Hafter : get_key_count (reader_version 2) = 1 + 1) by reflexivity.
  assert (Hres : reserve_record_space page_one_record_locked 1 77 slice_abcdefgh
                   [] 8 100 = Some page_second_record)
    by (vm_compute; reflexivity).
  repeat (split; [assumption|]).
  exact (reserve_record_space_keeps_other_lookups page_one_record_locked
           page_second_record 1 77 slice_abcdefgh slice_abcdefgh [] [] 8 7 100
           (reader_version 1) (reader_version 2) Hsized Hshort Hother Hbefore
           Hafter Hres).
Defined.

(** ** The record heap after a reservation *)

Lemma heap_descends_chain p count j k oj ok :
  sized p → count ≤ kMaxKeys → heap_descends p count →
  0 ≤ j → j ≤ k → k < count →
  at_index (offsets_ p) j = Some oj → at_index (offsets_ p) k = Some ok →
  ok ≤ oj.
Proof.
  intros (_ & _ & Hlen & _) Hcount Hdesc Hj Hjk Hk Hoj. unfold kMaxKeys in *.
  assert (Hgen : ∀ d : nat, ∀ ok', j + Z.of_nat d < count →
            at_index (offsets_ p) (j + Z.of_nat d) = Some ok' → ok' ≤ oj).
  { induction d as [|d IH]; intros ok' Hd Hok'.
    - rewrite Z.add_0_r in Hok'. assert (ok' = oj) by congruence. lia.
    - destruct (at_index_Some (offsets_ p) (j + Z.of_nat d)) as [om Hom]; [lia|].
      pose proof (IH om ltac:(lia) Hom).
      pose proof (Hdesc (j + Z.of_nat (S d)) om ok' ltac:(lia)) as Hstep.
      replace (j + Z.of_nat (S d) - 1) with (j + Z.of_nat d) in Hstep by lia.
      specialize (Hstep Hom Hok'). lia. }
  intros Hok. apply (Hgen (Z.to_nat (k - j))); [lia|].
  by replace (j + Z.of_nat (Z.to_nat (k - j))) with k by lia.
Qed.

(** X11: [reserve_record_space] keeps the page a page.  On a call that meets
    its assertions and keeps suffix and payload within the data region, the
    arrays keep their sizes and element types, the records of all slots up to
    the new one start inside the data region, and the record heap still
    descends: what the next reservation relies on holds again. *)
Theorem reserve_record_space_keeps_invariants (p : t) (index : Z)
    (initial_owner_id : XctId) (slice : KeySlice) (suffix : list Z)
    (remaining_length payload_count : Z) :
  well_formed p →
  records_inside_data p index →
  heap_descends p index →
  0 ≤ index < kMaxKeys →
  0 ≤ remaining_length ≤ kKeyLengthMax →
  0 ≤ payload_count →
  can_accomodate p index remaining_length payload_count = Some true →
  calculate_suffix_length remaining_length + payload_count ≤ kDataSize →
  calculate_suffix_length remaining_length ≤ Z.of_nat (length suffix) →
  is_uint64 slice → is_uint64 initial_owner_id → Forall is_uint8 suffix →
  ∃ p',
    reserve_record_space p index initial_owner_id slice suffix remaining_length
      payload_count = Some p'
    ∧ well_formed p'
    ∧ records_inside_data p' (index + 1)
    ∧ heap_descends p' (index + 1).
Proof.
  intros Hwf Hold Hdesc Hidx Hrem Hpay Hroom Hsmall Hsuffix Hslice Howner Hbytes.
  destruct (reserve_record_space_effect p index remaining_length payload_count
              initial_owner_id slice suffix Hwf Hold Hidx Hrem Hpay Hroom
              Hsmall Hsuffix)
    as (p' & start & o' & Hres & Hstart & Ho' & Hrange & Hend & _ & Hsl & Hlen
        & Hpl & Hown & Hoff & Hdata).
  exists p'. split; [done|].
  pose proof Hwf as [(Hl1 & Hl2 & Hl3 & Hl4 & Hl5 & Hl6) (Ht1 & Ht2 & Ht3 & Ht4 & Ht5 & Ht6)].
  unfold kMaxKeys, kKeyLengthMax in *. change kDataSize with 2752 in *.
  pose proof (calculate_suffix_length_bounds remaining_length ltac:(lia)) as [Hs Hsr].
  split; [|split].
  - split.
    + unfold sized. rewrite Hsl, Hlen, Hpl, Hown, Hoff, Hdata.
      rewrite !length_insert, length_inserts. done.
    + unfold typed. rewrite Hsl, Hlen, Hpl, Hown, Hoff, Hdata.
      repeat split; try (apply Forall_insert; [done|]); try done.
      * unfold is_uint8. lia.
      * unfold is_uint8. lia.
      * unfold is_uint16. lia.
      * apply Forall_inserts; [done|]. by apply Forall_take.
  - intros j o Hj Ho. rewrite Hoff in Ho.
    change (Z.shiftr kDataSize 4) with 172.
    destruct (decide (j = index)) as [->|Hne].
    + rewrite at_index_insert_eq in Ho by lia. injection Ho as <-. lia.
    + rewrite at_index_insert_ne in Ho by lia.
      apply (Hold j o); [lia|done].
  - intros j o o1 Hj Ho Ho1. rewrite Hoff in Ho, Ho1.
    rewrite at_index_insert_ne in Ho by lia.
    destruct (decide (j = index)) as [->|Hne].
    + rewrite at_index_insert_eq in Ho1 by lia. injection Ho1 as <-.
      unfold previous_record_start in Hstart.
      rewrite (proj2 (Z.eqb_neq index 0)) in Hstart by lia.
      rewrite Ho in Hstart. cbn in Hstart. injection Hstart as <-.
      rewrite calculate_record_size_exact in Ho' by lia.
      pose proof (align16_bounds (calculate_suffix_length remaining_length
                                  + payload_count)). lia.
    + rewrite at_index_insert_ne in Ho1 by lia.
      apply (Hdesc j o o1); [lia|done|done].
Qed.

Lemma reserve_record_space_keeps_invariants_witness :
  well_formed page_one_record_locked
  ∧ records_inside_data page_one_record_locked 1
  ∧ heap_descends page_one_record_locked 1
  ∧ 0 ≤ 1 < kMaxKeys
  ∧ 0 ≤ 10 ≤ kKeyLengthMax
  ∧ 0 ≤ 100
  ∧ can_accomodate page_one_record_locked 1 10 100 = Some true
  ∧ calculate_suffix_length 10 + 100 ≤ kDataSize
  ∧ calculate_suffix_length 10 ≤ Z.of_nat (length [66; 67])
  ∧ is_uint64 slice_abcdefgh
  ∧ is_uint64 77
  ∧ Forall is_uint8 [66; 67]
  ∧ ∃ p',
      reserve_record_space page_one_record_locked 1 77 slice_abcdefgh [66; 67]
        10 100 = Some p'
      ∧ well_formed p'
      ∧ records_inside_data p' (1 + 1)
      ∧ heap_descends p' (1 + 1).
Proof.
  assert (Hwf : well_formed page_one_record_locked)
    by (apply well_formed_concrete; vm_compute; reflexivity).
  assert (Hold : records_inside_data page_one_record_locked 1).
  { intros j o Hj. assert (j = 0) as -> by lia. vm_compute. intros [= <-].
    discriminate. }
  assert (Hdesc : heap_descends page_one_record_locked 1)
    by (intros j o o' Hj; lia).
  assert (Hidx : 0 ≤ 1 < kMaxKeys) by (split; [lia|reflexivity]).
  assert (Hrem : 0 ≤ 10 ≤ kKeyLengthMax) by (split; vm_compute; discriminate).
  assert (Hpay : 0 ≤ 100) by lia.
  assert (Hroom : can_accomodate page_one_record_locked 1 10 100 = Some true)
    by (vm_compute; reflexivity).
  assert (Hsmall : calculate_suffix_length 10 + 100 ≤ kDataSize)
    by (vm_compute; discriminate).
  assert (Hsuffix : calculate_suffix_length 10 ≤ Z.of_nat (length [66; 67]))
    by (vm_compute; discriminate).
  assert (Hslice : is_uint64 slice_abcdefgh)
    by (split; [vm_compute; discriminate|reflexivity]).
  assert (Howner : is_uint64 77) by (split; [vm_compute; discriminate|reflexivity]).
  assert (Hbytes : Forall is_uint8 [66; 67])
    by (repeat constructor; vm_compute; discriminate).
  repeat (split; [assumption|]).
  exact (reserve_record_space_keeps_invariants page_one_record_locked 1 77
           slice_abcdefgh [66; 67] 10 100 Hwf Hold Hdesc Hidx Hrem Hpay Hroom
           Hsmall Hsuffix Hslice Howner Hbytes).
Defined.

(** X12: the record that [reserve_record_space] lays out.  On such a call the
    new record starts at a multiple of 16 inside [data_]; the suffix and the
    payload of the slot, with the lengths that [get_suffix_length] and
    [get_payload_length] then report, end inside [data_] and at or before the
    start of the record of every older slot, so the payload written later
    touches no older record; the slot is not a layer pointer; and unless the
    record is empty its offset is below [kDataSize >> 4], as [get_record]
    asserts. *)
Theorem reserve_record_space_record_extent (p : t) (index : Z)
    (initial_owner_id : XctId) (slice : KeySlice) (suffix : list Z)
    (remaining_length payload_count : Z) :
  well_formed p →
  records_inside_data p index →
  heap_descends p index →
  0 ≤ index < kMaxKeys →
  0 ≤ remaining_length ≤ kKeyLengthMax →
  0 ≤ payload_count →
  can_accomodate p index remaining_length payload_count = Some true →
  calculate_suffix_length remaining_length + payload_count ≤ kDataSize →
  calculate_suffix_length remaining_length ≤ Z.of_nat (length suffix) →
  ∃ p' record suffix_length,
    reserve_record_space p index initial_owner_id slice suffix remaining_length
      payload_count = Some p'
    ∧ get_record p' index = Some record
    ∧ get_suffix_length p' index = Some suffix_length
    ∧ suffix_length = calculate_suffix_length remaining_length
    ∧ get_payload_length p' index = Some payload_count
    ∧ does_point_to_layer p' index = Some false
    ∧ 0 ≤ record
    ∧ record mod 16 = 0
    ∧ record + suffix_length + payload_count ≤ kDataSize
    ∧ (∀ j older, 0 ≤ j < index → get_record p' j = Some older →
                  record + suffix_length + payload_count ≤ older)
    ∧ (0 < suffix_length + payload_count →
       ∃ o, at_index (offsets_ p') index = Some o ∧ o < Z.shiftr kDataSize 4).
Proof.
  intros Hwf Hold Hdesc Hidx Hrem Hpay Hroom Hsmall Hsuffix.
  destruct (reserve_record_space_effect p index remaining_length payload_count
              initial_owner_id slice suffix Hwf Hold Hidx Hrem Hpay Hroom
              Hsmall Hsuffix)
    as (p' & start & o' & Hres & Hstart & Ho' & Hrange & Hend & _ & Hsl & Hlen
        & Hpl & Hown & Hoff & Hdata).
  pose proof Hwf as [Hsized _].
  pose proof Hsized as (Hl1 & Hl2 & Hl3 & Hl4 & Hl5 & Hl6).
  unfold kMaxKeys, kKeyLengthMax in *. change kDataSize with 2752 in *.
  pose proof (calculate_suffix_length_bounds remaining_length ltac:(lia)) as [Hs Hsr].
  rewrite calculate_record_size_exact in Ho' by lia.
  pose proof (align16_bounds (calculate_suffix_length remaining_length
                              + payload_count)) as Hal.
  exists p', (16 * o'), (calculate_suffix_length remaining_length).
  assert (Hshift : ∀ o, 0 ≤ o < 256 → Z.shiftl (wrap16 o) 4 = 16 * o).
  { intros o Ho. rewrite wrap16_small by lia.
    rewrite Z.shiftl_mul_pow2 by lia. change (2 ^ 4) with 16. lia. }
  split; [done|]. split.
  { rewrite get_record_slot by (unfold kMaxKeys; lia).
    rewrite Hoff, at_index_insert_eq by lia. cbn.
    by rewrite Hshift by lia. }
  split.
  { unfold get_suffix_length. rewrite Hlen, at_index_insert_eq by lia. cbn.
    rewrite calculate_suffix_length_eq by lia. unfold sizeof_KeySlice. f_equal.
    destruct (Z.leb_spec remaining_length 8), (Z.leb_spec 8 remaining_length);
      try lia. apply wrap16_small. lia. }
  split; [done|]. split.
  { unfold get_payload_length. by rewrite Hpl, at_index_insert_eq by lia. }
  split.
  { unfold does_point_to_layer. rewrite Hlen, at_index_insert_eq by lia. cbn.
    f_equal. apply Z.eqb_neq. unfold kKeyLengthNextLayer. lia. }
  split; [lia|]. split; [by rewrite Z.mul_comm, Z.mod_mul|]. split; [lia|]. split.
  - intros j older Hj Holder.
    rewrite get_record_slot in Holder by (unfold kMaxKeys; lia).
    rewrite Hoff, at_index_insert_ne in Holder by lia.
    destruct (at_index (offsets_ p) j) as [oj|] eqn:Hoj; [|done].
    cbn in Holder. injection Holder as <-.
    pose proof (well_formed_offset p j oj Hwf Hoj).
    rewrite Hshift by lia.
    unfold previous_record_start in Hstart.
    rewrite (proj2 (Z.eqb_neq index 0)) in Hstart by lia.
    destruct (at_index (offsets_ p) (index - 1)) as [prev|] eqn:Hprev; [|done].
    cbn in Hstart. injection Hstart as <-.
    pose proof (heap_descends_chain p index j (index - 1) oj prev Hsized
                  ltac:(unfold kMaxKeys; lia) Hdesc ltac:(lia) ltac:(lia)
                  ltac:(lia) Hoj Hprev).
    lia.
  - intros Hpos. exists o'. split; [by rewrite Hoff, at_index_insert_eq by lia|].
    change (Z.shiftr 2752 4) with 172. lia.
Qed.

Lemma reserve_record_space_record_extent_witness :
  well_formed page_one_record_locked
  ∧ records_inside_data page_one_record_locked 1
  ∧ heap_descends page_one_record_locked 1
  ∧ 0 ≤ 1 < kMaxKeys
  ∧ 0 ≤ 10 ≤ kKeyLengthMax
  ∧ 0 ≤ 100
  ∧ can_accomodate page_one_record_locked 1 10 100 = Some true
  ∧ calculate_suffix_length 10 + 100 ≤ kDataSize
  ∧ calculate_suffix_length 10 ≤ Z.of_nat (length [66; 67])
  ∧ ∃ p' record suffix_length,
      reserve_record_space page_one_record_locked 1 77 slice_abcdefgh [66; 67]
        10 100 = Some p'
      ∧ get_record p' 1 = Some record
      ∧ get_suffix_length p' 1 = Some suffix_length
      ∧ suffix_length = calculate_suffix_length 10
      ∧ get_payload_length p' 1 = Some 100
      ∧ does_point_to_layer p' 1 = Some false
      ∧ 0 ≤ record
      ∧ record mod 16 = 0
      ∧ record + suffix_length + 100 ≤ kDataSize
      ∧ (∀ j older, 0 ≤ j < 1 → get_record p' j = Some older →
                    record + suffix_length + 100 ≤ older)
      ∧ (0 < suffix_length + 100 →
         ∃ o, at_index (offsets_ p') 1 = Some o ∧ o < Z.shiftr kDataSize 4).
Proof.
  assert (Hwf : well_formed page_one_record_locked)
    by (apply well_formed_concrete; vm_compute; reflexivity).
  assert (Hold : records_inside_data page_one_record_locked 1).
  { intros j o Hj. assert (j = 0) as -> by lia. vm_compute. intros [= <-].
    discriminate. }
  assert (Hdesc : heap_descends page_one_record_locked 1)
    by (intros j o o' Hj; lia).
  assert (Hidx : 0 ≤ 1 < kMaxKeys) by (split; [lia|reflexivity]).
  assert (Hrem : 0 ≤ 10 ≤ kKeyLengthMax) by (split; vm_compute; discriminate).
  assert (Hpay : 0 ≤ 100) by lia.
  assert (Hroom : can_accomodate page_one_record_locked 1 10 100 = Some true)
    by (vm_compute; reflexivity).
  assert (Hsmall : calculate_suffix_length 10 + 100 ≤ kDataSize)
    by (vm_compute; discriminate).
  assert (Hsuffix : calculate_suffix_length 10 ≤ Z.of_nat (length [66; 67]))
    by (vm_compute; discriminate).
  repeat (split; [assumption|]).
  exact (reserve_record_space_record_extent page_one_record_locked 1 77
           slice_abcdefgh [66; 67] 10 100 Hwf Hold Hdesc Hidx Hrem Hpay Hroom
           Hsmall Hsuffix).
Defined.

Lemma align16_monotone x y : x ≤ y → align16 x ≤ align16 y.
Proof.
  intros Hle. unfold align16.
  apply Z.mul_le_mono_nonneg_r; [lia|]. apply Z.div_le_mono; lia.
Qed.

Lemma calculate_suffix_length_monotone a b :
  0 ≤ a ≤ b → b < 256 →
  calculate_suffix_length a ≤ calculate_suffix_length b.
Proof.
  intros Ha Hb. rewrite !calculate_suffix_length_eq by lia.
  unfold sizeof_KeySlice.
  destruct (Z.leb_spec 8 a), (Z.leb_spec 8 b); lia.
Qed.

(** X13: below the 16-bit wrap of the record size, [can_accomodate] is
    monotone: where a record fits, every record of a key no longer and a
    payload no larger fits as well. *)
Theorem can_accomodate_smaller_record (p : t)
    (new_index remaining_length payload_count smaller_length smaller_count : Z) :
  0 ≤ smaller_length ≤ remaining_length →
  remaining_length ≤ kKeyLengthMax →
  0 ≤ smaller_count ≤ payload_count →
  calculate_suffix_length remaining_length + payload_count ≤ 65520 →
  can_accomodate p new_index remaining_length payload_count = Some true →
  can_accomodate p new_index smaller_length smaller_count = Some true.
Proof.
  intros Hlen Hmax Hcount Hsum. unfold kKeyLengthMax in *.
  pose proof (calculate_suffix_length_monotone smaller_length remaining_length
                ltac:(lia) ltac:(lia)) as Hmono.
  pose proof (calculate_suffix_length_bounds smaller_length ltac:(lia)) as [Hs _].
  unfold can_accomodate. destruct (new_index =? 0); [done|]. cbv zeta.
  destruct (at_index (offsets_ p) (new_index - 1)) as [o|]; [|done].
  cbn [mbind option_bind]. intros [= Hroom%Z.leb_le]. f_equal. apply Z.leb_le.
  rewrite calculate_record_size_exact in * by lia.
  pose proof (align16_monotone (calculate_suffix_length smaller_length + smaller_count)
                (calculate_suffix_length remaining_length + payload_count)
                ltac:(lia)).
  lia.
Qed.

Lemma can_accomodate_smaller_record_witness :
  0 ≤ 9 ≤ 10
  ∧ 10 ≤ kKeyLengthMax
  ∧ 0 ≤ 50 ≤ 100
  ∧ calculate_suffix_length 10 + 100 ≤ 65520
  ∧ can_accomodate page_one_record_locked 1 10 100 = Some true
  ∧ can_accomodate page_one_record_locked 1 9 50 = Some true.
Proof.
  assert (Hlen : 0 ≤ 9 ≤ 10) by lia.
  assert (Hmax : 10 ≤ kKeyLengthMax) by (vm_compute; discriminate).
  assert (Hcount : 0 ≤ 50 ≤ 100) by lia.
  assert (Hsum : calculate_suffix_length 10 + 100 ≤ 65520)
    by (vm_compute; discriminate).
  assert (Hroom : can_accomodate page_one_record_locked 1 10 100 = Some true)
    by (vm_compute; reflexivity).
  repeat (split; [assumption|]).
  exact (can_accomodate_smaller_record page_one_record_locked 1 10 100 9 50
           Hlen Hmax Hcount Hsum Hroom).
Defined.

(** ** Turning a reserved record into a pointer to the next layer *)

Lemma length_bytes_of_dual pointer : length (bytes_of_dual pointer) = 16%nat.
Proof. reflexivity. Qed.

Lemma set_next_layer_effect p index pointer o :
  sized p → 0 ≤ index < kMaxKeys →
  at_index (offsets_ p) index = Some o → 0 ≤ o → 16 * o + 16 ≤ kDataSize →
  set_next_layer p index pointer
  = Some (mk (base p)
            (<[Z.to_nat index := kKeyLengthNextLayer]> (remaining_key_length_ p))
            (slices_ p) (offsets_ p) (payload_length_ p) (owner_ids_ p)
            (list_inserts (Z.to_nat (16 * o)) (bytes_of_dual pointer) (data_ p))).
Proof.
  intros (Hl1 & _ & _ & _ & _ & Hl6) Hidx Ho Hpos Hfit.
  unfold kMaxKeys in *. change kDataSize with 2752 in *.
  unfold set_next_layer. rewrite write_index_Some by lia. cbn [mbind option_bind].
  rewrite get_next_layer_slot by (unfold kMaxKeys; lia).
  cbn [offsets_]. rewrite Ho. cbn [mbind option_bind].
  rewrite wrap16_small by lia. rewrite Z.shiftl_mul_pow2 by lia.
  change (2 ^ 4) with 16. rewrite (Z.mul_comm o 16).
  unfold write_bytes. cbn [data_]. rewrite length_bytes_of_dual.
  rewrite decide_True by lia. done.
Qed.

(** X14: records are aligned to 16 bytes "so that we can later replace
    records to next-layer pointer".  The record reserved for a key of more
    than 8 bytes is at least 16 bytes long, so [set_next_layer] on that slot
    stores the whole [DualPagePointer] inside the slot's own record: the slot
    then holds its slice with the length [kKeyLengthNextLayer], the pointer
    is read back at [get_next_layer], no byte of [data_] outside the record
    differs from the page before the reservation, and the other slots keep
    their entries. *)
Theorem set_next_layer_within_reserved_record (p : t) (index : Z)
    (initial_owner_id : XctId) (slice : KeySlice) (suffix : list Z)
    (remaining_length payload_count : Z) (pointer : DualPagePointer) :
  well_formed p →
  records_inside_data p index →
  0 ≤ index < kMaxKeys →
  sizeof_KeySlice < remaining_length ≤ kKeyLengthMax →
  0 ≤ payload_count →
  can_accomodate p index remaining_length payload_count = Some true →
  calculate_suffix_length remaining_length + payload_count ≤ kDataSize →
  calculate_suffix_length remaining_length ≤ Z.of_nat (length suffix) →
  ∃ p' p'' record start,
    reserve_record_space p index initial_owner_id slice suffix remaining_length
      payload_count = Some p'
    ∧ previous_record_start p index = Some start
    ∧ get_record p' index = Some record
    ∧ set_next_layer p' index pointer = Some p''
    ∧ 0 ≤ record ∧ record + 16 ≤ start ≤ kDataSize
    ∧ slot_holds p'' slice kKeyLengthNextLayer index
    ∧ get_next_layer p'' index = Some record
    ∧ read_bytes (data_ p'') record 16 = Some (bytes_of_dual pointer)
    ∧ (∀ a, ¬ (record ≤ a < start) → at_index (data_ p'') a = at_index (data_ p) a)
    ∧ (∀ j, j ≠ index →
         at_index (slices_ p'') j = at_index (slices_ p) j
         ∧ at_index (remaining_key_length_ p'') j = at_index (remaining_key_length_ p) j
         ∧ at_index (payload_length_ p'') j = at_index (payload_length_ p) j
         ∧ at_index (offsets_ p'') j = at_index (offsets_ p) j
         ∧ at_index (owner_ids_ p'') j = at_index (owner_ids_ p) j).
Proof.
  intros Hwf Hold Hidx Hrem Hpay Hroom Hsmall Hsuffix.
  assert (Hrem' : 0 ≤ remaining_length ≤ kKeyLengthMax)
    by (unfold sizeof_KeySlice in *; lia).
  destruct (reserve_record_space_effect p index remaining_length payload_count
              initial_owner_id slice suffix Hwf Hold Hidx Hrem' Hpay Hroom
              Hsmall Hsuffix)
    as (p' & start & o' & Hres & Hstart & Ho' & Hrange & Hend & Hbase & Hsl & Hlen
        & Hpl & Hown & Hoff & Hdata).
  pose proof Hwf as [Hsized _].
  pose proof Hsized as (Hl1 & Hl2 & Hl3 & Hl4 & Hl5 & Hl6).
  unfold kMaxKeys, kKeyLengthMax, sizeof_KeySlice in *.
  change kDataSize with 2752 in *.
  pose proof (calculate_suffix_length_bounds remaining_length ltac:(lia)) as [Hs Hsr].
  rewrite calculate_record_size_exact in Ho' by lia.
  pose proof (align16_bounds (calculate_suffix_length remaining_length
                              + payload_count)) as Hal.
  pose proof (align16_multiple (calculate_suffix_length remaining_length
                                + payload_count)) as Hmul.
  assert (Hsl1 : 1 ≤ calculate_suffix_length remaining_length).
  { rewrite calculate_suffix_length_eq by lia. unfold sizeof_KeySlice.
    rewrite (proj2 (Z.leb_le 8 remaining_length)) by lia. lia. }
  assert (Hsized' : sized p').
  { unfold sized. rewrite Hsl, Hlen, Hpl, Hown, Hoff, Hdata.
    rewrite !length_insert, length_inserts. done. }
  assert (Hoff' : at_index (offsets_ p') index = Some o')
    by (rewrite Hoff; apply at_index_insert_eq; lia).
  pose proof (set_next_layer_effect p' index pointer o' Hsized'
                ltac:(unfold kMaxKeys; lia) Hoff' ltac:(lia)
                ltac:(change kDataSize with 2752; lia)) as Hset.
  eexists p', _, (16 * o'), start.
  split; [done|]. split; [done|]. split.
  { rewrite get_record_slot by (unfold kMaxKeys; lia).
    rewrite Hoff'. cbn. rewrite wrap16_small by lia.
    rewrite Z.shiftl_mul_pow2 by lia. change (2 ^ 4) with 16. f_equal. lia. }
  split; [exact Hset|]. cbn [slices_ remaining_key_length_ payload_length_ offsets_
    owner_ids_ data_].
  split; [lia|]. split; [lia|]. split.
  { split.
    - rewrite Hsl. apply at_index_insert_eq. lia.
    - apply at_index_insert_eq. rewrite Hlen, length_insert. lia. }
  split.
  { rewrite get_next_layer_slot by (unfold kMaxKeys; lia).
    cbn [offsets_]. rewrite Hoff'. cbn.
    rewrite wrap16_small by lia.
    rewrite Z.shiftl_mul_pow2 by lia. change (2 ^ 4) with 16. f_equal. lia. }
  split.
  { change 16 with (Z.of_nat (length (bytes_of_dual pointer))) at 2.
    apply read_bytes_inserts; [lia|].
    rewrite length_bytes_of_dual, Hdata, length_inserts. lia. }
  split.
  - intros a Ha.
    rewrite at_index_inserts_outside
      by (rewrite ?length_bytes_of_dual; lia).
    rewrite Hdata. apply at_index_inserts_outside; [lia|].
    rewrite length_take. lia.
  - intros j Hj. rewrite Hsl, Hlen, Hpl, Hoff, Hown.
    destruct (decide (0 ≤ index)) as [H0|]; [|lia].
    rewrite !at_index_insert_ne by done. done.
Qed.

Lemma set_next_layer_within_reserved_record_witness :
  well_formed page_one_record_locked
  ∧ records_inside_data page_one_record_locked 1
  ∧ 0 ≤ 1 < kMaxKeys
  ∧ sizeof_KeySlice < 10 ≤ kKeyLengthMax
  ∧ 0 ≤ 100
  ∧ can_accomodate page_one_record_locked 1 10 100 = Some true
  ∧ calculate_suffix_length 10 + 100 ≤ kDataSize
  ∧ calculate_suffix_length 10 ≤ Z.of_nat (length [66; 67])
  ∧ ∃ p' p'' record start,
      reserve_record_space page_one_record_locked 1 77 slice_abcdefgh [66; 67]
        10 100 = Some p'
      ∧ previous_record_start page_one_record_locked 1 = Some start
      ∧ get_record p' 1 = Some record
      ∧ set_next_layer p' 1 (mkDual 0 4096) = Some p''
      ∧ 0 ≤ record ∧ record + 16 ≤ start ≤ kDataSize
      ∧ slot_holds p'' slice_abcdefgh kKeyLengthNextLayer 1
      ∧ get_next_layer p'' 1 = Some record
      ∧ read_bytes (data_ p'') record 16 = Some (bytes_of_dual (mkDual 0 4096))
      ∧ (∀ a, ¬ (record ≤ a < start) →
              at_index (data_ p'') a = at_index (data_ page_one_record_locked) a)
      ∧ (∀ j, j ≠ 1 →
           at_index (slices_ p'') j = at_index (slices_ page_one_record_locked) j
           ∧ at_index (remaining_key_length_ p'') j
             = at_index (remaining_key_length_ page_one_record_locked) j
           ∧ at_index (payload_length_ p'') j
             = at_index (payload_length_ page_one_record_locked) j
           ∧ at_index (offsets_ p'') j = at_index (offsets_ page_one_record_locked) j
           ∧ at_index (owner_ids_ p'') j
             = at_index (owner_ids_ page_one_record_locked) j).
Proof.
  assert (Hwf : well_formed page_one_record_locked)
    by (apply well_formed_concrete; vm_compute; reflexivity).
  assert (Hold : records_inside_data page_one_record_locked 1).
  { intros j o Hj. assert (j = 0) as -> by lia. vm_compute. intros [= <-].
    discriminate. }
  assert (Hidx : 0 ≤ 1 < kMaxKeys) by (split; [lia|reflexivity]).
  assert (Hrem : sizeof_KeySlice < 10 ≤ kKeyLengthMax)
    by (split; [reflexivity|vm_compute; discriminate]).
  assert (Hpay : 0 ≤ 100) by lia.
  assert (Hroom : can_accomodate page_one_record_locked 1 10 100 = Some true)
    by (vm_compute; reflexivity).
  assert (Hsmall : calculate_suffix_length 10 + 100 ≤ kDataSize)
    by (vm_compute; discriminate).
  assert (Hsuffix : calculate_suffix_length 10 ≤ Z.of_nat (length [66; 67]))
    by (vm_compute; discriminate).
  repeat (split; [assumption|]).
  exact (set_next_layer_within_reserved_record page_one_record_locked 1 77
           slice_abcdefgh [66; 67] 10 100 (mkDual 0 4096) Hwf Hold Hidx Hrem Hpay
           Hroom Hsmall Hsuffix).
Defined.

(** ** Edges of the record layout *)

(** X15: [get_suffix_length] tests [remaining_key_length_ <= sizeof(KeySlice)]
    where [calculate_suffix_length] tests [remaining_length >=
    sizeof(KeySlice)]; the two agree on every length, 8 included: the suffix
    length read off a slot is the one its record was sized with. *)
Theorem get_suffix_length_is_calculate_suffix_length (p : t) (index len : Z) :
  is_uint8 len →
  at_index (remaining_key_length_ p) index = Some len →
  get_suffix_length p index = Some (calculate_suffix_length len).
Proof.
  intros Hlen Hat. unfold is_uint8 in Hlen.
  unfold get_suffix_length. rewrite Hat. cbn [mbind option_bind]. f_equal.
  rewrite calculate_suffix_length_eq by lia. unfold sizeof_KeySlice.
  destruct (Z.leb_spec len 8), (Z.leb_spec 8 len); try lia.
  apply wrap16_small. lia.
Qed.

Lemma get_suffix_length_is_calculate_suffix_length_witness :
  is_uint8 8
  ∧ at_index (remaining_key_length_ page_8_then_9) 0 = Some 8
  ∧ get_suffix_length page_8_then_9 0 = Some (calculate_suffix_length 8).
Proof.
  assert (Hlen : is_uint8 8) by (split; [vm_compute; discriminate|reflexivity]).
  assert (Hat : at_index (remaining_key_length_ page_8_then_9) 0 = Some 8)
    by (vm_compute; reflexivity).
  repeat (split; [assumption|]).
  exact (get_suffix_length_is_calculate_suffix_length page_8_then_9 0 8 Hlen Hat).
Defined.

(** X16: the reservations that store the offset [kDataSize >> 4].  After a
    reservation that keeps inside the page the stored offset is at most
    [kDataSize >> 4], and it is [kDataSize >> 4], the one value for which
    [offsets_[index] < (kDataSize >> 4)], the assertion of [get_record] and
    [get_next_layer], does not hold, exactly when the new record is empty (a
    key of at most 8 bytes without payload) and the record before it starts
    at the end of [data_]: in slot 0, and in a later slot when the records of
    all slots before it are empty too. *)
Theorem reserve_record_space_offset_at_data_end (p : t) (index : Z)
    (initial_owner_id : XctId) (slice : KeySlice) (suffix : list Z)
    (remaining_length payload_count : Z) :
  well_formed p →
  records_inside_data p index →
  0 ≤ index < kMaxKeys →
  0 ≤ remaining_length ≤ kKeyLengthMax →
  0 ≤ payload_count →
  can_accomodate p index remaining_length payload_count = Some true →
  calculate_suffix_length remaining_length + payload_count ≤ kDataSize →
  calculate_suffix_length remaining_length ≤ Z.of_nat (length suffix) →
  ∃ p' o,
    reserve_record_space p index initial_owner_id slice suffix remaining_length
      payload_count = Some p'
    ∧ at_index (offsets_ p') index = Some o
    ∧ get_record p' index = Some (16 * o)
    ∧ 0 ≤ o ≤ Z.shiftr kDataSize 4
    ∧ (o = Z.shiftr kDataSize 4
       ↔ remaining_length ≤ sizeof_KeySlice ∧ payload_count = 0
         ∧ previous_record_start p index = Some kDataSize).
Proof.
  intros Hwf Holder Hindex Hlength Hpayload Hroom Hsmall Hsuffix.
  destruct (reserve_record_space_effect p index remaining_length payload_count
              initial_owner_id slice suffix Hwf Holder Hindex Hlength Hpayload
              Hroom Hsmall Hsuffix)
    as (p' & start & o' & Hres & Hstart & Ho' & Hrange & Hend & _ & _ & _ & _ & _
        & Hoff & _).
  unfold kMaxKeys, kKeyLengthMax in *. change kDataSize with 2752 in *.
  change (Z.shiftr 2752 4) with 172.
  destruct Hwf as [(_ & _ & Hl3 & _) _]. unfold kMaxKeys in Hl3.
  assert (Hat : at_index (offsets_ p') index = Some o')
    by (rewrite Hoff; apply (at_index_insert_eq (offsets_ p) index); lia).
  exists p', o'. split; [done|]. split; [done|]. split.
  { rewrite get_record_slot by (unfold kMaxKeys; lia). rewrite Hat.
    cbn [mbind option_bind]. f_equal. rewrite wrap16_small by lia.
    rewrite Z.shiftl_mul_pow2 by lia. change (2 ^ 4) with 16. lia. }
  split; [done|].
  rewrite calculate_record_size_exact in Ho' by lia.
  pose proof (align16_bounds (calculate_suffix_length remaining_length
                              + payload_count)) as Hbounds.
  pose proof (align16_multiple (calculate_suffix_length remaining_length
                                + payload_count)) as Hmultiple.
  assert (Hsl : 0 ≤ calculate_suffix_length remaining_length
                ∧ (calculate_suffix_length remaining_length = 0
                   ↔ remaining_length ≤ sizeof_KeySlice)).
  { rewrite calculate_suffix_length_eq by lia. unfold sizeof_KeySlice.
    destruct (Z.leb_spec 8 remaining_length); lia. }
  rewrite Hstart. split.
  - intros ->. assert (start = 2752) as -> by lia.
    split; [lia|]. split; [lia|done].
  - intros (Hshort & -> & [= ->]). lia.
Qed.

(** X16 at slot 1 behind an empty record in slot 0. *)
Lemma reserve_record_space_offset_at_data_end_witness :
  well_formed page_empty_record_locked
  ∧ records_inside_data page_empty_record_locked 1
  ∧ 0 ≤ 1 < kMaxKeys
  ∧ 0 ≤ 8 ≤ kKeyLengthMax
  ∧ 0 ≤ 0
  ∧ can_accomodate page_empty_record_locked 1 8 0 = Some true
  ∧ calculate_suffix_length 8 + 0 ≤ kDataSize
  ∧ calculate_suffix_length 8 ≤ Z.of_nat (length (@nil Z))
  ∧ ∃ p' o,
      reserve_record_space page_empty_record_locked 1 77 slice_abcdefgh [] 8 0
      = Some p'
      ∧ at_index (offsets_ p') 1 = Some o
      ∧ get_record p' 1 = Some (16 * o)
      ∧ 0 ≤ o ≤ Z.shiftr kDataSize 4
      ∧ (o = Z.shiftr kDataSize 4
         ↔ 8 ≤ sizeof_KeySlice ∧ 0 = 0
           ∧ previous_record_start page_empty_record_locked 1 = Some kDataSize).
Proof.
  assert (Hwf : well_formed page_empty_record_locked)
    by (apply well_formed_concrete; vm_compute; reflexivity).
  assert (Holder : records_inside_data page_empty_record_locked 1).
  { intros j o Hj. assert (j = 0) as -> by lia.
    vm_compute. intros [= <-]. discriminate. }
  assert (Hindex : 0 ≤ 1 < kMaxKeys) by (split; [lia|reflexivity]).
  assert (Hlength : 0 ≤ 8 ≤ kKeyLengthMax) by (split; vm_compute; discriminate).
  assert (Hpayload : 0 ≤ 0) by lia.
  assert (Hroom : can_accomodate page_empty_record_locked 1 8 0 = Some true)
    by (vm_compute; reflexivity).
  assert (Hsmall : calculate_suffix_length 8 + 0 ≤ kDataSize)
    by (vm_compute; discriminate).
  assert (Hsuffix : calculate_suffix_length 8 ≤ Z.of_nat (length (@nil Z)))
    by (vm_compute; discriminate).
  repeat (split; [assumption|]).
  exact (reserve_record_space_offset_at_data_end page_empty_record_locked 1 77
           slice_abcdefgh [] 8 0 Hwf Holder Hindex Hlength Hpayload Hroom Hsmall
           Hsuffix).
Defined.

(** Both slots of the page that results hold [kDataSize >> 4]. *)
Lemma empty_records_share_the_data_end :
  ∃ p',
    reserve_record_space page_empty_record_locked 1 77 slice_abcdefgh [] 8 0
    = Some p'
    ∧ at_index (offsets_ p') 0 = Some (Z.shiftr kDataSize 4)
    ∧ at_index (offsets_ p') 1 = Some (Z.shiftr kDataSize 4).
Proof. eexists. split; [vm_compute; reflexivity|]. split; reflexivity. Qed.

(** ** Navigation in an intermediate page *)

Lemma find_separator_from_range separators separator_count slice todo i r :
  0 ≤ i → i + Z.of_nat todo = separator_count → separator_count < 256 →
  find_separator_from separators separator_count slice todo i = Some r →
  i ≤ r ≤ separator_count.
Proof.
  revert i. induction todo as [|todo IH]; intros i Hi Hsum Hbyte Hr.
  - cbn in Hr. injection Hr as <-. lia.
  - cbn [find_separator_from] in Hr.
    destruct (at_index separators i) as [s|]; [|done]. cbn in Hr.
    rewrite wrap8_small in Hr by lia. destruct (slice <? s).
    + injection Hr as <-. lia.
    + apply IH in Hr; lia.
Qed.

Lemma find_separator_from_monotone separators separator_count slice1 slice2 todo i
    r1 r2 :
  slice1 ≤ slice2 → 0 ≤ i → i + Z.of_nat todo = separator_count →
  separator_count < 256 →
  find_separator_from separators separator_count slice1 todo i = Some r1 →
  find_separator_from separators separator_count slice2 todo i = Some r2 →
  r1 ≤ r2.
Proof.
  intros Hle. revert i. induction todo as [|todo IH]; intros i Hi Hsum Hbyte H1 H2.
  - cbn in H1, H2. injection H1 as <-. injection H2 as <-. lia.
  - pose proof (find_separator_from_range _ _ _ _ _ _ Hi Hsum Hbyte H2) as Hrange.
    cbn [find_separator_from] in H1, H2.
    destruct (at_index separators i) as [s|]; [|done]. cbn in H1, H2.
    rewrite wrap8_small in H1, H2 by lia.
    destruct (Z.ltb_spec slice1 s) as [Hlt1|Hge1].
    + injection H1 as <-. lia.
    + destruct (Z.ltb_spec slice2 s) as [Hlt2|Hge2]; [lia|].
      apply (IH (i + 1)); [lia|lia|done|done|done].
Qed.

Lemma find_separator_from_total separators separator_count slice :
  0 ≤ separator_count → separator_count ≤ Z.of_nat (length separators) →
  separator_count < 256 →
  ∃ r, find_separator_from separators separator_count slice
         (Z.to_nat separator_count) 0 = Some r
       ∧ first_separator_above separators separator_count slice r.
Proof.
  intros H0 Hfits Hbyte.
  apply find_separator_from_spec; [done|done|lia|lia|intros; lia].
Qed.

Lemma find_separator_monotone separators separator_count slice1 slice2 :
  0 ≤ separator_count → separator_count ≤ Z.of_nat (length separators) →
  separator_count < 256 → slice1 ≤ slice2 →
  ∃ r1 r2,
    find_separator_from separators separator_count slice1
      (Z.to_nat separator_count) 0 = Some r1
    ∧ find_separator_from separators separator_count slice2
        (Z.to_nat separator_count) 0 = Some r2
    ∧ r1 ≤ r2.
Proof.
  intros H0 Hfits Hbyte Hle.
  destruct (find_separator_from_total separators separator_count slice1)
    as (r1 & Hr1 & _); [done|done|done|].
  destruct (find_separator_from_total separators separator_count slice2)
    as (r2 & Hr2 & _); [done|done|done|].
  exists r1, r2. split; [done|]. split; [done|].
  refine (find_separator_from_monotone _ _ _ _ _ _ _ _ Hle _ _ _ Hr1 Hr2); lia.
Qed.

Lemma first_separator_above_between separators separator_count slice r :
  separator_count ≤ Z.of_nat (length separators) →
  first_separator_above separators separator_count slice r →
  between_separators separators separator_count slice r.
Proof.
  intros Hfits (Hrange & Hbelow & Habove). split.
  - destruct (decide (r = 0)) as [|Hne]; [by left|right].
    destruct (at_index_Some separators (r - 1)) as [s Hs]; [lia|].
    exists s. split; [done|]. apply (Hbelow (r - 1)); [lia|done].
  - destruct (decide (r = separator_count)) as [|Hne]; [by left|right].
    apply Habove. lia.
Qed.

Lemma between_sorted_separators_unique separators separator_count slice i r :
  separators_sorted separators separator_count →
  0 ≤ i ≤ separator_count →
  between_separators separators separator_count slice i →
  first_separator_above separators separator_count slice r →
  r = i.
Proof.
  intros Hsorted Hi [Hlow Hhigh] (Hrange & Hbelow & Habove).
  destruct (Z.lt_trichotomy r i) as [Hlt|[Heq|Hgt]]; [|done|].
  - destruct (Habove ltac:(lia)) as (s & Hs & Hslice).
    destruct Hlow as [->|(s' & Hs' & Hslice')]; [lia|].
    pose proof (Hsorted r (i - 1) s s' ltac:(lia) ltac:(lia) ltac:(lia) Hs Hs'). lia.
  - destruct Hhigh as [->|(s & Hs & Hslice)]; [lia|].
    pose proof (Hbelow i s ltac:(lia) Hs). lia.
Qed.

Lemma find_separator_iff_between separators separator_count slice i :
  0 ≤ separator_count → separator_count ≤ Z.of_nat (length separators) →
  separator_count < 256 →
  separators_sorted separators separator_count →
  0 ≤ i ≤ separator_count →
  find_separator_from separators separator_count slice (Z.to_nat separator_count) 0
  = Some i
  ↔ between_separators separators separator_count slice i.
Proof.
  intros H0 Hfits Hbyte Hsorted Hi.
  destruct (find_separator_from_total separators separator_count slice)
    as (r & Hr & Hfirst); [done|done|done|].
  rewrite Hr. split.
  - intros [= <-]. by apply first_separator_above_between.
  - intros Hbetween. f_equal.
    by apply (between_sorted_separators_unique _ _ _ _ _ Hsorted Hi Hbetween).
Qed.

(** X17: navigation is monotone, also where the separators are not in order:
    of two slices the larger one is sent to the same or to a later mini-page
    by [find_minipage], and to the same or a later pointer by
    [MiniPage::find_pointer]. *)
Theorem find_minipage_find_pointer_monotone
    (p : MasstreeIntermediatePage.t) (m : MiniPage.t)
    (stable mini_stable : MasstreePageVersion) (slice1 slice2 : KeySlice) :
  MasstreeIntermediatePage.well_formed p →
  MiniPage.well_formed m →
  0 ≤ get_key_count stable ≤ kMaxIntermediateSeparators →
  0 ≤ get_key_count mini_stable ≤ kMaxIntermediateMiniSeparators →
  slice1 ≤ slice2 →
  (∃ r1 r2, MasstreeIntermediatePage.find_minipage p stable slice1 = Some r1
            ∧ MasstreeIntermediatePage.find_minipage p stable slice2 = Some r2
            ∧ r1 ≤ r2)
  ∧ (∃ r1 r2, MiniPage.find_pointer m mini_stable slice1 = Some r1
              ∧ MiniPage.find_pointer m mini_stable slice2 = Some r2
              ∧ r1 ≤ r2).
Proof.
  intros [Hp _] [Hm _] Hc Hmc Hle.
  unfold kMaxIntermediateSeparators, kMaxIntermediateMiniSeparators in *.
  split.
  - unfold MasstreeIntermediatePage.find_minipage. rewrite wrap8_small by lia.
    apply find_separator_monotone; [lia|lia|lia|done].
  - unfold MiniPage.find_pointer. rewrite wrap8_small by lia.
    apply find_separator_monotone; [lia|lia|lia|done].
Qed.

Lemma find_minipage_find_pointer_monotone_witness :
  MasstreeIntermediatePage.well_formed sample_intermediate
  ∧ MiniPage.well_formed sample_minipage
  ∧ 0 ≤ get_key_count (reader_version 3) ≤ kMaxIntermediateSeparators
  ∧ 0 ≤ get_key_count (reader_version 2) ≤ kMaxIntermediateMiniSeparators
  ∧ 150 ≤ 2500
  ∧ (∃ r1 r2,
       MasstreeIntermediatePage.find_minipage sample_intermediate (reader_version 3)
         150 = Some r1
       ∧ MasstreeIntermediatePage.find_minipage sample_intermediate
           (reader_version 3) 2500 = Some r2
       ∧ r1 ≤ r2)
  ∧ (∃ r1 r2,
       MiniPage.find_pointer sample_minipage (reader_version 2) 150 = Some r1
       ∧ MiniPage.find_pointer sample_minipage (reader_version 2) 2500 = Some r2
       ∧ r1 ≤ r2).
Proof.
  assert (Hp : MasstreeIntermediatePage.well_formed sample_intermediate)
    by (split; reflexivity).
  assert (Hm : MiniPage.well_formed sample_minipage) by (split; reflexivity).
  assert (Hc : 0 ≤ get_key_count (reader_version 3) ≤ kMaxIntermediateSeparators)
    by (split; vm_compute; discriminate).
  assert (Hmc : 0 ≤ get_key_count (reader_version 2)
                ≤ kMaxIntermediateMiniSeparators)
    by (split; vm_compute; discriminate).
  assert (Hle : 150 ≤ 2500) by lia.
  repeat (split; [assumption|]).
  exact (find_minipage_find_pointer_monotone sample_intermediate sample_minipage
           (reader_version 3) (reader_version 2) 150 2500 Hp Hm Hc Hmc Hle).
Defined.

(** X18: the rule written beside [separators_]: "Iff separators_[i-1] <=
    Slice < separators_[i], the search is navigated to mini_pages_[i]", with
    [mini_pages_[0]] below the first separator and [mini_pages_[key_count]]
    from the last one on.  It holds in both directions when the separators in
    use are in non-decreasing order, for [find_minipage] and, with the same
    semantics, for [MiniPage::find_pointer]. *)
Theorem find_minipage_find_pointer_iff_between_separators
    (p : MasstreeIntermediatePage.t) (m : MiniPage.t)
    (stable mini_stable : MasstreePageVersion) (slice : KeySlice) (i i' : Z) :
  MasstreeIntermediatePage.well_formed p →
  MiniPage.well_formed m →
  0 ≤ get_key_count stable ≤ kMaxIntermediateSeparators →
  0 ≤ get_key_count mini_stable ≤ kMaxIntermediateMiniSeparators →
  separators_sorted (MasstreeIntermediatePage.separators_ p) (get_key_count stable) →
  separators_sorted (MiniPage.separators_ m) (get_key_count mini_stable) →
  0 ≤ i ≤ get_key_count stable →
  0 ≤ i' ≤ get_key_count mini_stable →
  (MasstreeIntermediatePage.find_minipage p stable slice = Some i
   ↔ between_separators (MasstreeIntermediatePage.separators_ p)
       (get_key_count stable) slice i)
  ∧ (MiniPage.find_pointer m mini_stable slice = Some i'
     ↔ between_separators (MiniPage.separators_ m) (get_key_count mini_stable)
         slice i').
Proof.
  intros [Hp _] [Hm _] Hc Hmc Hsorted Hmsorted Hi Hi'.
  unfold kMaxIntermediateSeparators, kMaxIntermediateMiniSeparators in *.
  split.
  - unfold MasstreeIntermediatePage.find_minipage. rewrite wrap8_small by lia.
    apply find_separator_iff_between; [lia|lia|lia|done|done].
  - unfold MiniPage.find_pointer. rewrite wrap8_small by lia.
    apply find_separator_iff_between; [lia|lia|lia|done|done].
Qed.

Lemma find_minipage_find_pointer_iff_between_separators_witness :
  MasstreeIntermediatePage.well_formed sample_intermediate
  ∧ MiniPage.well_formed sample_minipage
  ∧ 0 ≤ get_key_count (reader_version 3) ≤ kMaxIntermediateSeparators
  ∧ 0 ≤ get_key_count (reader_version 2) ≤ kMaxIntermediateMiniSeparators
  ∧ separators_sorted (MasstreeIntermediatePage.separators_ sample_intermediate)
      (get_key_count (reader_version 3))
  ∧ separators_sorted (MiniPage.separators_ sample_minipage)
      (get_key_count (reader_version 2))
  ∧ 0 ≤ 1 ≤ get_key_count (reader_version 3)
  ∧ 0 ≤ 2 ≤ get_key_count (reader_version 2)
  ∧ (MasstreeIntermediatePage.find_minipage sample_intermediate (reader_version 3)
       1500 = Some 1
     ↔ between_separators (MasstreeIntermediatePage.separators_ sample_intermediate)
         (get_key_count (reader_version 3)) 1500 1)
  ∧ (MiniPage.find_pointer sample_minipage (reader_version 2) 1500 = Some 2
     ↔ between_separators (MiniPage.separators_ sample_minipage)
         (get_key_count (reader_version 2)) 1500 2).
Proof.
  assert (Hp : MasstreeIntermediatePage.well_formed sample_intermediate)
    by (split; reflexivity).
  assert (Hm : MiniPage.well_formed sample_minipage) by (split; reflexivity).
  assert (Hc : 0 ≤ get_key_count (reader_version 3) ≤ kMaxIntermediateSeparators)
    by (split; vm_compute; discriminate).
  assert (Hmc : 0 ≤ get_key_count (reader_version 2)
                ≤ kMaxIntermediateMiniSeparators)
    by (split; vm_compute; discriminate).
  assert (Hsorted : separators_sorted
                      (MasstreeIntermediatePage.separators_ sample_intermediate)
                      (get_key_count (reader_version 3))).
  { intros j k a b Hj Hjk Hk. change (get_key_count (reader_version 3)) with 3 in Hk.
    assert (Hjs : j = 0 ∨ j = 1 ∨ j = 2) by lia.
    assert (Hks : k = 0 ∨ k = 1 ∨ k = 2) by lia.
    destruct Hjs as [-> | [-> | ->]], Hks as [-> | [-> | ->]]; try lia;
      vm_compute; intros [= <-] [= <-]; discriminate. }
  assert (Hmsorted : separators_sorted (MiniPage.separators_ sample_minipage)
                       (get_key_count (reader_version 2))).
  { intros j k a b Hj Hjk Hk. change (get_key_count (reader_version 2)) with 2 in Hk.
    assert (Hjs : j = 0 ∨ j = 1) by lia.
    assert (Hks : k = 0 ∨ k = 1) by lia.
    destruct Hjs as [-> | ->], Hks as [-> | ->]; try lia;
      vm_compute; intros [= <-] [= <-]; discriminate. }
  assert (Hi : 0 ≤ 1 ≤ get_key_count (reader_version 3))
    by (split; vm_compute; discriminate).
  assert (Hi' : 0 ≤ 2 ≤ get_key_count (reader_version 2))
    by (split; vm_compute; discriminate).
  repeat (split; [assumption|]).
  exact (find_minipage_find_pointer_iff_between_separators sample_intermediate
           sample_minipage (reader_version 3) (reader_version 2) 1500 1 2 Hp Hm Hc
           Hmc Hsorted Hmsorted Hi Hi').
Defined.

(** X19: the descent through an intermediate page stays inside its arrays:
    the index that [find_minipage] answers names one of the ten mini-pages,
    so [get_minipage] reads inside [mini_pages_], and the index that
    [find_pointer] answers on that mini-page names one of its sixteen
    pointers. *)
Theorem find_minipage_then_find_pointer_in_range
    (p : MasstreeIntermediatePage.t) (stable : MasstreePageVersion)
    (slice : KeySlice) :
  MasstreeIntermediatePage.well_formed p →
  0 ≤ get_key_count stable ≤ kMaxIntermediateSeparators →
  ∃ r m,
    MasstreeIntermediatePage.find_minipage p stable slice = Some r
    ∧ MasstreeIntermediatePage.get_minipage p r = Some m
    ∧ ∀ mini_stable,
        MiniPage.well_formed m →
        0 ≤ get_key_count mini_stable ≤ kMaxIntermediateMiniSeparators →
        ∃ r' pointer,
          MiniPage.find_pointer m mini_stable slice = Some r'
          ∧ at_index (MiniPage.pointers_ m) r' = Some pointer.
Proof.
  intros [Hp Hminis] Hc. unfold kMaxIntermediateSeparators in *.
  unfold MasstreeIntermediatePage.find_minipage. rewrite wrap8_small by lia.
  destruct (find_separator_from_total (MasstreeIntermediatePage.separators_ p)
              (get_key_count stable) slice) as (r & Hr & (Hrange & _)); [lia|lia|lia|].
  destruct (at_index_Some (MasstreeIntermediatePage.mini_pages_ p) r) as [m Hm];
    [lia|].
  exists r, m. split; [done|]. split; [done|].
  intros mini_stable [Hs Hptrs] Hmc. unfold kMaxIntermediateMiniSeparators in *.
  unfold MiniPage.find_pointer. rewrite wrap8_small by lia.
  destruct (find_separator_from_total (MiniPage.separators_ m)
              (get_key_count mini_stable) slice) as (r' & Hr' & (Hrange' & _));
    [lia|lia|lia|].
  destruct (at_index_Some (MiniPage.pointers_ m) r') as [pointer Hpointer]; [lia|].
  by exists r', pointer.
Qed.

Lemma find_minipage_then_find_pointer_in_range_witness :
  MasstreeIntermediatePage.well_formed sample_intermediate
  ∧ 0 ≤ get_key_count (reader_version 3) ≤ kMaxIntermediateSeparators
  ∧ ∃ r m,
      MasstreeIntermediatePage.find_minipage sample_intermediate (reader_version 3)
        3500 = Some r
      ∧ MasstreeIntermediatePage.get_minipage sample_intermediate r = Some m
      ∧ ∀ mini_stable,
          MiniPage.well_formed m →
          0 ≤ get_key_count mini_stable ≤ kMaxIntermediateMiniSeparators →
          ∃ r' pointer,
            MiniPage.find_pointer m mini_stable 3500 = Some r'
            ∧ at_index (MiniPage.pointers_ m) r' = Some pointer.
Proof.
  assert (Hp : MasstreeIntermediatePage.well_formed sample_intermediate)
    by (split; reflexivity).
  assert (Hc : 0 ≤ get_key_count (reader_version 3) ≤ kMaxIntermediateSeparators)
    by (split; vm_compute; discriminate).
  repeat (split; [assumption|]).
  exact (find_minipage_then_find_pointer_in_range sample_intermediate
           (reader_version 3) 3500 Hp Hc).
Defined.

(** ** Prefetching *)

(** X20: together, [prefetch] and [prefetch_additional_if_needed(key_count)]
    ask for every byte of the slices of the slots below [key_count]: the
    first call covers the header, the key lengths and 16 slices, the second
    one the slices from the 17th on, eight to a cache line.  No call leaves
    the 4096 bytes of the page. *)
Theorem prefetch_covers_slices_in_use (key_count index byte : Z) :
  0 ≤ index < key_count →
  key_count < 256 →
  in_slice_of_slot index byte →
  (∃ call, call ∈ border_prefetch ++ prefetch_additional_if_needed key_count
           ∧ prefetched call byte)
  ∧ (∀ call, call ∈ border_prefetch ++ prefetch_additional_if_needed key_count →
             0 ≤ prefetch_address call
             ∧ prefetch_address call + kCachelineSize * cacheline_count call ≤ 4096).
Proof.
  intros Hindex Hbyte Hin.
  unfold in_slice_of_slot, kSlicesPosition, sizeof_KeySlice in Hin.
  unfold prefetch_additional_if_needed, border_prefetch, prefetched, kCachelineSize.
  destruct (Z.ltb_spec 16 key_count) as [Hmany|Hfew].
  - rewrite (Z.mod_small (key_count - 16)) by lia.
    rewrite Z.shiftr_div_pow2 by lia. change (2 ^ 3) with 8.
    assert (0 ≤ (key_count - 16) / 8 < 30).
    { split; [apply Z.div_pos; lia|apply Z.div_lt_upper_bound; lia]. }
    rewrite wrap16_small by lia.
    pose proof (Z.mul_div_le (key_count - 16) 8 ltac:(lia)).
    pose proof (Z.mul_succ_div_gt (key_count - 16) 8 ltac:(lia)).
    split.
    + destruct (decide (byte < 256)).
      * exists (mkPrefetchCall 0 4).
        split; [apply elem_of_app; left; by apply list_elem_of_singleton|].
        cbn. lia.
      * eexists. split; [apply elem_of_app; right; apply list_elem_of_singleton; done|].
        cbn. lia.
    + intros call [->%list_elem_of_singleton | ->%list_elem_of_singleton]%elem_of_app;
        cbn; lia.
  - split.
    + exists (mkPrefetchCall 0 4).
      split; [apply elem_of_app; left; by apply list_elem_of_singleton|].
      cbn. lia.
    + intros call Hcall. rewrite app_nil_r in Hcall.
      apply list_elem_of_singleton in Hcall as ->. cbn. lia.
Qed.

Lemma prefetch_covers_slices_in_use_witness :
  0 ≤ 39 < 40
  ∧ 40 < 256
  ∧ in_slice_of_slot 39 447
  ∧ (∃ call, call ∈ border_prefetch ++ prefetch_additional_if_needed 40
             ∧ prefetched call 447)
  ∧ (∀ call, call ∈ border_prefetch ++ prefetch_additional_if_needed 40 →
             0 ≤ prefetch_address call
             ∧ prefetch_address call + kCachelineSize * cacheline_count call ≤ 4096).
Proof.
  assert (Hindex : 0 ≤ 39 < 40) by lia.
  assert (Hcount : 40 < 256) by lia.
  assert (Hin : in_slice_of_slot 39 447)
    by (split; [vm_compute; discriminate|reflexivity]).
  repeat (split; [assumption|]).
  exact (prefetch_covers_slices_in_use 40 39 447 Hindex Hcount Hin).
Defined.

(** ** Hash ranges *)

Lemma contains_spec r hash :
  HashRange.contains r hash = true
  ↔ HashRange.begin_ r ≤ hash < HashRange.end_ r.
Proof. unfold HashRange.contains. rewrite andb_true_iff, Z.leb_le, Z.ltb_lt. done. Qed.

Lemma overlaps_spec r other :
  HashRange.overlaps r other = true
  ↔ HashRange.begin_ r ≤ HashRange.begin_ other < HashRange.end_ r
    ∨ HashRange.begin_ r ≤ HashRange.end_ other < HashRange.end_ r
    ∨ HashRange.begin_ other ≤ HashRange.begin_ r < HashRange.end_ other.
Proof.
  unfold HashRange.overlaps. rewrite !orb_true_iff, !contains_spec. tauto.
Qed.

(** X21: [HashRange::overlaps] misses no overlap: two ranges that contain a
    common hash value overlap, asked from either side. *)
Theorem overlaps_never_misses (r other : HashRange.t) :
  HashRange.share_a_value r other →
  HashRange.overlaps r other = true ∧ HashRange.overlaps other r = true.
Proof.
  intros (hash & Hr%contains_spec & Hother%contains_spec).
  rewrite !overlaps_spec. lia.
Qed.

Lemma overlaps_never_misses_witness :
  HashRange.share_a_value (HashRange.mk 10 20) (HashRange.mk 15 30)
  ∧ HashRange.overlaps (HashRange.mk 10 20) (HashRange.mk 15 30) = true
  ∧ HashRange.overlaps (HashRange.mk 15 30) (HashRange.mk 10 20) = true.
Proof.
  assert (Hshare : HashRange.share_a_value (HashRange.mk 10 20) (HashRange.mk 15 30))
    by (exists 17; split; reflexivity).
  split; [assumption|].
  exact (overlaps_never_misses (HashRange.mk 10 20) (HashRange.mk 15 30) Hshare).
Defined.

(** X22: what [HashRange::overlaps] answers for two non-empty ranges: it is
    true exactly when they contain a common hash value or the other range
    ends where this one begins.  The exclusive end of the other range is
    tested with [contains], so a range directly before this one counts as
    overlapping although the two share no value, while asked from the other
    side the answer is false. *)
Theorem overlaps_iff_share_or_touch (r other : HashRange.t) :
  HashRange.begin_ r < HashRange.end_ r →
  HashRange.begin_ other < HashRange.end_ other →
  HashRange.overlaps r other = true
  ↔ HashRange.share_a_value r other ∨ HashRange.end_ other = HashRange.begin_ r.
Proof.
  intros Hr Hother. rewrite overlaps_spec. unfold HashRange.share_a_value. split.
  - intros [H|[H|H]].
    + left. exists (HashRange.begin_ other). rewrite !contains_spec. lia.
    + destruct (decide (HashRange.end_ other = HashRange.begin_ r)); [by right|].
      left.
      exists (Z.max (HashRange.begin_ r) (HashRange.begin_ other)).
      rewrite !contains_spec. lia.
    + left. exists (HashRange.begin_ r). rewrite !contains_spec. lia.
  - intros [(hash & H1%contains_spec & H2%contains_spec)|Htouch]; lia.
Qed.

Lemma overlaps_iff_share_or_touch_witness :
  HashRange.begin_ (HashRange.mk 20 30) < HashRange.end_ (HashRange.mk 20 30)
  ∧ HashRange.begin_ (HashRange.mk 10 20) < HashRange.end_ (HashRange.mk 10 20)
  ∧ (HashRange.overlaps (HashRange.mk 20 30) (HashRange.mk 10 20) = true
     ↔ HashRange.share_a_value (HashRange.mk 20 30) (HashRange.mk 10 20)
       ∨ HashRange.end_ (HashRange.mk 10 20) = HashRange.begin_ (HashRange.mk 20 30)).
Proof.
  assert (Hr : HashRange.begin_ (HashRange.mk 20 30)
               < HashRange.end_ (HashRange.mk 20 30)) by reflexivity.
  assert (Hother : HashRange.begin_ (HashRange.mk 10 20)
                   < HashRange.end_ (HashRange.mk 10 20)) by reflexivity.
  repeat (split; [assumption|]).
  exact (overlaps_iff_share_or_touch (HashRange.mk 20 30) (HashRange.mk 10 20)
           Hr Hother).
Defined.

(** ** The L3-miss experiment *)

Lemma run_from_inside_share blocks memory_per_core rands todo k ret :
  64 ≤ memory_per_core < 2 ^ 64 →
  memory_per_core ≤ Z.of_nat (length blocks) →
  (∀ n, 0 ≤ rands n) →
  ∃ result,
    L3MissExperiment.run_from blocks memory_per_core rands todo k ret = Some result
    ∧ L3MissExperiment.run_from (take (Z.to_nat memory_per_core) blocks)
        memory_per_core rands todo k ret
      = Some result.
Proof.
  intros Hmem Hlen Hrands. revert k ret.
  induction todo as [|todo IH]; intros k ret; [by exists ret|].
  cbn [L3MissExperiment.run_from]. cbv zeta.
  rewrite Z.shiftr_div_pow2 by lia. change (2 ^ 6) with 64.
  assert (Hlines : 1 ≤ memory_per_core / 64) by (apply Z.div_le_lower_bound; lia).
  rewrite (proj2 (Z.eqb_neq _ 0)) by lia.
  pose proof (Z.mod_pos_bound (rands k) (memory_per_core / 64) ltac:(lia)) as Hline.
  pose proof (Z.mul_div_le memory_per_core 64 ltac:(lia)) as Hfloor.
  rewrite Z.shiftl_mul_pow2 by lia. change (2 ^ 6) with 64.
  change (Z.shiftl 1 6) with 64.
  pose proof (Z.mod_pos_bound ret 64 ltac:(lia)) as Hret.
  assert (Hwrap : L3MissExperiment.wrap64 (rands k mod (memory_per_core / 64) * 64)
            = rands k mod (memory_per_core / 64) * 64)
    by (unfold L3MissExperiment.wrap64; apply Z.mod_small; lia).
  rewrite !Hwrap.
  set (block := rands k mod (memory_per_core / 64) * 64 + ret mod 64).
  assert (Hblock : 0 ≤ block < memory_per_core) by (unfold block; nia).
  destruct (at_index_Some blocks block) as [c Hc]; [lia|].
  assert (Hc' : at_index (take (Z.to_nat memory_per_core) blocks) block = Some c).
  { unfold at_index in *. rewrite decide_True in * by lia.
    rewrite lookup_take_lt by lia. done. }
  rewrite Hc, Hc'. cbn [mbind option_bind]. apply IH.
Qed.

(** X23: every read of [run] stays in the share of its thread.  With the
    memory of a node cut into [cores_per_node] shares of
    [kMemory / cores_per_node] bytes, at least 64 bytes each, the share of
    thread [id] ends inside the [kMemory] bytes allocated for the node, and
    [main_impl] for thread [id] completes its [kRep] reads without leaving
    that share: it gives the result that [run] gives on the share alone. *)
Theorem run_reads_inside_share (cores_per_node id : Z) (memory : list Z)
    (rands : nat → Z) :
  0 < cores_per_node →
  64 ≤ L3MissExperiment.kMemory / cores_per_node →
  0 ≤ id < cores_per_node →
  L3MissExperiment.kMemory / cores_per_node * (id + 1) ≤ Z.of_nat (length memory) →
  (∀ n, 0 ≤ rands n) →
  L3MissExperiment.kMemory / cores_per_node * (id + 1) ≤ L3MissExperiment.kMemory
  ∧ ∃ result,
      L3MissExperiment.main_impl cores_per_node id memory rands = Some result
      ∧ L3MissExperiment.run cores_per_node
          (take (Z.to_nat (L3MissExperiment.kMemory / cores_per_node))
             (drop (Z.to_nat (L3MissExperiment.kMemory / cores_per_node * id))
                memory))
          rands
        = Some result.
Proof.
  intros Hcores Hshare Hid Hlen Hrands.
  change L3MissExperiment.kMemory with 12884901888 in *.
  assert (Hsmall : cores_per_node ≤ 201326592).
  { destruct (decide (cores_per_node ≤ 201326592)); [done|].
    assert (12884901888 / cores_per_node < 64); [|lia].
    apply Z.div_lt_upper_bound; lia. }
  pose proof (Z.mul_div_le 12884901888 cores_per_node ltac:(lia)) as Hfloor.
  set (mpc := 12884901888 / cores_per_node) in *.
  split; [nia|].
  unfold L3MissExperiment.main_impl, L3MissExperiment.run.
  rewrite (proj2 (Z.eqb_neq _ 0)) by lia.
  unfold L3MissExperiment.wrap64. rewrite (Z.mod_small cores_per_node) by lia.
  change L3MissExperiment.kMemory with 12884901888. fold mpc.
  rewrite (Z.mod_small (mpc * id)) by nia.
  apply run_from_inside_share; [nia| |done].
  rewrite length_drop. nia.
Qed.

Lemma run_reads_inside_share_witness :
  0 < 201326592
  ∧ 64 ≤ L3MissExperiment.kMemory / 201326592
  ∧ 0 ≤ 1 < 201326592
  ∧ L3MissExperiment.kMemory / 201326592 * (1 + 1)
    ≤ Z.of_nat (length (replicate 128 7))
  ∧ (∀ n, 0 ≤ Z.of_nat n)
  ∧ L3MissExperiment.kMemory / 201326592 * (1 + 1) ≤ L3MissExperiment.kMemory
  ∧ ∃ result,
      L3MissExperiment.main_impl 201326592 1 (replicate 128 7) Z.of_nat = Some result
      ∧ L3MissExperiment.run 201326592
          (take (Z.to_nat (L3MissExperiment.kMemory / 201326592))
             (drop (Z.to_nat (L3MissExperiment.kMemory / 201326592 * 1))
                (replicate 128 7)))
          Z.of_nat
        = Some result.
Proof.
  assert (Hcores : 0 < 201326592) by lia.
  assert (Hshare : 64 ≤ L3MissExperiment.kMemory / 201326592)
    by (vm_compute; discriminate).
  assert (Hid : 0 ≤ 1 < 201326592) by lia.
  assert (Hlen : L3MissExperiment.kMemory / 201326592 * (1 + 1)
                 ≤ Z.of_nat (length (replicate 128 7)))
    by (vm_compute; discriminate).
  assert (Hrands : ∀ n, 0 ≤ Z.of_nat n) by lia.
  repeat (split; [assumption|]).
  exact (run_reads_inside_share 201326592 1 (replicate 128 7) Z.of_nat Hcores
           Hshare Hid Hlen Hrands).
Defined.
